(** * eebit: bit-packed category schemas, verified against the Python source

    A shallow embedding of [eebit/helpers.py], [eebit/bitmask.py] and
    [eebit/bithandler.py].

    Conventions of the embedding
    - Python [int] is [Z]; [>>], [<<], [&], [^] are [Z.shiftr], [Z.shiftl],
      [Z.land], [Z.lxor] (both sides use two's complement on unbounded
      integers, so they agree on negative numbers as well).
    - Python [str] is [string]; only code points below 128 get a special
      treatment by [lower], [int()] and white space stripping.
    - Python [dict] is an association list in insertion order, written to
      with [dict_set] (replace in place, else append), as CPython does.
    - A raised exception is [Raise e]; [e] carries the exception class and
      the message template of the raise site (the f-string as written in the
      source, not interpolated).
    - [float] is [spec_float], the IEEE-754 binary64 values. *)

From Stdlib Require Import ZArith List String Ascii Bool Lia Permutation.
From Stdlib Require Import DecimalString DecimalPos DecimalZ.
From Stdlib Require Import SpecFloat.
Import ListNotations.

Local Open Scope string_scope.
Local Open Scope Z_scope.

(* ================================================================= *)
(** ** Exceptions and the error monad *)

Inductive exn : Type :=
| ValueError (msg : string)
| TypeError (msg : string)
| IndexError (msg : string)
| OverflowError (msg : string)
| AttributeError (msg : string).

Inductive result (A : Type) : Type :=
| Ok (a : A)
| Raise (e : exn).

Arguments Ok {A} a.
Arguments Raise {A} e.

Definition bind {A B} (r : result A) (k : A -> result B) : result B :=
  match r with
  | Ok a => k a
  | Raise e => Raise e
  end.

Notation "'let*' x ':=' r 'in' k" := (bind r (fun x => k))
  (at level 10, x pattern, r at level 100, k at level 200).

(** [if cond: raise e] followed by the rest of the block. *)
Definition raise_if {A} (cond : bool) (e : exn) (k : result A) : result A :=
  if cond then Raise e else k.

(** A [for] loop whose body may raise: the state is threaded through the
    iterations, the first exception aborts the loop. *)
Fixpoint for_each {A S} (body : S -> A -> result S) (l : list A) (s : S)
  : result S :=
  match l with
  | [] => Ok s
  | x :: l' => let* s' := body s x in for_each body l' s'
  end.

Definition is_ok {A} (r : result A) : bool :=
  match r with Ok _ => true | Raise _ => false end.

(* ================================================================= *)
(** ** Python strings *)

Module Str.

(** [s.split(sep)] and [s.split(sep, maxsplit)] for a one-character
    separator; [maxsplit = None] is the unbounded form. *)
Fixpoint split (sep : ascii) (maxsplit : option nat) (s : string)
  : list string :=
  match maxsplit with
  | Some O => [s]
  | _ =>
    match s with
    | EmptyString => [EmptyString]
    | String c s' =>
      if Ascii.eqb c sep
      then EmptyString :: split sep (option_map Nat.pred maxsplit) s'
      else match split sep maxsplit s' with
           | p :: ps => String c p :: ps
           | [] => [String c EmptyString]
           end
    end
  end.

(** [sep.join(parts)] *)
Definition join (sep : string) (parts : list string) : string :=
  String.concat sep parts.

Definition is_upper (c : ascii) : bool :=
  let n := nat_of_ascii c in (Nat.leb 65 n && Nat.leb n 90)%bool.

Definition lower_char (c : ascii) : ascii :=
  if is_upper c then ascii_of_nat (nat_of_ascii c + 32) else c.

(** [s.lower()] *)
Fixpoint lower (s : string) : string :=
  match s with
  | EmptyString => EmptyString
  | String c s' => String (lower_char c) (lower s')
  end.

(** [a > b] on strings: lexicographic on code points. *)
Definition gtb (a b : string) : bool := String.ltb b a.

(** [len(s)] *)
Definition len (s : string) : Z := Z.of_nat (String.length s).

(** White space as [int()] strips it from a string of code points below
    128: tab, line feed, vertical tab, form feed, carriage return and the
    blank. *)
Definition is_space (c : ascii) : bool :=
  let n := nat_of_ascii c in
  ((Nat.leb 9 n && Nat.leb n 13) || Nat.eqb n 32)%bool.

Fixpoint lstrip (s : string) : string :=
  match s with
  | String c s' => if is_space c then lstrip s' else s
  | EmptyString => EmptyString
  end.

Fixpoint rstrip (s : string) : string :=
  match s with
  | EmptyString => EmptyString
  | String c s' =>
    match rstrip s' with
    | EmptyString => if is_space c then EmptyString else String c EmptyString
    | r => String c r
    end
  end.

Definition strip (s : string) : string := rstrip (lstrip s).

Definition digit_of (c : ascii) : option Z :=
  let n := nat_of_ascii c in
  if (Nat.leb 48 n && Nat.leb n 57)%bool then Some (Z.of_nat (n - 48)) else None.

(** Decimal digits with single underscores between digits. *)
Fixpoint parse_digits (acc : Z) (after_digit : bool) (s : string)
  : option Z :=
  match s with
  | EmptyString => if after_digit then Some acc else None
  | String c s' =>
    match digit_of c with
    | Some d => parse_digits (10 * acc + d) true s'
    | None =>
      if (Ascii.eqb c "_" && after_digit)%bool
      then parse_digits acc false s'
      else None
    end
  end.

(** [int(s)] for a string [s], [None] where Python raises [ValueError]. *)
Definition to_int (s : string) : option Z :=
  match strip s with
  | String "-" s' => option_map Z.opp (parse_digits 0 false s')
  | String "+" s' => parse_digits 0 false s'
  | s' => parse_digits 0 false s'
  end.

(** [str(n)] for an integer [n]. *)
Definition of_int (n : Z) : string := NilZero.string_of_int (Z.to_int n).

(** [s.replace(old, new)] for a one-character [old]. *)
Fixpoint replace (old : ascii) (new : string) (s : string) : string :=
  match s with
  | EmptyString => EmptyString
  | String c s' =>
    if Ascii.eqb c old then new ++ replace old new s'
    else String c (replace old new s')
  end.

(** [c in s] for a one-character [c]. *)
Fixpoint contains (c : ascii) (s : string) : bool :=
  match s with
  | EmptyString => false
  | String c' s' => (Ascii.eqb c' c || contains c s')%bool
  end.

End Str.

(* ================================================================= *)
(** ** Python values *)

(** The values the guards of the package are applied to. *)
Inductive pyval : Type :=
| PyNone
| PyBool (b : bool)
| PyInt (z : Z)
| PyFloat (f : spec_float)
| PyStr (s : string).

(** What a raw schema is made of: keys and labels are [str] or [int]
    (the annotation of [is_int] is [str | int]). *)
Inductive atom : Type :=
| AStr (s : string)
| AInt (z : Z).

Definition atom_val (a : atom) : pyval :=
  match a with
  | AStr s => PyStr s
  | AInt z => PyInt z
  end.

(** [str(a)], also the interpolation of [a] in an f-string. *)
Definition py_str (a : atom) : string :=
  match a with
  | AStr s => s
  | AInt z => Str.of_int z
  end.

(** [int(f)] on a float truncates towards zero. *)
Definition float_to_int (f : spec_float) : result Z :=
  match f with
  | S754_zero _ => Ok 0
  | S754_infinity _ => Raise (OverflowError "cannot convert float infinity to integer")
  | S754_nan => Raise (ValueError "cannot convert float NaN to integer")
  | S754_finite s m e =>
    let a := if 0 <=? e then Z.shiftl (Zpos m) e else Z.shiftr (Zpos m) (- e) in
    Ok (if s then - a else a)
  end.

(** The builtin [int(v)]. *)
Definition py_int (v : pyval) : result Z :=
  match v with
  | PyNone =>
    Raise (TypeError "int() argument must be a string, a bytes-like object or a real number, not 'NoneType'")
  | PyBool b => Ok (if b then 1 else 0)
  | PyInt z => Ok z
  | PyFloat f => float_to_int f
  | PyStr s =>
    match Str.to_int s with
    | Some z => Ok z
    | None => Raise (ValueError "invalid literal for int() with base 10")
    end
  end.

(** The builtin [len(v)]; of the values above only [str] has a length. *)
Definition py_len (v : pyval) : result Z :=
  match v with
  | PyStr s => Ok (Str.len s)
  | _ => Raise (TypeError "object has no len()")
  end.

(** Short-circuit [and], [or], and [not] on conditions that may raise. *)
Definition py_and (a b : result bool) : result bool :=
  let* x := a in if x then b else Ok false.

Definition py_or (a b : result bool) : result bool :=
  let* x := a in if x then Ok true else b.

Definition py_not (a : result bool) : result bool :=
  let* x := a in Ok (negb x).

(** [v.lower()]; only [str] has the method. *)
Definition py_lower (v : pyval) : result string :=
  match v with
  | PyStr s => Ok (Str.lower s)
  | _ => Raise (AttributeError "object has no attribute 'lower'")
  end.

(** [list(range(a, b))] *)
Definition py_range (a b : Z) : list Z :=
  map (fun i => a + Z.of_nat i) (seq 0 (Z.to_nat (b - a))).

(** [l[-1]] *)
Definition py_last {A} (l : list A) : result A :=
  match List.rev l with
  | x :: _ => Ok x
  | [] => Raise (IndexError "list index out of range")
  end.

Definition empty_sequence : exn := ValueError "min() iterable argument is empty".

(** The builtins [min] and [max] on a list of integers. *)
Definition py_min (l : list Z) : result Z :=
  match l with
  | [] => Raise empty_sequence
  | x :: l' => Ok (fold_left Z.min l' x)
  end.

Definition py_max (l : list Z) : result Z :=
  match l with
  | [] => Raise empty_sequence
  | x :: l' => Ok (fold_left Z.max l' x)
  end.

(** [a << n]: a negative count raises. *)
Definition py_lshift (a n : Z) : result Z :=
  if n <? 0 then Raise (ValueError "negative shift count") else Ok (Z.shiftl a n).

(** [[x for x in l if test(x)]] with a test that may raise. *)
Fixpoint filter_m {A} (test : A -> result bool) (l : list A) : result (list A) :=
  match l with
  | [] => Ok []
  | x :: l' =>
    let* keep := test x in
    let* rest := filter_m test l' in
    Ok (if keep then x :: rest else rest)
  end.

(** Monadic [map], for comprehensions whose element expression may raise. *)
Fixpoint map_m {A B} (f : A -> result B) (l : list A) : result (list B) :=
  match l with
  | [] => Ok []
  | x :: l' => let* y := f x in let* ys := map_m f l' in Ok (y :: ys)
  end.

(* ================================================================= *)
(** ** Dictionaries and membership *)

(** Python's [==] on the keys of a dict and the elements of a list. *)
Class KeyEq (K : Type) : Type := { keqb : K -> K -> bool }.

(** [keqb] decides equality. *)
Class KeyEqLaws (K : Type) `{KeyEq K} : Prop := {
  keqb_eq : forall a b : K, keqb a b = true <-> a = b
}.

#[export] Instance KeyEq_string : KeyEq string := {| keqb := String.eqb |}.

#[export] Instance KeyEq_Z : KeyEq Z := {| keqb := Z.eqb |}.

Definition atom_eqb (a b : atom) : bool :=
  match a, b with
  | AStr s, AStr t => String.eqb s t
  | AInt x, AInt y => Z.eqb x y
  | _, _ => false
  end.

#[export] Instance KeyEq_atom : KeyEq atom := {| keqb := atom_eqb |}.

Section Dict.
Context {K V : Type} `{KeyEq K}.

(** [d.get(k)] *)
Fixpoint dict_get (k : K) (d : list (K * V)) : option V :=
  match d with
  | [] => None
  | (k', v) :: d' => if keqb k k' then Some v else dict_get k d'
  end.

(** [d[k] = v]: an existing key keeps its place, a new one goes last. *)
Fixpoint dict_set (k : K) (v : V) (d : list (K * V)) : list (K * V) :=
  match d with
  | [] => [(k, v)]
  | (k', v') :: d' =>
    if keqb k k' then (k', v) :: d' else (k', v') :: dict_set k v d'
  end.

(** [k in d] *)
Definition dict_mem (k : K) (d : list (K * V)) : bool :=
  match dict_get k d with Some _ => true | None => false end.

(** [d.update(d')] *)
Definition dict_update (d d' : list (K * V)) : list (K * V) :=
  fold_left (fun acc kv => dict_set (fst kv) (snd kv) acc) d' d.

(** [len(d)] *)
Definition dict_len (d : list (K * V)) : Z := Z.of_nat (List.length d).

(** [x in l] for a list [l] *)
Definition list_mem (x : K) (l : list K) : bool := existsb (keqb x) l.

(** [{k: v for ...}] from the pairs the comprehension produces, in order. *)
Definition dict_of_items (items : list (K * V)) : list (K * V) :=
  dict_update [] items.

End Dict.

(* ================================================================= *)
(** ** helpers.py *)

Module helpers.

Definition BANNED_BAND_CHAR : list ascii :=
  list_ascii_of_string ".*?[]{}+$^+()|".

(** [format_bandname]: the comprehension makes one replacement per banned
    character, each of them on [name] itself; the result is element [0] of
    that list.  [replacement] defaults to ["_"]. *)
Definition format_bandname (name replacement : string) : result string :=
  match map (fun char => Str.replace char replacement name) BANNED_BAND_CHAR with
  | first :: _ => Ok first
  | [] => Raise (IndexError "list index out of range")
  end.

(** [is_int]: only [ValueError] is caught, any other exception of
    [int()] escapes. *)
Definition is_int (value : pyval) : result bool :=
  match py_int value with
  | Ok _ => Ok true
  | Raise (ValueError _) => Ok false
  | Raise e => Raise e
  end.

(** [is_str]: [not is_int(value) and len(value) > 0] *)
Definition is_str (value : pyval) : result bool :=
  py_and (py_not (is_int value))
         (let* n := py_len value in Ok (0 <? n)).

Definition bad_format : exn :=
  ValueError "Bad format for '{bit}'. Use 'start-end-catname'".

Definition start_after_end : exn :=
  ValueError "In bit {bit}, start bit must be less than or equal to end bit.".

Definition format_bit_key (bit : atom) : result string :=
  let parts := Str.split "-" (Some 2%nat) (py_str bit) in
  let* parts :=
    match parts with
    | [_] => Raise bad_format
    | [p0; p1] =>
      let* c := py_and (is_int (PyStr p0)) (is_str (PyStr p1)) in
      if c then Ok [p0; p0; p1] else Raise bad_format
    | _ => Ok parts
    end in
  let* _ :=
    match parts with
    | [p0; p1; _] =>
      let* c := py_and (is_int (PyStr p0))
                 (py_and (is_int (PyStr p1)) (Ok (Str.gtb p0 p1))) in
      raise_if c start_after_end
      (let* c' := py_or (py_not (is_int (PyStr p0)))
                        (py_not (is_int (PyStr p1))) in
       raise_if c' bad_format (Ok tt))
    | _ => Ok tt
    end in
  Ok (Str.join "-" parts).

(** The value of a raw schema entry: a [str], a [dict], or anything else. *)
Inductive info : Type :=
| info_str (s : string)
| info_dict (d : list (atom * atom))
| info_other.

(** A canonical schema: [{"start-end-name": {"key": "label"}}]. *)
Definition value_dict : Type := list (string * string).
Definition schema : Type := list (string * value_dict).

Definition position_not_int : exn :=
  ValueError "Bit position '{pos}' must be an integer.".

Definition value_not_str : exn :=
  ValueError "Bit value '{val}' must be a non-empty string.".

Definition value_bad_type : exn :=
  ValueError "Bit value must be a string or a dict, found {type(value)}.".

Definition format_bit_value_body (formatted_value : value_dict)
           (item : atom * atom) : result value_dict :=
  let '(pos, val) := item in
  let* i := is_int (atom_val pos) in
  raise_if (negb i) position_not_int
  (let* s := is_str (atom_val val) in
   raise_if (negb s) value_not_str
   (let* n := py_int (atom_val pos) in
    (* [val] passed [is_str], it is a [str] and [py_str val] is [val] *)
    Ok (dict_set (Str.of_int n) (py_str val) formatted_value))).

Definition format_bit_value (value : info) : result value_dict :=
  match value with
  | info_str s => Ok [("1", s)]
  | info_dict d => for_each format_bit_value_body d []
  | info_other => Raise value_bad_type
  end.

Definition info_bad_type : exn :=
  ValueError "Bit value must be a string or a dict, found {type(info)}.".

Definition no_positive_value : exn :=
  ValueError "For single bit the positive value must be set. Found: {info}".

Definition duplicated_name : exn :=
  ValueError "Bits information cannot contain duplicated names. '{catname}' is duplicated.".

Definition too_many_values : exn :=
  ValueError "Number of values in bit '{bit}' exceeds the number of bits ({nbits}).".

Definition position_out_of_range : exn :=
  ValueError "One or more positions in bit '{bit}' are out of range for the number of bits ({nbits}).".

Definition unpack_not_enough : exn :=
  ValueError "not enough values to unpack".

Definition unpack_too_many : exn :=
  ValueError "too many values to unpack".

(** The rewriting of a key that is a bare position (lines 104-116). *)
Definition expand_single_bit (bit : atom) (i : info) : result atom :=
  match Str.split "-" (Some 2%nat) (py_str bit) with
  | [p0] =>
    let* single := is_int (PyStr p0) in
    if single then
      match i with
      | info_dict d =>
        if dict_len d <=? 2 then
          let bit_1 := match dict_get (AStr "1") d with
                       | Some v => Some v
                       | None => dict_get (AInt 1) d
                       end in
          match bit_1 with
          | None => Raise no_positive_value
          | Some b => Ok (AStr (p0 ++ "-" ++ p0 ++ "-" ++ py_str b))
          end
        else Raise no_positive_value
      | info_str label => Ok (AStr (p0 ++ "-" ++ p0 ++ "-" ++ label))
      | info_other => Raise no_positive_value
      end
    else Ok bit
  | _ => Ok bit
  end.

(** One iteration of the loop of [format_bits_info]; the state is
    [(final_bit_info, classes)]. *)
Definition format_bits_info_body (st : schema * list string)
           (item : atom * info) : result (schema * list string) :=
  let '(final_bit_info, classes) := st in
  let '(bit, i) := item in
  let* bit := expand_single_bit bit i in
  let* bit := format_bit_key bit in
  match Str.split "-" (Some 2%nat) bit with
  | [start; end_; catname] =>
    let* start := py_int (PyStr start) in
    let* end_ := py_int (PyStr end_) in
    let nbits := end_ - start + 1 in
    raise_if (nbits <? 1) start_after_end
    (raise_if (list_mem catname classes) duplicated_name
     (let classes := (classes ++ [catname])%list in
      raise_if (match i with info_other => true | _ => false end) info_bad_type
      (let* formatted_info := format_bit_value i in
       raise_if (dict_len formatted_info >? 2 ^ nbits) too_many_values
       (let* positions := map_m (fun pos => py_int (PyStr pos))
                                (map fst formatted_info) in
        raise_if (existsb (fun pos => pos >=? 2 ^ nbits) positions)
                 position_out_of_range
        (Ok (dict_set bit formatted_info final_bit_info, classes))))))
  | _ => Raise unpack_not_enough
  end.

Definition format_bits_info (bits_info : list (atom * info)) : result schema :=
  let* st := for_each format_bits_info_body bits_info ([], []) in
  Ok (fst st).

Definition decode_key_missing : exn :=
  AttributeError "module 'eebit.helpers' has no attribute 'decode_key'".

(** [helpers.decode_key(key)], as [BitHandler.all_bits] writes it:
    [helpers.py] defines no [decode_key], so looking the name up on the
    module raises [AttributeError] before anything is called. *)
Definition decode_key (key : string) : result (list Z) := Raise decode_key_missing.

End helpers.

(* ================================================================= *)
(** ** The engine's lazy image handle

    The adapter methods never compute on pixels: each call on an
    [ee.Image] returns a new node of an expression graph.  A Python [int]
    passed where the engine expects an image is promoted to [constant]. *)

Module ee.

#[warnings="-register-all"]
Inductive Image : Type :=
| source (id : string)
| constant (value : Z)
| select (img : Image) (band : atom)
| add (a b : Image)
| rightShift (a b : Image)
| leftShift (a b : Image)
| bitwiseAnd (a b : Image)
| bitwiseXor (a b : Image)
| eq (a b : Image)
| rename (img : Image) (name : string)
| fromList (images : list Image).

(** What the engine computes at a pixel for an expression with one band,
    [x] being the value of the selected band of the source at that pixel:
    the arithmetic of the node, [1] and [0] for a comparison; [None] for
    an image of several bands. *)
Fixpoint pixel (img : Image) (x : Z) : option Z :=
  let binary (f : Z -> Z -> Z) (a b : Image) : option Z :=
    match pixel a x, pixel b x with
    | Some u, Some v => Some (f u v)
    | _, _ => None
    end in
  match img with
  | source _ => Some x
  | constant value => Some value
  | select img' _ => pixel img' x
  | add a b => binary Z.add a b
  | rightShift a b => binary Z.shiftr a b
  | leftShift a b => binary Z.shiftl a b
  | bitwiseAnd a b => binary Z.land a b
  | bitwiseXor a b => binary Z.lxor a b
  | eq a b => binary (fun u v => if u =? v then 1 else 0) a b
  | rename img' _ => pixel img' x
  | fromList _ => None
  end.

(** The engine's lazy number handle, [ee.Number]: a Python [int] passed to
    one of its methods is promoted to [number]. *)
Inductive Number : Type :=
| number_source (id : string)
| number (value : Z)
| number_rightShift (a b : Number)
| number_bitwiseAnd (a b : Number)
| number_eq (a b : Number).

(** What the engine computes for a number expression, [x] being the value
    of its source; a comparison gives [1] or [0]. *)
Fixpoint number_value (n : Number) (x : Z) : Z :=
  match n with
  | number_source _ => x
  | number value => value
  | number_rightShift a b => Z.shiftr (number_value a x) (number_value b x)
  | number_bitwiseAnd a b => Z.land (number_value a x) (number_value b x)
  | number_eq a b => if number_value a x =? number_value b x then 1 else 0
  end.

End ee.

(* ================================================================= *)
(** ** bitmask.py *)

Module BitGroup.

Record t : Type := {
  description : string;
  min_position : Z;
  max_position : Z;
  n_values : Z;
  value_map : list (Z * string);
  _reverse_value_map : list (string * Z)
}.

Definition positions_not_int : exn := TypeError "Bit positions must be integers.".
Definition positions_negative : exn := ValueError "Bit positions must be non-negative.".
Definition min_after_max : exn :=
  ValueError "Minimum position must be less than or equal to maximum position.".
Definition key_duplicated : exn :=
  ValueError "Bit position '{k}' is duplicated in the value map.".
Definition key_out_of_range : exn :=
  ValueError "Bit position '{k}' is out of range for the bit group ({self.n_values} values).".
Definition value_map_empty : exn := ValueError "Value map cannot be empty.".
Definition single_bit_without_1 : exn :=
  ValueError "For single bit groups, the value map must contain a value for bit 1.".

(** The body of the validation loop of [__init__] (lines 137-149). *)
Definition init_body (n_values : Z) (_value_map : list (Z * string))
           (item : pyval * pyval) : result (list (Z * string)) :=
  let '(k, v) := item in
  let* i := helpers.is_int k in
  raise_if (negb i) helpers.position_not_int
  (let* s := helpers.is_str v in
   raise_if (negb s) helpers.value_not_str
   (let* k_int := py_int k in
    raise_if (dict_mem k_int _value_map) key_duplicated
    (raise_if ((k_int <? 0) || (k_int >=? n_values))%bool key_out_of_range
     (let* low := py_lower v in
      Ok (dict_set k_int low _value_map))))).

(** [BitGroup.__init__] *)
Definition init (description : string) (min_position max_position : pyval)
           (value_map : list (pyval * pyval)) : result t :=
  let description := Str.lower description in
  let* c := py_or (py_not (helpers.is_int min_position))
                  (py_not (helpers.is_int max_position)) in
  raise_if c positions_not_int
  (let* min_position := py_int min_position in
   let* max_position := py_int max_position in
   raise_if ((min_position <? 0) || (max_position <? 0))%bool positions_negative
   (raise_if (min_position >? max_position) min_after_max
    (let n_values := 2 ^ (max_position - min_position + 1) in
     let* _value_map := for_each (init_body n_values) value_map [] in
     raise_if (dict_len _value_map =? 0) value_map_empty
     (raise_if ((min_position =? max_position) && (dict_len _value_map =? 1)
                && negb (dict_mem 1 _value_map))%bool single_bit_without_1
      (Ok {| description := description;
             min_position := min_position;
             max_position := max_position;
             n_values := n_values;
             value_map := _value_map;
             _reverse_value_map :=
               dict_of_items (map (fun kv => (snd kv, fst kv)) _value_map) |}))))).

(** [to_dict] *)
Definition to_dict (self : t) : helpers.schema :=
  let key := Str.of_int (min_position self) ++ "-"
             ++ Str.of_int (max_position self) ++ "-" ++ description self in
  let value := dict_of_items
                 (map (fun kv => (Str.of_int (fst kv), snd kv)) (value_map self)) in
  [(key, value)].

Definition value_not_found : exn :=
  ValueError "Key for value '{value}' not found in the value map '{self.value_map}'.".

Definition _get_key_for_bit_value (self : t) (value : string) : result Z :=
  match dict_get value (_reverse_value_map self) with
  | None => Raise value_not_found
  | Some key => Ok key
  end.

(** [group_mask]; [<<] raises on a negative count, which the
    constructor excludes ([min_position <= max_position]). *)
Definition group_mask (self : t) : Z :=
  let num_bits := max_position self - min_position self + 1 in
  Z.shiftl 1 num_bits - 1.

(** [decode_value]: [None] is Python's [None]. *)
Definition decode_value (self : t) (value : Z) : option string :=
  let group_value := Z.land (Z.shiftr value (min_position self)) (group_mask self) in
  dict_get group_value (value_map self).

Definition key_not_int : exn := TypeError "Bit key must be an integer.".
Definition key_not_in_map : exn :=
  ValueError "Bit key '{key}' is out of range for the bit group ({self.n_values} values).".

(** [is_positive_by_key] *)
Definition is_positive_by_key (self : t) (value : Z) (key : pyval) : result bool :=
  let* i := helpers.is_int key in
  raise_if (negb i) key_not_int
  (let* key := py_int key in
   raise_if (negb (dict_mem key (value_map self))) key_not_in_map
   (let actual_group_value :=
      Z.land (Z.shiftr value (min_position self)) (group_mask self) in
    Ok (actual_group_value =? key))).

Definition BAND_NAME_PATTERN (description value : string) : string :=
  description ++ " - " ++ value.

(** The field of the group in [image]: the locals [shifted] and [bit] of
    [get_mask_by_bit_value]. *)
Definition group_field (self : t) (image : ee.Image) : ee.Image :=
  let shifted := ee.rightShift image (ee.constant (min_position self)) in
  ee.bitwiseAnd shifted (ee.constant (group_mask self)).

(** [get_mask_by_bit_value] *)
Definition get_mask_by_bit_value (self : t) (image : ee.Image) (value : string)
  : result ee.Image :=
  let* key := _get_key_for_bit_value self value in
  let bit := group_field self image in
  let bname := BAND_NAME_PATTERN (description self) value in
  Ok (ee.rename (ee.eq bit (ee.constant key)) bname).

(** [get_masks] *)
Definition get_masks (self : t) (image : ee.Image) : result ee.Image :=
  let* masks := for_each
    (fun masks kv =>
       let* mask := get_mask_by_bit_value self image (snd kv) in
       Ok (masks ++ [mask])%list)
    (value_map self) [] in
  Ok (ee.fromList masks).

Definition not_one_entry : exn := ValueError "Bit info must contain exactly one entry.".

(** [from_dict] *)
Definition from_dict (bit_info : helpers.schema) : result t :=
  match bit_info with
  | [(key, value)] =>
    match Str.split "-" (Some 2%nat) key with
    | [start; end_; description] =>
      let* start := py_int (PyStr start) in
      let* end_ := py_int (PyStr end_) in
      let* items := map_m (fun kv => let* k := py_int (PyStr (fst kv)) in
                                     Ok (k, snd kv)) value in
      init description (PyInt start) (PyInt end_)
           (map (fun kv => (PyInt (fst kv), PyStr (snd kv))) (dict_of_items items))
    | _ => Raise helpers.unpack_not_enough
    end
  | _ => Raise not_one_entry
  end.

Definition key_not_found : exn :=
  ValueError "Key '{key}' not found in the value map '{self.value_map}'.".

(** [_get_value_for_bit_key] *)
Definition _get_value_for_bit_key (self : t) (key : Z) : result string :=
  match dict_get key (value_map self) with
  | None => Raise key_not_found
  | Some value => Ok value
  end.

(** [is_positive_by_key_gee]: the guards of [is_positive_by_key], then the
    expression on the engine's number. *)
Definition is_positive_by_key_gee (self : t) (value : ee.Number) (key : pyval)
  : result ee.Number :=
  let* i := helpers.is_int key in
  raise_if (negb i) key_not_int
  (let* key := py_int key in
   raise_if (negb (dict_mem key (value_map self))) key_not_in_map
   (let actual_group_value :=
      ee.number_bitwiseAnd
        (ee.number_rightShift value (ee.number (min_position self)))
        (ee.number (group_mask self)) in
    Ok (ee.number_eq actual_group_value (ee.number key)))).

(** [is_positive_by_description] *)
Definition is_positive_by_description (self : t) (value : Z) (description : string)
  : result bool :=
  let* expected_group_value := _get_key_for_bit_value self description in
  is_positive_by_key self value (PyInt expected_group_value).

(** [is_positive_by_description_gee] *)
Definition is_positive_by_description_gee (self : t) (value : ee.Number)
           (description : string) : result ee.Number :=
  let* expected_group_value := _get_key_for_bit_value self description in
  is_positive_by_key_gee self value (PyInt expected_group_value).

Definition both_given : exn :=
  ValueError "Only one of key or description should be provided.".
Definition none_given : exn :=
  ValueError "Either key or description must be provided.".

(** [is_positive]; [key = PyNone] and [description = None] are the
    defaults [None]. *)
Definition is_positive (self : t) (value : Z) (key : pyval)
           (description : option string) : result bool :=
  match key, description with
  | PyNone, None => Raise none_given
  | PyNone, Some d => is_positive_by_description self value d
  | _, Some _ => Raise both_given
  | _, None => is_positive_by_key self value key
  end.

(** [bit_values]; the only failure is the [KeyError] of
    [self.value_map[1]] or [self.value_map[0]], which is [None] here. *)
Definition bit_values (self : t) : option (list string) :=
  if min_position self =? max_position self then
    if dict_len (value_map self) =? 1 then Some [description self]
    else
      match dict_get 1 (value_map self) with
      | None => None
      | Some v1 =>
        match dict_get 0 (value_map self) with
        | None => None
        | Some v0 =>
          if String.eqb (description self) v1
          then Some [description self; v0]
          else Some [v0; description self]
        end
      end
  else
    Some (map (fun kv => BAND_NAME_PATTERN (description self) (snd kv))
              (value_map self)).

Definition position_not_int : exn := TypeError "Bit position must be an integer.".

(** [get_mask_by_position] *)
Definition get_mask_by_position (self : t) (image : ee.Image) (position : pyval)
  : result ee.Image :=
  let* i := helpers.is_int position in
  raise_if (negb i) position_not_int
  (let* position := py_int position in
   let decoded := group_field self image in
   let* value := _get_value_for_bit_key self position in
   let bname := BAND_NAME_PATTERN (description self) value in
   Ok (ee.rename (ee.eq decoded (ee.constant position)) bname)).

End BitGroup.

Module Bit.

Record t : Type := {
  position : Z;
  positive : string;
  negative : string
}.

Definition position_not_int : exn := TypeError "Bit position must be an integer.".

(** [Bit.__init__]; [negative or f"no {positive}"] takes the default for
    [None] and for the empty string. *)
Definition init (position : pyval) (positive : string) (negative : option string)
  : result t :=
  let* i := helpers.is_int position in
  if i then
    let* p := py_int position in
    Ok {| position := p;
          positive := positive;
          negative := match negative with
                      | Some (String c n) => String c n
                      | _ => "no " ++ positive
                      end |}
  else Raise position_not_int.

(** [min_value]: [1 << self.position] *)
Definition min_value (self : t) : result Z := py_lshift 1 (position self).

(** [max_value]: [(1 << (self.position + 1)) - 1] *)
Definition max_value (self : t) : result Z :=
  let* m := py_lshift 1 (position self + 1) in Ok (m - 1).

Definition value_not_int : exn := TypeError "Value must be an integer.".

(** [isinstance(value, int)] holds for [int] and for [bool]; the integer
    that the value is. *)
Definition as_int (value : pyval) : result Z :=
  match value with
  | PyInt z => Ok z
  | PyBool b => Ok (if b then 1 else 0)
  | _ => Raise value_not_int
  end.

(** [is_positive] *)
Definition is_positive (self : t) (value : pyval) : result bool :=
  let* v := as_int value in
  let* m := min_value self in
  Ok (negb (Z.land v m =? 0)).

(** [is_negative] *)
Definition is_negative (self : t) (value : pyval) : result bool :=
  let* v := as_int value in
  let* m := min_value self in
  Ok (Z.land v m =? 0).

(** [positive_values]; [n_bits = None] is the default, the position.
    The bound [1 << n_bits + 1] is [1 << (n_bits + 1)]. *)
Definition positive_values (self : t) (n_bits : option Z) : result (list Z) :=
  let n_bits := match n_bits with None => position self | Some n => n end in
  let* lo := min_value self in
  let* hi := py_lshift 1 (n_bits + 1) in
  filter_m (fun n => is_positive self (PyInt n)) (py_range lo hi).

(** [negative_values] *)
Definition negative_values (self : t) (n_bits : option Z) : result (list Z) :=
  let n_bits := match n_bits with None => position self | Some n => n end in
  let* hi := py_lshift 1 (n_bits + 1) in
  filter_m (fun n => is_negative self (PyInt n)) (py_range 0 hi).

(** The property [value_map] *)
Definition value_map (self : t) : list (string * string) :=
  [("0", negative self); ("1", positive self)].

(** [to_bit_group] *)
Definition to_bit_group (self : t) (description : string) : result BitGroup.t :=
  BitGroup.init description (PyInt (position self)) (PyInt (position self))
                [(PyInt 0, PyStr (negative self)); (PyInt 1, PyStr (positive self))].

End Bit.

Module BitMask.

Record t : Type := {
  bits : list BitGroup.t;
  total : Z
}.

(** What the list handed to [BitMask(...)] may hold: the constructor
    tells the three cases apart with [isinstance]. *)
Inductive element : Type :=
| a_bit (b : Bit.t)
| a_group (g : BitGroup.t)
| other.

Definition not_bit_or_group : exn := TypeError "Bits must be a list of Bit or BitGroup.".
Definition description_duplicated : exn :=
  ValueError "Bit description '{group.description}' is duplicated in the bitmask.".
Definition position_duplicated : exn :=
  ValueError "Bit position {pos} is duplicated in the bitmask.".

(** First loop of [__init__] (lines 476-485); the state is
    [(_bits, _descriptions)]. *)
Definition collect_body (st : list BitGroup.t * list string) (bit : element)
  : result (list BitGroup.t * list string) :=
  let '(_bits, _descriptions) := st in
  let* group :=
    match bit with
    | a_bit b => Bit.to_bit_group b (Bit.positive b)
    | a_group g => Ok g
    | other => Raise not_bit_or_group
    end in
  raise_if (list_mem (BitGroup.description group) _descriptions) description_duplicated
  (Ok ((_bits ++ [group])%list, (_descriptions ++ [BitGroup.description group])%list)).

(** Second loop (lines 487-493): the positions claimed so far. *)
Definition claim_position (all_positions : list Z) (pos : Z) : result (list Z) :=
  raise_if (list_mem pos all_positions) position_duplicated
  (Ok (all_positions ++ [pos])%list).

Definition claim_group (all_positions : list Z) (group : BitGroup.t)
  : result (list Z) :=
  let positions := py_range (BitGroup.min_position group)
                            (BitGroup.max_position group + 1) in
  for_each claim_position positions all_positions.

(** [BitMask.__init__]; [total or ...] takes the default for [None] and
    for [0]. *)
Definition init (bits : list element) (total : option Z) : result t :=
  let* st := for_each collect_body bits ([], []) in
  let _bits := fst st in
  let* _ := for_each claim_group _bits [] in
  let* total :=
    match total with
    | Some n => if n =? 0
                then let* g := py_last _bits in Ok (BitGroup.max_position g + 1)
                else Ok n
    | None => let* g := py_last _bits in Ok (BitGroup.max_position g + 1)
    end in
  Ok {| bits := _bits; total := total |}.

(** [to_dict] *)
Definition to_dict (self : t) : helpers.schema :=
  fold_left (fun final group => dict_update final (BitGroup.to_dict group))
            (bits self) [].

(** The body of the loop of [from_dict] (lines 509-517). *)
Definition from_dict_body (groups : list BitGroup.t)
           (item : string * helpers.value_dict) : result (list BitGroup.t) :=
  let '(key, value) := item in
  match Str.split "-" (Some 2%nat) key with
  | [start; end_; description] =>
    let* start := py_int (PyStr start) in
    let* end_ := py_int (PyStr end_) in
    let* items := map_m (fun kv => let* k := py_int (PyStr (fst kv)) in
                                   Ok (k, snd kv)) value in
    let* group := BitGroup.init description (PyInt start) (PyInt end_)
                    (map (fun kv => (PyInt (fst kv), PyStr (snd kv)))
                         (dict_of_items items)) in
    Ok (groups ++ [group])%list
  | _ => Raise helpers.unpack_not_enough
  end.

(** [from_dict] *)
Definition from_dict (bits_info : list (atom * helpers.info)) : result t :=
  let* formatted := helpers.format_bits_info bits_info in
  let* groups := for_each from_dict_body formatted [] in
  init (map a_group groups) None.

(** [decode_value] *)
Definition decode_value (self : t) (value : Z) : list (string * option string) :=
  fold_left (fun decoded group =>
               dict_set (BitGroup.description group)
                        (BitGroup.decode_value group value) decoded)
            (bits self) [].

(** [get_masks] *)
Definition get_masks (self : t) (image : ee.Image) : result ee.Image :=
  let* masks := for_each
    (fun masks group =>
       let* group_masks := BitGroup.get_masks group image in
       Ok (masks ++ [group_masks])%list)
    (bits self) [] in
  Ok (ee.fromList masks).

Definition description_not_found : exn :=
  ValueError "Description '{description}' not found in the bitmask.".

(** [get_group_by_description] *)
Definition get_group_by_description (self : t) (description : string)
  : result BitGroup.t :=
  match filter (fun bit => String.eqb (BitGroup.description bit) description)
               (bits self) with
  | [] => Raise description_not_found
  | first :: _ => Ok first
  end.

(** [bit_values]; [None] is the [KeyError] of a group's [bit_values]. *)
Definition bit_values (self : t) : option (list string) :=
  fold_left (fun values group =>
               match values, BitGroup.bit_values group with
               | Some vs, Some l => Some (vs ++ l)%list
               | _, _ => None
               end)
            (bits self) (Some []).

End BitMask.

(* ================================================================= *)
(** ** bithandler.py *)

Module BitHandler.

Record t : Type := {
  bits : helpers.schema;
  _all_bits : option (list Z);
  bit_length : Z
}.

Definition bit_duplicated : exn := ValueError "bit {bit} is duplicated!".

Definition all_bits_bit (allbits : list Z) (bit : Z) : result (list Z) :=
  raise_if (list_mem bit allbits) bit_duplicated (Ok (allbits ++ [bit])%list).

Definition all_bits_key (allbits : list Z) (key : string) : result (list Z) :=
  let* decoded := helpers.decode_key key in
  for_each all_bits_bit decoded allbits.

(** The property [all_bits] on the attributes it reads and writes: the
    schema and the cache [_all_bits].  It returns the list and the cache
    after the call. *)
Definition all_bits_cached (bits : helpers.schema) (cache : option (list Z))
  : result (list Z * option (list Z)) :=
  match cache with
  | None =>
    let* allbits := for_each all_bits_key (map fst bits) [] in
    Ok (allbits, Some allbits)
  | Some allbits => Ok (allbits, Some allbits)
  end.

Definition all_bits (self : t) : result (list Z * t) :=
  let* r := all_bits_cached (bits self) (_all_bits self) in
  Ok (fst r, {| bits := bits self; _all_bits := snd r; bit_length := bit_length self |}).

(** [BitHandler.__init__]; [not bit_length] holds for [None] and for [0]. *)
Definition init (bits : list (atom * helpers.info)) (bit_length : option Z)
  : result t :=
  let* bits := helpers.format_bits_info bits in
  let cache : option (list Z) := None in
  let inferred :=
    let* r1 := all_bits_cached bits cache in
    let* lo := py_min (fst r1) in
    let* r2 := all_bits_cached bits (snd r1) in
    let* hi := py_max (fst r2) in
    Ok (Z.of_nat (List.length (py_range lo (hi + 1))), snd r2) in
  match bit_length with
  | Some n =>
    if n =? 0
    then let* r := inferred in
         Ok {| bits := bits; _all_bits := snd r; bit_length := fst r |}
    else Ok {| bits := bits; _all_bits := cache; bit_length := n |}
  | None =>
    let* r := inferred in
    Ok {| bits := bits; _all_bits := snd r; bit_length := fst r |}
  end.

(** The local [decoded] of [decode_image] for the integers [start] and
    [end] read from a key. *)
Definition decoded_field (to_decode : ee.Image) (start end_ : Z) : ee.Image :=
  let start := ee.constant start in
  let end_ := ee.add (ee.constant end_) (ee.constant 1) in
  ee.rightShift
    (ee.bitwiseXor (ee.leftShift (ee.rightShift to_decode end_) end_) to_decode)
    start.

(** The body of the outer loop of [decode_image] (lines 74-82):
    [start, end = positions.split("-")] unpacks into exactly two names. *)
Definition decode_image_body (to_decode : ee.Image) (masks : list ee.Image)
           (item : string * helpers.value_dict) : result (list ee.Image) :=
  let '(positions, values) := item in
  match Str.split "-" None positions with
  | [start; end_] =>
    let* start := py_int (PyStr start) in
    let* end_ := py_int (PyStr end_) in
    let decoded := decoded_field to_decode start end_ in
    for_each
      (fun masks kv =>
         let* position := py_int (PyStr (fst kv)) in
         let mask := ee.rename (ee.eq (ee.constant position) decoded) (snd kv) in
         Ok (masks ++ [mask])%list)
      values masks
  | [] | [_] => Raise helpers.unpack_not_enough
  | _ => Raise helpers.unpack_too_many
  end.

(** [decode_image] *)
Definition decode_image (self : t) (image : ee.Image) (band : atom)
  : result ee.Image :=
  let to_decode := ee.select image band in
  let* masks := for_each (decode_image_body to_decode) (bits self) [] in
  Ok (ee.fromList masks).

End BitHandler.

(* ================================================================= *)
(** * Vocabulary of the specification and sample objects *)


Definition cloud_levels : list (pyval * pyval) :=
  [(PyInt 0, PyStr "no clouds"); (PyInt 1, PyStr "low clouds");
   (PyInt 2, PyStr "medium clouds"); (PyInt 3, PyStr "high clouds")].

Definition cloud_levels_group : BitGroup.t :=
  {| BitGroup.description := "cloud levels";
     BitGroup.min_position := 1;
     BitGroup.max_position := 2;
     BitGroup.n_values := 4;
     BitGroup.value_map :=
       [(0, "no clouds"); (1, "low clouds"); (2, "medium clouds"); (3, "high clouds")];
     BitGroup._reverse_value_map :=
       [("no clouds", 0); ("low clouds", 1); ("medium clouds", 2); ("high clouds", 3)] |}.

(** The spec's kinds of errors, at the raise sites that stand for them. *)
Module SpecError.

Definition UnknownKeyError : exn := BitGroup.key_not_in_map.
Definition TypeConstraintError_key : exn := BitGroup.key_not_int.
Definition OverlappingBitsError : exn := BitMask.position_duplicated.
Definition DuplicateLabelError_description : exn := BitMask.description_duplicated.
Definition DuplicateLabelError_bit : exn := BitHandler.bit_duplicated.

End SpecError.

(** The float that the literal [2.9] denotes:
    [6530219459687219 * 2^-51]. *)
Definition float_2_9 : spec_float := S754_finite false 6530219459687219 (-51).

(** The positions a group claims: [range(min_position, max_position + 1)]. *)
Definition claimed (g : BitGroup.t) : list Z :=
  py_range (BitGroup.min_position g) (BitGroup.max_position g + 1).

(** The positions an element of the list given to [BitMask] claims. *)
Definition element_claimed (x : BitMask.element) : list Z :=
  match x with
  | BitMask.a_bit b => [Bit.position b]
  | BitMask.a_group g => claimed g
  | BitMask.other => []
  end.

(** [g] is the group that [BitMask.__init__] keeps for the element [x]. *)
Definition promotes (x : BitMask.element) (g : BitGroup.t) : Prop :=
  match x with
  | BitMask.a_bit b => Bit.to_bit_group b (Bit.positive b) = Ok g
  | BitMask.a_group g' => g' = g
  | BitMask.other => False
  end.

(** Two elements of the list claim a common position. *)
Definition overlapping (bits : list BitMask.element) : Prop :=
  exists l1 x l2 y l3 p,
    bits = (l1 ++ x :: l2 ++ y :: l3)%list
    /\ In p (element_claimed x) /\ In p (element_claimed y).

(** The spec's [total]: the highest position claimed by any group, plus 1. *)
Definition highest_claimed_plus_1 (groups : list BitGroup.t) : result Z :=
  let* hi := py_max (flat_map claimed groups) in Ok (hi + 1).

Definition bit_water : Bit.t :=
  {| Bit.position := 5; Bit.positive := "water"; Bit.negative := "no water" |}.

Definition bit_cloud : Bit.t :=
  {| Bit.position := 3; Bit.positive := "cloud"; Bit.negative := "no cloud" |}.

Definition bit_snow : Bit.t :=
  {| Bit.position := 2; Bit.positive := "snow"; Bit.negative := "no snow" |}.

(** A key of a canonical schema: ["start-end-name"] with integers
    [start <= end]. *)
Definition canonical_key (key : string) (start end_ : Z) (name : string) : Prop :=
  exists a b,
    Str.split "-" (Some 2%nat) key = [a; b; name]
    /\ py_int (PyStr a) = Ok start /\ py_int (PyStr b) = Ok end_
    /\ start <= end_.

Definition has_canonical_key (key : string) : Prop :=
  exists start end_ name, canonical_key key start end_ name.

(** The fixture [l89_qa_bits] of [tests/conftest.py]. *)
Definition l89_qa_bits : list (atom * helpers.info) :=
  [ (AStr "3-3-Cloud", helpers.info_str "Cloud");
    (AStr "4-4-Cloud Shadow", helpers.info_str "Cloud Shadow");
    (AStr "5-5-Snow", helpers.info_str "Snow");
    (AStr "7-7-Water", helpers.info_str "Water");
    (AStr "8-9-Cloud Confidence",
     helpers.info_dict [ (AStr "1", AStr "Clouds Low Prob");
                         (AStr "2", AStr "Clouds Medium Prob");
                         (AStr "3", AStr "Clouds High Prob") ]);
    (AStr "10-11-Shadow Confidence",
     helpers.info_dict [ (AStr "1", AStr "Shadow Low Prob");
                         (AStr "2", AStr "Shadow Medium Prob");
                         (AStr "3", AStr "Shadow High Prob") ]) ].

(** A canonical schema handed to the package as a raw schema: every key
    and label is a [str], every value a [dict]. *)
Definition raw_of_value (v : helpers.value_dict) : list (atom * atom) :=
  map (fun pl => (AStr (fst pl), AStr (snd pl))) v.

Definition raw_of_schema (s : helpers.schema) : list (atom * helpers.info) :=
  map (fun kv => (AStr (fst kv), helpers.info_dict (raw_of_value (snd kv)))) s.

(** A numeral in the form [str] prints it: [str(int(s)) == s]. *)
Definition printed_int (s : string) : Prop :=
  exists n, py_int (PyStr s) = Ok n /\ Str.of_int n = s.

(** An entry whose start, end and value keys are printed integers and
    whose name and labels are in lower case. *)
Definition lower_case_entry (kv : string * helpers.value_dict) : Prop :=
  (exists a b name,
      Str.split "-" (Some 2%nat) (fst kv) = [a; b; name]
      /\ printed_int a /\ printed_int b /\ Str.lower name = name)
  /\ Forall (fun pl => printed_int (fst pl) /\ Str.lower (snd pl) = snd pl) (snd kv).

(** A Python [dict] has no key twice. *)
Definition is_dict {V} (d : list (string * V)) : Prop := NoDup (map fst d).

(** The schema of [tests/test_bitmask.py] for the masks of a group, with
    two of its values. *)
Definition cloud_schema : list (atom * helpers.info) :=
  [(AStr "8-9-Cloud", helpers.info_dict [(AStr "1", AStr "Low"); (AStr "2", AStr "Medium")])].

Definition qa_pixel : ee.Image := ee.select (ee.source "image") (AStr "QA_PIXEL").

Definition lower_case_schema : helpers.schema :=
  [ ("3-3-cloud", [("1", "cloud")]);
    ("8-9-cloud confidence", [("1", "low"); ("2", "medium"); ("3", "high")]) ].

Definition mixed_case_schema : helpers.schema :=
  [ ("3-3-Cloud", [("1", "Cloud")]) ].

Definition padded_schema : helpers.schema :=
  [ ("03-03-cloud", [("01", "cloud")]) ].

(** The schemas of [TestBitMask]. *)
Definition clouds_value : helpers.info :=
  helpers.info_dict [ (AStr "0", AStr "no clouds"); (AStr "1", AStr "low clouds");
                      (AStr "2", AStr "medium clouds"); (AStr "3", AStr "high clouds") ].

Definition TEST_BITS_OK : list (atom * helpers.info) :=
  [ (AStr "1", helpers.info_str "shadow"); (AStr "2-3-Clouds", clouds_value);
    (AStr "4-Snow", helpers.info_str "snow"); (AStr "5-Water", helpers.info_str "water") ].

Definition TEST_BITS_FAIL : list (atom * helpers.info) :=
  [ (AStr "1", helpers.info_str "shadow"); (AStr "2-3-Clouds", clouds_value);
    (AStr "3-Snow", helpers.info_str "snow"); (AStr "5-Water", helpers.info_str "water") ].

Definition TEST_BITS_FAIL2 : list (atom * helpers.info) :=
  [ (AStr "1", helpers.info_str "shadow");
    (AStr "2-Clouds", helpers.info_dict [(AStr "0", AStr "no clouds")]) ].

Definition TEST_BITS_FAIL3 : list (atom * helpers.info) :=
  [ (AStr "1", helpers.info_str "shadow"); (AStr "2-3-Clouds", helpers.info_dict []) ].

Definition TEST_BITS_FAIL4 : list (atom * helpers.info) :=
  [ (AStr "1", helpers.info_str "shadow");
    (AStr "2-3-Clouds",
     helpers.info_dict [ (AStr "1", AStr "low clouds"); (AStr "2", AStr "medium clouds");
                         (AStr "4", AStr "high clouds") ]) ].

(** The expansion of a canonical key: the positions [start, ..., end]. *)
Definition expands_to (key : string) (expansion : list Z) : Prop :=
  exists start end_ name,
    canonical_key key start end_ name /\ expansion = py_range start (end_ + 1).

(** Two entries that both claim position 3. *)
Definition overlapping_schema : list (atom * helpers.info) :=
  [ (AStr "2-3-clouds", helpers.info_dict [(AStr "1", AStr "low")]);
    (AStr "3-4-snow", helpers.info_dict [(AStr "1", AStr "snow")]) ].

(** The name in a key ["start-end-name"]. *)
Definition entry_name (key : string) : string :=
  match Str.split "-" (Some 2%nat) key with
  | [_; _; name] => name
  | _ => EmptyString
  end.

(** A value dict as normalization leaves it for a group of [nbits] bits:
    a dict of at most [2^nbits] entries whose keys are printed integers
    below [2^nbits]. *)
Definition normalized_value (nbits : Z) (v : helpers.value_dict) : Prop :=
  is_dict v
  /\ dict_len v <= 2 ^ nbits
  /\ Forall (fun pl => exists n, fst pl = Str.of_int n /\ n < 2 ^ nbits) v.

(** An entry as normalization leaves it. *)
Definition normalized_entry (kv : string * helpers.value_dict) : Prop :=
  exists start end_ name,
    canonical_key (fst kv) start end_ name
    /\ normalized_value (end_ - start + 1) (snd kv)
    /\ helpers.format_bit_key (AStr (fst kv)) = Ok (fst kv).

(** Every label is a non-empty string that [int()] does not read. *)
Definition valid_labels (v : helpers.value_dict) : Prop :=
  Forall (fun pl => helpers.is_str (PyStr (snd pl)) = Ok true) v.

(** A label as the constructor of BitGroup keeps it: a non-empty string
    that is not an integer, in lower case. *)
Definition kept_label (l : string) : Prop :=
  helpers.is_str (PyStr l) = Ok true /\ Str.lower l = l.

(** [g] comes out of [BitGroup.__init__]. *)
Definition constructed (g : BitGroup.t) : Prop :=
  exists d mn mx vm, BitGroup.init d mn mx vm = Ok g.

(** The entry of a group in the dict of its mask: what [to_dict] prints
    for a group whose keys are pairwise distinct. *)
Definition group_entry (g : BitGroup.t) : string * helpers.value_dict :=
  (Str.of_int (BitGroup.min_position g) ++ "-"
   ++ Str.of_int (BitGroup.max_position g) ++ "-" ++ BitGroup.description g,
   map (fun kv => (Str.of_int (fst kv), snd kv)) (BitGroup.value_map g)).

(** The printed positions of a group pass the comparison of
    [format_bit_key], which compares them as strings. *)
Definition positions_in_string_order (g : BitGroup.t) : Prop :=
  Str.gtb (Str.of_int (BitGroup.min_position g))
          (Str.of_int (BitGroup.max_position g)) = false.

(** A group over the positions 9 and 10. *)
Definition haze_levels_group : BitGroup.t :=
  {| BitGroup.description := "haze";
     BitGroup.min_position := 9;
     BitGroup.max_position := 10;
     BitGroup.n_values := 4;
     BitGroup.value_map := [(0, "none"); (1, "thin"); (2, "thick")];
     BitGroup._reverse_value_map := [("none", 0); ("thin", 1); ("thick", 2)] |}.

(* ================================================================= *)
(** * Checks on concrete inputs: the cases of the test suite *)

Example split_maxsplit :
  Str.split "-" (Some 2%nat) "8-9-Cloud - Confidence" = ["8"; "9"; "Cloud - Confidence"].
Proof. reflexivity. Qed.

Example split_unbounded :
  Str.split "-" None "8-9-a-b" = ["8"; "9"; "a"; "b"].
Proof. reflexivity. Qed.

Example to_int_examples :
  Str.to_int " +1_0 " = Some 10 /\ Str.to_int "-7" = Some (-7) /\
  Str.to_int EmptyString = None /\ Str.to_int "1__0" = None /\
  Str.to_int "2.9" = None /\ Str.to_int "03" = Some 3.
Proof. repeat split; reflexivity. Qed.

Example of_int_examples :
  Str.of_int 0 = "0" /\ Str.of_int 10 = "10" /\ Str.of_int (-3) = "-3".
Proof. repeat split; reflexivity. Qed.

Example gtb_is_lexicographic : Str.gtb "2" "10" = true /\ Str.gtb "10" "2" = false.
Proof. split; reflexivity. Qed.

(** The cases of [tests/test_helpers.py]. *)
Example format_bit_key_valid :
  helpers.format_bit_key (AStr "1-classname") = Ok "1-1-classname".
Proof. reflexivity. Qed.

Example format_bit_key_invalid :
  forallb (fun k => negb (is_ok (helpers.format_bit_key (AStr k))))
          ["a"; "a-1"; "1-1"; "2-1-classname"; "1_"; "-1"; "1-"; EmptyString] = true.
Proof. reflexivity. Qed.

Example format_bits_info_valid :
  helpers.format_bits_info
    [(AStr "2-classname", helpers.info_dict [(AStr "1", AStr "cat1")])]
  = Ok [("2-2-classname", [("1", "cat1")])]
  /\ helpers.format_bits_info
    [(AStr "3-4-classname",
      helpers.info_dict [(AInt 0, AStr "cat1"); (AInt 1, AStr "cat2");
                         (AInt 2, AStr "cat3"); (AInt 3, AStr "cat4")])]
  = Ok [("3-4-classname", [("0", "cat1"); ("1", "cat2"); ("2", "cat3"); ("3", "cat4")])].
Proof. split; reflexivity. Qed.

Example format_bits_info_invalid :
  forallb (fun b => negb (is_ok (helpers.format_bits_info b)))
    [ [(AStr "1-1-classname", helpers.info_dict [(AStr "0", AStr "cat1"); (AStr "2", AStr "cat2")])];
      [(AStr "1-1-classname", helpers.info_dict [(AStr "cat0", AInt 0); (AStr "cat1", AInt 1)])];
      [(AStr "1-1-classname", helpers.info_dict [(AStr "0", AStr EmptyString); (AStr "1", AStr "cat2")])];
      [(AStr "1-1-classname", helpers.info_other)] ] = true.
Proof. reflexivity. Qed.

(** The cases of [tests/test_bitmask.py] that do not need the engine. *)
Example test_bit_min_max_value :
  exists b, Bit.init (PyInt 2) "water" (Some "land") = Ok b
            /\ Bit.min_value b = Ok 4 /\ Bit.max_value b = Ok 7.
Proof. eexists. repeat split. Qed.

Example test_bitgroup_decode_value :
  map (BitGroup.decode_value cloud_levels_group) [0; 2; 4; 6]
  = [Some "no clouds"; Some "low clouds"; Some "medium clouds"; Some "high clouds"].
Proof. reflexivity. Qed.

Example test_bitgroup_incomplete_decode_value :
  exists g, BitGroup.init "Cloud levels" (PyInt 1) (PyInt 2)
              [(PyInt 0, PyStr "no clouds"); (PyInt 2, PyStr "medium clouds")] = Ok g
            /\ map (BitGroup.decode_value g) [0; 2; 4; 6]
               = [Some "no clouds"; None; Some "medium clouds"; None].
Proof. eexists. split; reflexivity. Qed.

Example test_is_positive_by_key :
  map (fun vk => BitGroup.is_positive_by_key cloud_levels_group (fst vk) (snd vk))
      [(217, PyStr "0"); (216, PyInt 0); (218, PyStr "1"); (219, PyInt 1);
       (220, PyStr "2"); (221, PyInt 2); (222, PyStr "3"); (223, PyInt 3);
       (217, PyStr "1"); (216, PyInt 1); (217, PyStr "2"); (216, PyInt 3)]
  = [Ok true; Ok true; Ok true; Ok true; Ok true; Ok true; Ok true; Ok true;
     Ok false; Ok false; Ok false; Ok false].
Proof. reflexivity. Qed.

Example test_bitmask_initialization : is_ok (BitMask.from_dict TEST_BITS_OK) = true.
Proof. reflexivity. Qed.

Example test_bitmask_invalid :
  BitMask.from_dict TEST_BITS_FAIL = Raise BitMask.position_duplicated
  /\ BitMask.from_dict TEST_BITS_FAIL2 = Raise BitGroup.single_bit_without_1
  /\ BitMask.from_dict TEST_BITS_FAIL3 = Raise BitGroup.value_map_empty
  /\ BitMask.from_dict TEST_BITS_FAIL4 = Raise helpers.position_out_of_range.
Proof. repeat split; reflexivity. Qed.

Example bitgroup_from_dict_empty_value_map :
  BitGroup.from_dict [("1-1-x", [])] = Raise BitGroup.value_map_empty.
Proof. reflexivity. Qed.

(* ================================================================= *)
(** * Facts about the error monad, equality tests and dictionaries *)

Lemma bind_ok {A B} (r : result A) (k : A -> result B) (b : B) :
  bind r k = Ok b -> exists a, r = Ok a /\ k a = Ok b.
Proof. destruct r as [a|e]; simpl; intros E; [eauto | discriminate]. Qed.

Lemma raise_if_ok {A} (c : bool) (e : exn) (k : result A) (a : A) :
  raise_if c e k = Ok a -> c = false /\ k = Ok a.
Proof. destruct c; simpl; intros E; [discriminate | auto]. Qed.

(** Peel the binds and guards off a hypothesis [... = Ok _]. *)
Ltac inv_ok H :=
  let x := fresh "x" in
  let E := fresh "E" in
  match type of H with
  | bind _ _ = Ok _ =>
    apply bind_ok in H; destruct H as [x [E H]]; try inv_ok H
  | raise_if _ _ _ = Ok _ =>
    apply raise_if_ok in H; destruct H as [E H]; try inv_ok H
  | Ok _ = Ok _ => injection H as H
  end.

(** Turn the boolean tests of the source into propositions for [lia]. *)
Ltac to_prop :=
  repeat match goal with
  | H : (_ || _)%bool = false |- _ => apply orb_false_iff in H; destruct H
  | H : (_ && _)%bool = true |- _ => apply andb_true_iff in H; destruct H
  | H : negb _ = true |- _ => apply negb_true_iff in H
  | H : negb _ = false |- _ => apply negb_false_iff in H
  | H : (_ <? _) = true |- _ => apply Z.ltb_lt in H
  | H : (_ <? _) = false |- _ => apply Z.ltb_ge in H
  | H : (_ <=? _) = true |- _ => apply Z.leb_le in H
  | H : (_ <=? _) = false |- _ => apply Z.leb_gt in H
  | H : (_ >? _) = _ |- _ => rewrite Z.gtb_ltb in H
  | H : (_ >=? _) = _ |- _ => rewrite Z.geb_leb in H
  | H : (_ =? _) = true |- _ => apply Z.eqb_eq in H
  | H : (_ =? _) = false |- _ => apply Z.eqb_neq in H
  end.

#[export] Instance KeyEqLaws_string : KeyEqLaws string.
Proof. constructor. exact String.eqb_eq. Qed.

#[export] Instance KeyEqLaws_Z : KeyEqLaws Z.
Proof. constructor. exact Z.eqb_eq. Qed.

Lemma atom_eqb_eq : forall a b, atom_eqb a b = true <-> a = b.
Proof.
  intros [s|x] [t|y]; simpl; split; intros E; try discriminate.
  - apply String.eqb_eq in E. now subst.
  - inversion E. apply String.eqb_refl.
  - apply Z.eqb_eq in E. now subst.
  - inversion E. apply Z.eqb_refl.
Qed.

#[export] Instance KeyEqLaws_atom : KeyEqLaws atom.
Proof. constructor. exact atom_eqb_eq. Qed.

(** In a duplicate-free list the element after a prefix is not in the
    prefix; the same for the keys of a list of pairs. *)
Lemma NoDup_fresh {A} (acc l : list A) (x : A) :
  NoDup (acc ++ x :: l) -> ~ In x acc.
Proof.
  intros N I. apply NoDup_remove_2 in N. apply N. apply in_or_app. now left.
Qed.

Lemma NoDup_fresh_map {A B} (f : A -> B) (acc l : list A) (x : A) :
  NoDup (map f (acc ++ x :: l)) -> ~ In (f x) (map f acc).
Proof. rewrite map_app. simpl. apply NoDup_fresh. Qed.

Section DictFacts.
Context {K V : Type} `{KeyEqLaws K}.

Lemma keqb_refl (k : K) : keqb k k = true.
Proof. now apply keqb_eq. Qed.

Lemma keqb_neq (a b : K) : keqb a b = false <-> a <> b.
Proof.
  split.
  - intros E ->. rewrite keqb_refl in E. discriminate.
  - intros N. destruct (keqb a b) eqn:E; [|reflexivity].
    apply keqb_eq in E. contradiction.
Qed.

Lemma list_mem_In (x : K) (l : list K) : list_mem x l = true <-> In x l.
Proof.
  unfold list_mem. rewrite existsb_exists. split.
  - intros [y [Hy E]]. apply keqb_eq in E. now subst.
  - intros Hx. exists x. split; [assumption | apply keqb_refl].
Qed.

Lemma list_mem_not_In (x : K) (l : list K) : list_mem x l = false <-> ~ In x l.
Proof.
  rewrite <- list_mem_In. destruct (list_mem x l); split; intros; congruence.
Qed.

Lemma dict_get_In (k : K) (d : list (K * V)) :
  dict_get k d = None <-> ~ In k (map fst d).
Proof.
  induction d as [|[k' v] d IH]; simpl.
  - tauto.
  - destruct (keqb k k') eqn:E.
    + apply keqb_eq in E. subst. split; [discriminate | tauto].
    + apply keqb_neq in E. rewrite IH. split; [intros ? [?|?]|]; intuition congruence.
Qed.

Lemma dict_mem_In (k : K) (d : list (K * V)) :
  dict_mem k d = true <-> In k (map fst d).
Proof.
  unfold dict_mem. pose proof (dict_get_In k d) as G.
  destruct (dict_get k d).
  - split; [intros _|reflexivity].
    destruct (in_dec (fun a b => match keqb a b as c return keqb a b = c -> {a = b} + {a <> b}
                                 with
                                 | true => fun E => left (proj1 (keqb_eq a b) E)
                                 | false => fun E => right (proj1 (keqb_neq a b) E)
                                 end eq_refl) k (map fst d)) as [I|N];
      [assumption | apply G in N; discriminate].
  - split; [discriminate|]. intros I. exfalso. now apply (proj1 G).
Qed.

(** Writing a key that is not there appends the pair. *)
Lemma dict_set_fresh (k : K) (v : V) (d : list (K * V)) :
  ~ In k (map fst d) -> dict_set k v d = (d ++ [(k, v)])%list.
Proof.
  induction d as [|[k' v'] d IH]; simpl; intros N; [reflexivity|].
  destruct (keqb k k') eqn:E.
  - apply keqb_eq in E. subst. tauto.
  - rewrite IH; tauto.
Qed.

(** A comprehension over pairwise distinct keys is the list of its pairs. *)
Lemma dict_update_nodup (items d : list (K * V)) :
  NoDup (map fst (d ++ items)) -> dict_update d items = (d ++ items)%list.
Proof.
  revert d. unfold dict_update.
  induction items as [|[k v] items IH]; simpl; intros d N.
  - now rewrite app_nil_r.
  - assert (Hk : ~ In k (map fst d)).
    { exact (NoDup_fresh_map _ _ _ _ N). }
    rewrite (dict_set_fresh k v d Hk).
    replace (d ++ (k, v) :: items)%list with ((d ++ [(k, v)]) ++ items)%list
      by now rewrite <- app_assoc.
    apply IH. now rewrite <- app_assoc.
Qed.

Lemma dict_of_items_nodup (items : list (K * V)) :
  NoDup (map fst items) -> dict_of_items items = items.
Proof. intros N. unfold dict_of_items. now rewrite dict_update_nodup. Qed.

End DictFacts.

(** A loop that appends an element unless it is already there: it ends
    normally exactly on duplicate-free input.  Both [BitMask.__init__] and
    [BitHandler.all_bits] are built on this loop. *)
Section AppendUnlessPresent.
Context {K : Type} `{KeyEqLaws K}.
Variable body : list K -> K -> result (list K).
Variable dup : exn.
Hypothesis body_eq : forall acc x,
  body acc x = raise_if (list_mem x acc) dup (Ok (acc ++ [x])%list).

Lemma append_loop_ok (l acc : list K) :
  NoDup (acc ++ l) -> for_each body l acc = Ok (acc ++ l)%list.
Proof.
  revert acc. induction l as [|x l IH]; simpl; intros acc N.
  - now rewrite app_nil_r.
  - rewrite body_eq.
    assert (Hx : ~ In x acc).
    { exact (NoDup_fresh _ _ _ N). }
    apply list_mem_not_In in Hx. rewrite Hx. simpl.
    replace (acc ++ x :: l)%list with ((acc ++ [x]) ++ l)%list
      by now rewrite <- app_assoc.
    apply IH. now rewrite <- app_assoc.
Qed.

Lemma append_loop_dup (l acc : list K) :
  NoDup acc -> ~ NoDup (acc ++ l) -> for_each body l acc = Raise dup.
Proof.
  revert acc. induction l as [|x l IH]; simpl; intros acc Na N.
  - rewrite app_nil_r in N. contradiction.
  - rewrite body_eq. destruct (list_mem x acc) eqn:Hx; simpl; [reflexivity|].
    apply list_mem_not_In in Hx. apply IH.
    + apply NoDup_app; [assumption | repeat constructor; auto | ].
      intros a Ia [->|[]]. contradiction.
    + now rewrite <- app_assoc.
Qed.

Lemma append_loop_result (l acc r : list K) :
  NoDup acc -> for_each body l acc = Ok r -> r = (acc ++ l)%list /\ NoDup (acc ++ l).
Proof.
  intros Na E.
  destruct (ListDec.NoDup_dec
              (fun a b => match keqb a b as c return keqb a b = c -> {a = b} + {a <> b}
                          with
                          | true => fun E => left (proj1 (keqb_eq a b) E)
                          | false => fun E => right (proj1 (keqb_neq a b) E)
                          end eq_refl) (acc ++ l)) as [N|N].
  - rewrite (append_loop_ok l acc N) in E. injection E as <-. auto.
  - rewrite (append_loop_dup l acc Na N) in E. discriminate.
Qed.

End AppendUnlessPresent.

(* ================================================================= *)
(** * BitGroup: what the constructor establishes *)

Lemma is_int_of_py_int (v : pyval) (n : Z) :
  py_int v = Ok n -> helpers.is_int v = Ok true.
Proof. unfold helpers.is_int. now intros ->. Qed.

Lemma BitGroup_init_facts d mn mx vm g :
  BitGroup.init d mn mx vm = Ok g ->
  py_int mn = Ok (BitGroup.min_position g)
  /\ py_int mx = Ok (BitGroup.max_position g)
  /\ 0 <= BitGroup.min_position g <= BitGroup.max_position g
  /\ BitGroup.n_values g
     = 2 ^ (BitGroup.max_position g - BitGroup.min_position g + 1)
  /\ BitGroup.description g = Str.lower d
  /\ for_each (BitGroup.init_body (BitGroup.n_values g)) vm [] = Ok (BitGroup.value_map g).
Proof.
  unfold BitGroup.init. intros E. inv_ok E. subst g. simpl. to_prop.
  repeat split; try assumption; lia.
Qed.

Lemma group_mask_ones (g : BitGroup.t) :
  BitGroup.group_mask g
  = Z.ones (BitGroup.max_position g - BitGroup.min_position g + 1).
Proof. unfold BitGroup.group_mask. rewrite Z.ones_equiv, Z.shiftl_1_l. lia. Qed.


(** A key in the group's range is the field of the value that carries it
    at [min_position]. *)
Lemma group_value_shiftl d mn mx vm g (k : Z) :
  BitGroup.init d mn mx vm = Ok g ->
  0 <= k < BitGroup.n_values g ->
  Z.land (Z.shiftr (Z.shiftl k (BitGroup.min_position g)) (BitGroup.min_position g))
         (BitGroup.group_mask g) = k.
Proof.
  intros E Hk. destruct (BitGroup_init_facts _ _ _ _ _ E) as (_ & _ & R & N & _).
  rewrite Z.shiftr_shiftl_l, Z.sub_diag, Z.shiftl_0_r by lia.
  rewrite group_mask_ones, Z.land_ones by lia.
  apply Z.mod_small. lia.
Qed.

(* ================================================================= *)
(** * BitGroup, Bit and the integer guard *)


Lemma cloud_levels_init :
  BitGroup.init "Cloud levels" (PyInt 1) (PyInt 2) cloud_levels = Ok cloud_levels_group.
Proof. reflexivity. Qed.



(** C3 (amended). For every BitGroup [g], integer [v] and key [key]:
    when [int(key)] is [n] and [n] is a key of the value map,
    [is_positive_by_key] returns true iff
    [(v >> min_position) & group_mask == n]; when [is_int(key)] is false
    it fails with the [TypeError] "Bit key must be an integer."; when
    [int(key)] is [n] and [n] is not a key of the value map it fails with
    the [ValueError] of the unknown key. *)
Theorem C3_is_positive_by_key :
  forall (g : BitGroup.t) (v : Z) (key : pyval),
    (forall n, py_int key = Ok n ->
               dict_mem n (BitGroup.value_map g) = true ->
               exists b, BitGroup.is_positive_by_key g v key = Ok b
                         /\ (b = true <->
                             Z.land (Z.shiftr v (BitGroup.min_position g))
                                    (BitGroup.group_mask g) = n))
    /\ (helpers.is_int key = Ok false ->
        BitGroup.is_positive_by_key g v key = Raise SpecError.TypeConstraintError_key)
    /\ (forall n, py_int key = Ok n ->
                  dict_mem n (BitGroup.value_map g) = false ->
                  BitGroup.is_positive_by_key g v key = Raise SpecError.UnknownKeyError).
Proof.
  intros g v key. unfold BitGroup.is_positive_by_key. split; [|split].
  - intros n P M. rewrite (is_int_of_py_int _ _ P), P. simpl. rewrite M. simpl.
    eexists. split; [reflexivity|]. apply Z.eqb_eq.
  - intros ->. reflexivity.
  - intros n P M. rewrite (is_int_of_py_int _ _ P), P. simpl. now rewrite M.
Qed.

Lemma C3_witness :
  (exists b, BitGroup.is_positive_by_key cloud_levels_group 221 (PyStr "2") = Ok b
             /\ (b = true <-> Z.land (Z.shiftr 221 1) 3 = 2))
  /\ BitGroup.is_positive_by_key cloud_levels_group 221 (PyStr "two")
     = Raise (TypeError "Bit key must be an integer.")
  /\ BitGroup.is_positive_by_key cloud_levels_group 221 (PyInt 4)
     = Raise SpecError.UnknownKeyError.
Proof.
  split; [|split].
  - exact (proj1 (C3_is_positive_by_key cloud_levels_group 221 (PyStr "2"))
                 2 eq_refl eq_refl).
  - exact (proj1 (proj2 (C3_is_positive_by_key cloud_levels_group 221 (PyStr "two")))
                 eq_refl).
  - exact (proj2 (proj2 (C3_is_positive_by_key cloud_levels_group 221 (PyInt 4)))
                 4 eq_refl eq_refl).
Defined.

(** C3 as stated fails: a key that is not an integer does not give the
    error of the unknown key, it gives a [TypeError]. *)
Lemma C3_counterexample :
  helpers.is_int (PyStr "high clouds") = Ok false
  /\ BitGroup.is_positive_by_key cloud_levels_group 6 (PyStr "high clouds")
     = Raise (TypeError "Bit key must be an integer.")
  /\ BitGroup.is_positive_by_key cloud_levels_group 6 (PyStr "high clouds")
     <> Raise SpecError.UnknownKeyError.
Proof. repeat split. discriminate. Qed.

(** C10. [BitMask([])] without [total] raises [IndexError] at
    [self.bits[-1]]: none of the validation errors. *)
Theorem C10_empty_bitmask_index_error :
  BitMask.init [] None = Raise (IndexError "list index out of range").
Proof. reflexivity. Qed.

(** What [format_bit_key] does with a key of three parts whose first two
    are integers: it raises exactly when the start is the greater
    string. *)
Lemma format_bit_key_three_parts key a b name s e :
  Str.split "-" (Some 2%nat) key = [a; b; name] ->
  py_int (PyStr a) = Ok s -> py_int (PyStr b) = Ok e ->
  helpers.format_bit_key (AStr key)
  = if Str.gtb a b then Raise helpers.start_after_end
    else Ok (a ++ "-" ++ b ++ "-" ++ name)%string.
Proof.
  intros S Pa Pb. unfold helpers.format_bit_key. simpl py_str. rewrite S.
  cbn [bind]. rewrite (is_int_of_py_int _ _ Pa), (is_int_of_py_int _ _ Pb).
  simpl. destruct (Str.gtb a b); reflexivity.
Qed.

(** C4. The start and the end of a key are compared as strings. ["2-10-name"]
    has [int(start) = 2 <= 10 = int(end)] and is rejected, by
    [format_bit_key] and so by [format_bits_info], because ["2" > "10"];
    ["10-2-name"] passes [format_bit_key] and is rejected only by the
    numeric check of [format_bits_info]. *)
Theorem C4_start_end_compared_as_strings :
  py_int (PyStr "2") = Ok 2 /\ py_int (PyStr "10") = Ok 10
  /\ helpers.format_bit_key (AStr "2-10-name") = Raise helpers.start_after_end
  /\ helpers.format_bits_info
       [(AStr "2-10-name", helpers.info_dict [(AStr "1", AStr "label")])]
     = Raise helpers.start_after_end
  /\ helpers.format_bit_key (AStr "10-2-name") = Ok "10-2-name"
  /\ helpers.format_bits_info
       [(AStr "10-2-name", helpers.info_dict [(AStr "1", AStr "label")])]
     = Raise helpers.start_after_end
  /\ helpers.format_bits_info
       [(AStr "2-3-name", helpers.info_dict [(AStr "1", AStr "label")])]
     = Ok [("2-3-name", [("1", "label")])].
Proof. repeat split; reflexivity. Qed.

(* ================================================================= *)
(** * Loops, ranges and the builtins on lists *)

Lemma for_each_app {A S} (body : S -> A -> result S) (l1 l2 : list A) (s : S) :
  for_each body (l1 ++ l2) s = let* s' := for_each body l1 s in for_each body l2 s'.
Proof.
  revert s. induction l1 as [|x l1 IH]; simpl; intros s; [reflexivity|].
  destruct (body s x); simpl; [apply IH | reflexivity].
Qed.

(** A nested loop over [f x] for each [x] is one loop over the
    concatenation. *)
Lemma for_each_flat_map {A B S} (body : S -> B -> result S) (f : A -> list B)
      (l : list A) (s : S) :
  for_each (fun acc x => for_each body (f x) acc) l s
  = for_each body (flat_map f l) s.
Proof.
  revert s. induction l as [|x l IH]; simpl; intros s; [reflexivity|].
  rewrite for_each_app. destruct (for_each body (f x) s); simpl; [apply IH | reflexivity].
Qed.

Lemma In_py_range (a b p : Z) : In p (py_range a b) <-> a <= p < b.
Proof.
  unfold py_range. rewrite in_map_iff. split.
  - intros [i [<- I]]. apply in_seq in I. lia.
  - intros R. exists (Z.to_nat (p - a)). split; [lia|]. apply in_seq. lia.
Qed.

Lemma NoDup_py_range (a b : Z) : NoDup (py_range a b).
Proof.
  unfold py_range. apply NoDup_map_NoDup_ForallPairs; [|apply seq_NoDup]. intros i j _ _ E. lia.
Qed.

Lemma py_range_singleton (a : Z) : py_range a (a + 1) = [a].
Proof.
  unfold py_range. replace (a + 1 - a) with 1 by lia. simpl. now rewrite Z.add_0_r.
Qed.

Lemma py_range_length (a b : Z) :
  a <= b -> Z.of_nat (List.length (py_range a b)) = b - a.
Proof. intros L. unfold py_range. rewrite length_map, length_seq. lia. Qed.

Lemma py_last_snoc {A} (l : list A) (x : A) : py_last (l ++ [x]) = Ok x.
Proof. unfold py_last. now rewrite rev_unit. Qed.

Lemma py_last_ok {A} (l : list A) (x : A) :
  py_last l = Ok x -> exists l', l = (l' ++ [x])%list.
Proof.
  unfold py_last. destruct (List.rev l) as [|y r] eqn:R; [discriminate|].
  intros [= ->]. exists (List.rev r).
  rewrite <- (rev_involutive l), R. reflexivity.
Qed.

Lemma fold_left_max_spec (l : list Z) (a : Z) :
  let r := fold_left Z.max l a in
  In r (a :: l) /\ Forall (fun x => x <= r) (a :: l).
Proof.
  revert a. induction l as [|x l IH]; intros a; simpl.
  - split; [now left | repeat constructor; lia].
  - destruct (IH (Z.max a x)) as [I F]. simpl in I, F.
    inversion F as [|? ? Fa Fl]; subst. split.
    + destruct I as [I|I]; [|right; right; exact I].
      rewrite <- I.
      destruct (Z.max_spec a x) as [[_ M]|[_ M]]; rewrite M; auto.
    + constructor; [lia|]. constructor; [lia | assumption].
Qed.

Lemma fold_left_min_spec (l : list Z) (a : Z) :
  let r := fold_left Z.min l a in
  In r (a :: l) /\ Forall (fun x => r <= x) (a :: l).
Proof.
  revert a. induction l as [|x l IH]; intros a; simpl.
  - split; [now left | repeat constructor; lia].
  - destruct (IH (Z.min a x)) as [I F]. simpl in I, F.
    inversion F as [|? ? Fa Fl]; subst. split.
    + destruct I as [I|I]; [|right; right; exact I].
      rewrite <- I.
      destruct (Z.min_spec a x) as [[_ M]|[_ M]]; rewrite M; auto.
    + constructor; [lia|]. constructor; [lia | assumption].
Qed.

(** [max(l)] is the element of [l] that bounds the others. *)
Lemma py_max_unique (l : list Z) (hi : Z) :
  In hi l -> Forall (fun x => x <= hi) l -> py_max l = Ok hi.
Proof.
  destruct l as [|a l]; [intros []|]. intros I F. simpl. f_equal.
  destruct (fold_left_max_spec l a) as [I' F'].
  rewrite Forall_forall in F, F'. specialize (F _ I'). specialize (F' _ I). lia.
Qed.

Lemma NoDup_app_disjoint {A} (l1 l2 : list A) :
  NoDup (l1 ++ l2) -> forall a, In a l1 -> ~ In a l2.
Proof.
  induction l1 as [|x l1 IH]; simpl; intros N a I; [contradiction|].
  inversion N as [|? ? Nx N']; subst. destruct I as [->|I].
  - intros I2. apply Nx. apply in_or_app. now right.
  - now apply IH.
Qed.

(* ================================================================= *)
(** * BitMask: the two loops of the constructor *)

Lemma claim_groups_flat (gs : list BitGroup.t) (acc : list Z) :
  for_each BitMask.claim_group gs acc
  = for_each BitMask.claim_position (flat_map claimed gs) acc.
Proof. unfold BitMask.claim_group. apply for_each_flat_map. Qed.

Lemma promotes_claimed (x : BitMask.element) (g : BitGroup.t) :
  promotes x g -> element_claimed x = claimed g.
Proof.
  destruct x as [b|g'|]; simpl.
  - unfold Bit.to_bit_group. intros E.
    destruct (BitGroup_init_facts _ _ _ _ _ E) as (Pmin & Pmax & _).
    simpl in Pmin, Pmax. injection Pmin as Pmin. injection Pmax as Pmax.
    unfold claimed. rewrite <- Pmin, <- Pmax. now rewrite py_range_singleton.
  - now intros ->.
  - intros [].
Qed.

(** The first loop keeps, in order, the group of each element. *)
Lemma collect_spec (l : list BitMask.element) :
  forall gs ds gs' ds',
    for_each BitMask.collect_body l (gs, ds) = Ok (gs', ds') ->
    exists new, gs' = (gs ++ new)%list /\ Forall2 promotes l new
                /\ ds' = (ds ++ map BitGroup.description new)%list.
Proof.
  induction l as [|x l IH]; simpl; intros gs ds gs' ds' E.
  - injection E as <- <-. exists []. now rewrite !app_nil_r.
  - apply bind_ok in E. destruct E as [[gs1 ds1] [B E]].
    unfold BitMask.collect_body in B. apply bind_ok in B.
    destruct B as [g [P B]]. apply raise_if_ok in B. destruct B as [_ B].
    injection B as <- <-.
    destruct (IH _ _ _ _ E) as [new [-> [F ->]]].
    exists (g :: new). rewrite <- !app_assoc. simpl. repeat split.
    constructor; [|assumption].
    destruct x; simpl in *; [assumption | now injection P | discriminate].
Qed.

Lemma Forall2_promotes_claimed (l : list BitMask.element) (gs : list BitGroup.t) :
  Forall2 promotes l gs -> flat_map element_claimed l = flat_map claimed gs.
Proof.
  induction 1 as [|x g l gs P F IH]; simpl; [reflexivity|].
  now rewrite (promotes_claimed _ _ P), IH.
Qed.

(** Groups with pairwise distinct descriptions pass the first loop. *)
Lemma collect_groups_ok (gs : list BitGroup.t) :
  forall acc ds,
    ds = map BitGroup.description acc ->
    NoDup (map BitGroup.description (acc ++ gs)) ->
    for_each BitMask.collect_body (map BitMask.a_group gs) (acc, ds)
    = Ok ((acc ++ gs)%list, map BitGroup.description (acc ++ gs)).
Proof.
  induction gs as [|g gs IH]; simpl; intros acc ds -> N.
  - now rewrite app_nil_r.
  - assert (Hg : ~ In (BitGroup.description g) (map BitGroup.description acc)).
    { exact (NoDup_fresh_map _ _ _ _ N). }
    apply list_mem_not_In in Hg. rewrite Hg. simpl.
    replace (acc ++ g :: gs)%list with ((acc ++ [g]) ++ gs)%list
      by now rewrite <- app_assoc.
    apply IH.
    + now rewrite map_app.
    + now rewrite <- app_assoc.
Qed.

Lemma overlapping_not_NoDup (bits : list BitMask.element) :
  overlapping bits -> ~ NoDup (flat_map element_claimed bits).
Proof.
  intros (l1 & x & l2 & y & l3 & p & -> & Ix & Iy) N.
  rewrite flat_map_app in N. apply NoDup_app_remove_l in N.
  simpl in N. rewrite flat_map_app in N. simpl in N.
  apply (NoDup_app_disjoint _ _ N p Ix). apply in_or_app. right. apply in_or_app. now left.
Qed.

Lemma claim_position_eq : forall acc x,
  BitMask.claim_position acc x
  = raise_if (list_mem x acc) BitMask.position_duplicated (Ok (acc ++ [x])%list).
Proof. reflexivity. Qed.

(** When the first loop ends normally, a position claimed twice is met by
    the second loop. *)
Lemma init_overlap (bits : list BitMask.element) (total : option Z) st :
  for_each BitMask.collect_body bits ([], []) = Ok st ->
  ~ NoDup (flat_map element_claimed bits) ->
  BitMask.init bits total = Raise BitMask.position_duplicated.
Proof.
  intros E N. unfold BitMask.init. rewrite E. simpl.
  destruct st as [gs ds]. destruct (collect_spec _ _ _ _ _ E) as [new [-> [F _]]].
  simpl. rewrite claim_groups_flat, <- (Forall2_promotes_claimed _ _ F).
  rewrite (append_loop_dup _ _ claim_position_eq _ [] (NoDup_nil _) N).
  reflexivity.
Qed.

(** C5 (amended). Without an explicit [total], the [total] of a BitMask
    is [max_position + 1] of the group kept for the last element of the
    list; it is the highest claimed position plus 1 when no group reaches
    beyond the last one. *)
Theorem C5_total_is_last_group_max_plus_1 :
  forall (bits : list BitMask.element) (m : BitMask.t),
    BitMask.init bits None = Ok m ->
    exists x g,
      py_last bits = Ok x
      /\ py_last (BitMask.bits m) = Ok g
      /\ promotes x g
      /\ BitMask.total m = BitGroup.max_position g + 1
      /\ (BitGroup.min_position g <= BitGroup.max_position g ->
          (forall g', In g' (BitMask.bits m) ->
                      BitGroup.max_position g' <= BitGroup.max_position g) ->
          highest_claimed_plus_1 (BitMask.bits m) = Ok (BitMask.total m)).
Proof.
  intros bits m E. unfold BitMask.init in E.
  apply bind_ok in E. destruct E as [[gs ds] [C E]]. simpl in E.
  apply bind_ok in E. destruct E as [pos [_ E]].
  apply bind_ok in E. destruct E as [t [T E]]. injection E as <-. simpl.
  apply bind_ok in T. destruct T as [g [L T]]. injection T as <-.
  destruct (collect_spec _ _ _ _ _ C) as [new [-> [F _]]]. simpl in *.
  destruct (py_last_ok _ _ L) as [new' ->].
  apply Forall2_app_inv_r in F. destruct F as (l1 & l2 & _ & F2 & ->).
  inversion F2 as [|x g0 lx lg P Fnil]; subst. inversion Fnil; subst.
  exists x, g. repeat split; try assumption.
  - apply py_last_snoc.
  - intros W B. unfold highest_claimed_plus_1.
    rewrite (py_max_unique _ (BitGroup.max_position g)); [reflexivity | | ].
    + apply in_flat_map. exists g. split; [apply in_or_app; right; now left|].
      apply In_py_range. lia.
    + apply Forall_forall. intros p Ip. apply in_flat_map in Ip.
      destruct Ip as [g' [Ig' Ip]]. apply In_py_range in Ip.
      specialize (B _ Ig'). lia.
Qed.

Lemma C5_witness :
  exists x g,
    py_last [BitMask.a_bit bit_cloud; BitMask.a_bit bit_water] = Ok x
    /\ promotes x g
    /\ BitGroup.max_position g + 1 = 6.
Proof.
  destruct (C5_total_is_last_group_max_plus_1
              [BitMask.a_bit bit_cloud; BitMask.a_bit bit_water] _ eq_refl)
    as (x & g & L & _ & P & T & _).
  exists x, g. repeat split; [exact L | exact P | ].
  rewrite <- T. reflexivity.
Defined.

(** C5 as stated fails: with the higher bit first, [total] is 4 and the
    highest claimed position plus 1 is 6. *)
Lemma C5_counterexample :
  exists m, BitMask.init [BitMask.a_bit bit_water; BitMask.a_bit bit_cloud] None = Ok m
            /\ BitMask.total m = 4
            /\ highest_claimed_plus_1 (BitMask.bits m) = Ok 6
            /\ highest_claimed_plus_1 (BitMask.bits m) <> Ok (BitMask.total m).
Proof. eexists. repeat split. discriminate. Qed.

(** The first loop on elements that all give a group: it ends normally
    when the descriptions are pairwise distinct and raises the error of
    the duplicated description otherwise. *)
Lemma collect_promoted (l : list BitMask.element) (gs : list BitGroup.t) :
  Forall2 promotes l gs ->
  forall acc,
    (NoDup (map BitGroup.description (acc ++ gs)) ->
     for_each BitMask.collect_body l (acc, map BitGroup.description acc)
     = Ok ((acc ++ gs)%list, map BitGroup.description (acc ++ gs)))
    /\ (NoDup (map BitGroup.description acc) ->
        ~ NoDup (map BitGroup.description (acc ++ gs)) ->
        for_each BitMask.collect_body l (acc, map BitGroup.description acc)
        = Raise BitMask.description_duplicated).
Proof.
  induction 1 as [|x g l gs P F IH]; intros acc; cbn [for_each].
  - rewrite app_nil_r. split; [reflexivity | intros; contradiction].
  - assert (G : match x with
                | BitMask.a_bit b => Bit.to_bit_group b (Bit.positive b)
                | BitMask.a_group g' => Ok g'
                | BitMask.other => Raise BitMask.not_bit_or_group
                end = Ok g).
    { destruct x; simpl in P; [assumption | now subst | contradiction]. }
    unfold BitMask.collect_body at 1. unfold BitMask.collect_body at 2.
    rewrite G. cbn [bind].
    destruct (IH (acc ++ [g])%list) as [Iok Idup].
    assert (M : map BitGroup.description (acc ++ [g])
                = (map BitGroup.description acc ++ [BitGroup.description g])%list)
      by now rewrite map_app.
    assert (A : ((acc ++ [g]) ++ gs)%list = (acc ++ g :: gs)%list)
      by now rewrite <- app_assoc.
    rewrite A, M in Iok, Idup.
    split.
    + intros N.
      assert (Hg : ~ In (BitGroup.description g) (map BitGroup.description acc))
        by exact (NoDup_fresh_map _ _ _ _ N).
      apply list_mem_not_In in Hg. rewrite Hg. cbn [raise_if bind].
      now apply Iok.
    + intros Na N.
      destruct (list_mem (BitGroup.description g) (map BitGroup.description acc))
        eqn:Hg; cbn [raise_if bind]; [reflexivity|].
      apply list_mem_not_In in Hg. apply Idup; [|assumption].
      apply NoDup_app; [assumption | repeat constructor; auto |].
      intros a Ia [<-|[]]. contradiction.
Qed.

(** C6 (amended). When two elements of the list claim a common position,
    the construction of a BitMask fails for every permutation of the list.
    The error is the one of the duplicated position whenever the first
    loop of the constructor ends normally -- in particular for a list of
    BitGroups with pairwise distinct descriptions, and for any list whose
    elements all give a group, with pairwise distinct descriptions.  When
    the elements all give a group and two of the groups share a
    description, the error is the one of the duplicated description,
    which the first loop raises before the positions are looked at. *)
Theorem C6_overlap_fails_for_every_permutation :
  forall (bits bits' : list BitMask.element) (total : option Z),
    overlapping bits ->
    Permutation bits bits' ->
    (exists e, BitMask.init bits' total = Raise e)
    /\ (forall st, for_each BitMask.collect_body bits' ([], []) = Ok st ->
                   BitMask.init bits' total = Raise SpecError.OverlappingBitsError)
    /\ (forall gs, bits' = map BitMask.a_group gs ->
                   NoDup (map BitGroup.description gs) ->
                   BitMask.init bits' total = Raise SpecError.OverlappingBitsError)
    /\ (forall gs, Forall2 promotes bits' gs ->
                   NoDup (map BitGroup.description gs) ->
                   BitMask.init bits' total = Raise SpecError.OverlappingBitsError)
    /\ (forall gs, Forall2 promotes bits' gs ->
                   ~ NoDup (map BitGroup.description gs) ->
                   BitMask.init bits' total
                   = Raise SpecError.DuplicateLabelError_description).
Proof.
  intros bits bits' total O P.
  assert (N : ~ NoDup (flat_map element_claimed bits')).
  { intros N. apply (overlapping_not_NoDup _ O).
    apply (Permutation_NoDup (l := flat_map element_claimed bits')); [|assumption].
    apply Permutation_flat_map. now apply Permutation_sym. }
  split; [|split; [|split; [|split]]].
  - destruct (for_each BitMask.collect_body bits' ([], [])) as [st|e] eqn:E.
    + eexists. exact (init_overlap _ total _ E N).
    + exists e. unfold BitMask.init. now rewrite E.
  - intros st E. exact (init_overlap _ total _ E N).
  - intros gs -> D.
    exact (init_overlap _ total _ (collect_groups_ok gs [] [] eq_refl D) N).
  - intros gs F D.
    exact (init_overlap _ total _ (proj1 (collect_promoted _ _ F []) D) N).
  - intros gs F D. unfold BitMask.init.
    change (@nil string) with (map BitGroup.description []).
    now rewrite (proj2 (collect_promoted _ _ F []) (NoDup_nil _) D).
Qed.

Lemma C6_witness :
  BitMask.init [BitMask.a_bit bit_snow; BitMask.a_group cloud_levels_group] None
  = Raise SpecError.OverlappingBitsError.
Proof.
  refine (proj1 (proj2 (C6_overlap_fails_for_every_permutation
            [BitMask.a_group cloud_levels_group; BitMask.a_bit bit_snow]
            [BitMask.a_bit bit_snow; BitMask.a_group cloud_levels_group]
            None _ (perm_swap _ _ _))) _ eq_refl).
  exists [], (BitMask.a_group cloud_levels_group), [], (BitMask.a_bit bit_snow), [], 2.
  repeat split; simpl; auto.
Defined.

(** C6 as stated fails: two bits at the same position with the same label
    overlap, and the error is the one of the duplicated description. *)
Lemma C6_counterexample :
  overlapping [BitMask.a_bit bit_cloud; BitMask.a_bit bit_cloud]
  /\ BitMask.init [BitMask.a_bit bit_cloud; BitMask.a_bit bit_cloud] None
     = Raise SpecError.DuplicateLabelError_description
  /\ BitMask.init [BitMask.a_bit bit_cloud; BitMask.a_bit bit_cloud] None
     <> Raise SpecError.OverlappingBitsError.
Proof.
  split; [|split; [reflexivity | discriminate]].
  exists [], (BitMask.a_bit bit_cloud), [], (BitMask.a_bit bit_cloud), [], 3.
  repeat split; simpl; auto.
Qed.

(* ================================================================= *)
(** * The keys of a normalized schema *)

Lemma dict_set_keys {V} (k : string) (v : V) (d : list (string * V)) :
  forall k', In k' (map fst (dict_set k v d)) -> k' = k \/ In k' (map fst d).
Proof.
  induction d as [|[k0 v0] d IH]; simpl; intros k' I.
  - destruct I as [<-|[]]. now left.
  - destruct (String.eqb k k0); simpl in I.
    + now right.
    + destruct I as [<-|I]; [right; now left|].
      destruct (IH _ I); [now left | right; now right].
Qed.

Lemma format_bits_info_body_keys fb cl item fb' cl' :
  helpers.format_bits_info_body (fb, cl) item = Ok (fb', cl') ->
  Forall has_canonical_key (map fst fb) ->
  Forall has_canonical_key (map fst fb').
Proof.
  destruct item as [bit i]. unfold helpers.format_bits_info_body.
  intros E F. apply bind_ok in E. destruct E as [bit1 [_ E]].
  apply bind_ok in E. destruct E as [key [_ E]].
  destruct (Str.split "-" (Some 2%nat) key) as [|a [|b [|name [|? ?]]]] eqn:S;
    try discriminate.
  inv_ok E. subst fb' cl'.
  apply Forall_forall. intros k' I. apply dict_set_keys in I.
  destruct I as [->|I]; [|now apply (proj1 (Forall_forall _ _) F)].
  to_prop. do 3 eexists. exists a, b. repeat split; try eassumption. lia.
Qed.

Lemma format_bits_info_loop_keys (l : list (atom * helpers.info)) :
  forall fb cl st,
    for_each helpers.format_bits_info_body l (fb, cl) = Ok st ->
    Forall has_canonical_key (map fst fb) ->
    Forall has_canonical_key (map fst (fst st)).
Proof.
  induction l as [|item l IH]; simpl; intros fb cl st E F.
  - now injection E as <-.
  - apply bind_ok in E. destruct E as [[fb1 cl1] [B E]].
    apply (IH _ _ _ E). exact (format_bits_info_body_keys _ _ _ _ _ B F).
Qed.

(** Every key of the output of [format_bits_info] is canonical. *)
Lemma format_bits_info_keys raw bits :
  helpers.format_bits_info raw = Ok bits ->
  Forall has_canonical_key (map fst bits).
Proof.
  unfold helpers.format_bits_info. intros E.
  apply bind_ok in E. destruct E as [st [L E]]. injection E as <-.
  apply (format_bits_info_loop_keys _ _ _ _ L). constructor.
Qed.

(* ================================================================= *)
(** * BitHandler: [all_bits] and [bit_length] *)

Lemma py_min_le_py_max (l : list Z) (lo hi : Z) :
  py_min l = Ok lo -> py_max l = Ok hi -> lo <= hi.
Proof.
  destruct l as [|a l]; [discriminate|]. simpl. intros [= <-] [= <-].
  destruct (fold_left_min_spec l a) as [_ Fmin].
  destruct (fold_left_max_spec l a) as [_ Fmax].
  apply Forall_inv in Fmin. apply Forall_inv in Fmax. lia.
Qed.

(** The handler that the constructor returns: the normalized schema, and a
    cache that is empty or holds what [all_bits] computes. *)
Lemma BitHandler_init_facts raw bl h :
  BitHandler.init raw bl = Ok h ->
  helpers.format_bits_info raw = Ok (BitHandler.bits h)
  /\ (BitHandler._all_bits h = None
      \/ exists l, BitHandler._all_bits h = Some l
                   /\ BitHandler.all_bits_cached (BitHandler.bits h) None = Ok (l, Some l))
  /\ (bl = None ->
      exists l lo hi,
        BitHandler._all_bits h = Some l
        /\ py_min l = Ok lo /\ py_max l = Ok hi
        /\ BitHandler.bit_length h = hi - lo + 1).
Proof.
  unfold BitHandler.init. intros E. apply bind_ok in E.
  destruct E as [bits [F E]].
  assert (I : forall r,
    (let* r1 := BitHandler.all_bits_cached bits None in
     let* lo := py_min (fst r1) in
     let* r2 := BitHandler.all_bits_cached bits (snd r1) in
     let* hi := py_max (fst r2) in
     Ok (Z.of_nat (List.length (py_range lo (hi + 1))), snd r2)) = Ok r ->
    exists l lo hi,
      BitHandler.all_bits_cached bits None = Ok (l, Some l)
      /\ py_min l = Ok lo /\ py_max l = Ok hi
      /\ r = (hi - lo + 1, Some l)).
  { intros r R. apply bind_ok in R. destruct R as [[l c] [A R]].
    assert (c = Some l) as ->.
    { unfold BitHandler.all_bits_cached in A. apply bind_ok in A.
      destruct A as [l' [_ A]]. now injection A as <- <-. }
    simpl in R. apply bind_ok in R. destruct R as [lo [Lo R]].
    apply bind_ok in R. destruct R as [hi [Hi R]]. injection R as <-.
    exists l, lo, hi. repeat split; try assumption.
    rewrite py_range_length by (pose proof (py_min_le_py_max _ _ _ Lo Hi); lia).
    f_equal. lia. }
  assert (J : forall r,
    (let* r1 := BitHandler.all_bits_cached bits None in
     let* lo := py_min (fst r1) in
     let* r2 := BitHandler.all_bits_cached bits (snd r1) in
     let* hi := py_max (fst r2) in
     Ok (Z.of_nat (List.length (py_range lo (hi + 1))), snd r2)) = Ok r ->
    h = {| BitHandler.bits := bits; BitHandler._all_bits := snd r;
           BitHandler.bit_length := fst r |} ->
    helpers.format_bits_info raw = Ok (BitHandler.bits h)
    /\ (BitHandler._all_bits h = None
        \/ exists l, BitHandler._all_bits h = Some l
             /\ BitHandler.all_bits_cached (BitHandler.bits h) None = Ok (l, Some l))
    /\ exists l lo hi,
         BitHandler._all_bits h = Some l
         /\ py_min l = Ok lo /\ py_max l = Ok hi
         /\ BitHandler.bit_length h = hi - lo + 1).
  { intros r R ->. destruct (I r R) as (l & lo & hi & A & Lo & Hi & ->). simpl.
    split; [assumption|]. split; [right; eauto|]. exists l, lo, hi. auto. }
  destruct bl as [n|].
  - destruct (n =? 0).
    + apply bind_ok in E. destruct E as [r [R E]]. injection E as <-.
      destruct (J r R eq_refl) as (? & ? & ?). repeat split; try assumption.
      discriminate.
    + injection E as <-. simpl. repeat split; [assumption | now left | discriminate].
  - apply bind_ok in E. destruct E as [r [R E]]. injection E as <-.
    destruct (J r R eq_refl) as (? & ? & ?). repeat split; try assumption.
    now intros _.
Qed.

(** Every canonical key has the expansion the specification speaks of. *)
Lemma expansions_exist (keys : list string) :
  Forall has_canonical_key keys -> exists exps, Forall2 expands_to keys exps.
Proof.
  induction 1 as [|k keys (s & e & name & C) _ (exps & F)].
  - exists []. constructor.
  - exists (py_range s (e + 1) :: exps). constructor; [|assumption].
    now exists s, e, name.
Qed.

(** The loop of [all_bits] stops at the first key. *)
Lemma all_bits_cached_raises (bits : helpers.schema) :
  bits <> [] ->
  BitHandler.all_bits_cached bits None = Raise helpers.decode_key_missing.
Proof. destruct bits as [|[k v] bits]; [contradiction | reflexivity]. Qed.

(** C1. [all_bits] cannot be computed on any schema that is not empty:
    it calls [helpers.decode_key] for each key, and [helpers.py] defines
    no [decode_key].  For every raw schema that [format_bits_info]
    normalizes to a non-empty schema [s]: every key of [s] has the
    expansion [start, ..., end] the claim speaks of; the constructor
    without a [bit_length] (or with 0) raises [AttributeError]; with a
    non-zero [bit_length] it returns a handler that holds [s], and
    [all_bits] of that handler raises [AttributeError] as well. *)
Theorem C1_all_bits_lacks_decode_key :
  forall (raw : list (atom * helpers.info)) (s : helpers.schema),
    helpers.format_bits_info raw = Ok s ->
    s <> [] ->
    (exists exps, Forall2 expands_to (map fst s) exps)
    /\ BitHandler.init raw None = Raise helpers.decode_key_missing
    /\ BitHandler.init raw (Some 0) = Raise helpers.decode_key_missing
    /\ (forall n, n <> 0 ->
          exists h, BitHandler.init raw (Some n) = Ok h
                    /\ BitHandler.bits h = s
                    /\ BitHandler.bit_length h = n
                    /\ BitHandler.all_bits h = Raise helpers.decode_key_missing).
Proof.
  intros raw s F NE. pose proof (all_bits_cached_raises s NE) as A.
  split; [exact (expansions_exist _ (format_bits_info_keys _ _ F))|].
  unfold BitHandler.init. rewrite F. cbn [bind]. rewrite A. cbn [bind].
  split; [reflexivity|]. split; [reflexivity|].
  intros n Nz. apply Z.eqb_neq in Nz. rewrite Nz.
  eexists. split; [reflexivity|]. cbn [BitHandler.bits BitHandler.bit_length].
  split; [reflexivity|]. split; [reflexivity|].
  unfold BitHandler.all_bits. cbn [BitHandler.bits BitHandler._all_bits].
  now rewrite A.
Qed.

(** [BitHandler(l89_qa_bits)], the call of [tests/test_handler.py]; and
    a schema with two entries on position 3, where the error is not the
    one of the duplicated bit. *)
Lemma C1_witness :
  BitHandler.init l89_qa_bits None = Raise helpers.decode_key_missing
  /\ (exists h, BitHandler.init overlapping_schema (Some 5) = Ok h
                /\ BitHandler.all_bits h = Raise helpers.decode_key_missing
                /\ BitHandler.all_bits h <> Raise SpecError.DuplicateLabelError_bit).
Proof.
  split.
  - refine (proj1 (proj2 (C1_all_bits_lacks_decode_key l89_qa_bits _ eq_refl _))).
    discriminate.
  - destruct (proj2 (proj2 (proj2 (C1_all_bits_lacks_decode_key
                                      overlapping_schema _ eq_refl
                                      ltac:(discriminate)))) 5 ltac:(lia))
      as (h & E & _ & _ & A).
    exists h. split; [exact E|]. split; [exact A|]. rewrite A. discriminate.
Defined.

(* ================================================================= *)
(** * [decode_image] against [get_masks] *)

Lemma split_nonempty (sep : ascii) (s : string) :
  forall m, Str.split sep m s <> [].
Proof.
  induction s as [|c s IH]; intros [[|n]|]; simpl; try discriminate;
    destruct (Ascii.eqb c sep); try discriminate;
    match goal with |- context [Str.split sep ?m s] =>
      specialize (IH m); destruct (Str.split sep m s); [contradiction | discriminate]
    end.
Qed.

(** Without [maxsplit] there are at least as many parts. *)
Lemma split_length_le (sep : ascii) (s : string) :
  forall n, (List.length (Str.split sep (Some n) s)
             <= List.length (Str.split sep None s))%nat.
Proof.
  induction s as [|c s IH]; intros [|n]; simpl; try lia.
  - destruct (Ascii.eqb c sep); simpl; [lia|].
    pose proof (split_nonempty sep s None) as N.
    destruct (Str.split sep None s); [contradiction | simpl; lia].
  - destruct (Ascii.eqb c sep); simpl.
    + pose proof (IH n). lia.
    + pose proof (split_nonempty sep s None) as N.
      pose proof (split_nonempty sep s (Some (S n))) as N'.
      specialize (IH (S n)).
      destruct (Str.split sep None s), (Str.split sep (Some (S n)) s);
        try contradiction; simpl in *; lia.
Qed.

(** [decode_image] unpacks [positions.split("-")] into two names; a
    canonical key has three parts or more, so the loop raises at its first
    entry, for every schema that is not empty. *)
Lemma decode_image_raises raw bl h image band :
  BitHandler.init raw bl = Ok h ->
  BitHandler.bits h <> [] ->
  BitHandler.decode_image h image band = Raise helpers.unpack_too_many.
Proof.
  intros E NE. destruct (BitHandler_init_facts _ _ _ E) as (F & _).
  apply format_bits_info_keys in F. unfold BitHandler.decode_image.
  destruct (BitHandler.bits h) as [|[k v] rest]; [contradiction|].
  simpl in *. apply Forall_inv in F.
  destruct F as (s & e & name & a & b & S & _).
  pose proof (split_length_le "-" k 2) as L. rewrite S in L. simpl in L.
  destruct (Str.split "-" None k) as [|p0 [|p1 [|p2 ps]]]; simpl in L; try lia.
  reflexivity.
Qed.

(** The two ways to cut a field out of a value agree. *)
Lemma xor_field_is_mask_field (v s e : Z) :
  0 <= s <= e ->
  Z.shiftr (Z.lxor (Z.shiftl (Z.shiftr v (e + 1)) (e + 1)) v) s
  = Z.land (Z.shiftr v s) (Z.ones (e - s + 1)).
Proof.
  intros R. apply Z.bits_inj'. intros n Hn.
  rewrite Z.shiftr_spec, Z.lxor_spec, Z.land_spec, Z.shiftr_spec by lia.
  rewrite Z.shiftl_spec by lia. rewrite Z.testbit_ones_nonneg by lia.
  destruct (Z.ltb_spec n (e - s + 1)) as [L|L].
  - rewrite Z.testbit_neg_r by lia. simpl. now rewrite andb_true_r.
  - rewrite Z.shiftr_spec by lia.
    replace (n + s - (e + 1) + (e + 1)) with (n + s) by lia.
    now rewrite xorb_nilpotent, andb_false_r.
Qed.

(** Past the unpacking, [decode_image] and [get_masks] compare the same
    field with the key: at every pixel the expression [decoded] built from
    the bounds of a group has the value of the expression that the group
    builds. *)
Lemma fields_agree d mn mx vm g (image : ee.Image) (x w : Z) :
  BitGroup.init d mn mx vm = Ok g ->
  ee.pixel image x = Some w ->
  ee.pixel (BitHandler.decoded_field image
              (BitGroup.min_position g) (BitGroup.max_position g)) x
  = ee.pixel (BitGroup.group_field g image) x.
Proof.
  intros E P. destruct (BitGroup_init_facts _ _ _ _ _ E) as (_ & _ & R & _).
  unfold BitHandler.decoded_field, BitGroup.group_field. simpl. rewrite P.
  rewrite group_mask_ones. f_equal. apply xor_field_is_mask_field. lia.
Qed.

(** C8. On the schema [{"8-9-Cloud": {"1": "Low", "2": "Medium"}}] both
    objects are built (the handler with [bit_length=10], which leaves
    [all_bits] alone); [BitMask.get_masks] returns two named bands and
    [BitHandler.decode_image] raises on unpacking the key. *)
Theorem C8_decode_image_raises_where_get_masks_answers :
  exists h m,
    BitHandler.init cloud_schema (Some 10) = Ok h
    /\ BitMask.from_dict cloud_schema = Ok m
    /\ BitHandler.decode_image h (ee.source "image") (AStr "QA_PIXEL")
       = Raise (ValueError "too many values to unpack")
    /\ BitMask.get_masks m qa_pixel
       = Ok (ee.fromList
               [ee.fromList
                  [ee.rename
                     (ee.eq (ee.bitwiseAnd (ee.rightShift qa_pixel (ee.constant 8))
                                           (ee.constant 3))
                            (ee.constant 1))
                     "cloud - low";
                   ee.rename
                     (ee.eq (ee.bitwiseAnd (ee.rightShift qa_pixel (ee.constant 8))
                                           (ee.constant 3))
                            (ee.constant 2))
                     "cloud - medium"]]).
Proof. do 2 eexists. repeat split. Qed.

(* ================================================================= *)
(** * The round trip through [from_dict] and [to_dict] *)

(** Joining what [split] cut gives the string back. *)
Lemma join_split (sep : ascii) (s : string) :
  forall m, Str.join (String sep EmptyString) (Str.split sep m s) = s.
Proof.
  unfold Str.join.
  induction s as [|c s IH]; intros [[|n]|]; simpl; try reflexivity;
    destruct (Ascii.eqb_spec c sep) as [->|N];
    match goal with
    | |- context [Str.split sep ?m s] =>
      pose proof (split_nonempty sep s m) as NE; specialize (IH m);
        destruct (Str.split sep m s) as [|p ps]; [contradiction|]
    end;
    simpl in *; try (now rewrite IH);
      destruct ps; simpl in *; now rewrite <- IH.
Qed.

Lemma join_three (a b name : string) :
  Str.join "-" [a; b; name] = a ++ "-" ++ b ++ "-" ++ name.
Proof. reflexivity. Qed.

Lemma split_three_join key a b name :
  Str.split "-" (Some 2%nat) key = [a; b; name] ->
  key = a ++ "-" ++ b ++ "-" ++ name.
Proof.
  intros S. pose proof (join_split "-" key (Some 2%nat)) as J.
  rewrite S in J. symmetry. exact J.
Qed.

(** [format_bit_key] returns a key of three parts as it is. *)
Lemma format_bit_key_three key key' a b name :
  Str.split "-" (Some 2%nat) key = [a; b; name] ->
  helpers.format_bit_key (AStr key) = Ok key' ->
  key' = key.
Proof.
  intros S E. unfold helpers.format_bit_key in E. simpl in E. rewrite S in E.
  simpl in E. apply bind_ok in E. destruct E as [_ [_ E]]. injection E as <-.
  symmetry. now apply split_three_join.
Qed.

Lemma expand_single_bit_three key a b name i :
  Str.split "-" (Some 2%nat) key = [a; b; name] ->
  helpers.expand_single_bit (AStr key) i = Ok (AStr key).
Proof. intros S. unfold helpers.expand_single_bit. simpl. now rewrite S. Qed.

Lemma format_bit_value_loop (v : helpers.value_dict) :
  forall acc r,
    for_each helpers.format_bit_value_body (raw_of_value v) acc = Ok r ->
    NoDup (map fst (acc ++ v)) ->
    Forall (fun pl => printed_int (fst pl)) v ->
    r = (acc ++ v)%list.
Proof.
  induction v as [|[p l] v IH]; simpl; intros acc r E N F.
  - injection E as <-. now rewrite app_nil_r.
  - apply bind_ok in E. destruct E as [acc1 [B E]].
    inversion F as [|? ? (n & P & O) F']; subst. simpl in P, O.
    unfold helpers.format_bit_value_body in B. simpl in B.
    inv_ok B. rewrite P in *.
    match goal with H : Ok _ = Ok _ |- _ => injection H as <- end.
    rewrite O in B. simpl in B.
    assert (Hp : ~ In p (map fst acc)).
    { exact (NoDup_fresh_map _ _ _ _ N). }
    rewrite (dict_set_fresh p l acc Hp) in B. subst acc1.
    replace (acc ++ (p, l) :: v)%list with ((acc ++ [(p, l)]) ++ v)%list
      by now rewrite <- app_assoc.
    apply (IH _ _ E); [now rewrite <- app_assoc | assumption].
Qed.

Lemma format_bits_info_body_entry fb cl k v fb' cl' :
  helpers.format_bits_info_body
    (fb, cl) (AStr k, helpers.info_dict (raw_of_value v)) = Ok (fb', cl') ->
  lower_case_entry (k, v) -> is_dict v -> ~ In k (map fst fb) ->
  fb' = (fb ++ [(k, v)])%list.
Proof.
  intros E ((a & b & name & S & _) & Fv) Dv Hk. simpl in S, Fv.
  unfold helpers.format_bits_info_body in E.
  rewrite (expand_single_bit_three _ _ _ _ _ S) in E. simpl in E.
  apply bind_ok in E. destruct E as [key [K E]].
  apply (format_bit_key_three _ _ _ _ _ S) in K. subst key. rewrite S in E.
  inv_ok E. subst fb' cl'.
  match goal with
  | H : for_each helpers.format_bit_value_body _ _ = Ok ?x |- _ =>
    apply format_bit_value_loop in H; [simpl in H; subst x | exact Dv | ]
  end.
  - now apply dict_set_fresh.
  - eapply Forall_impl; [|exact Fv]. now intros pl [? _].
Qed.

Lemma format_bits_info_loop_entries (s : helpers.schema) :
  forall fb cl st,
    for_each helpers.format_bits_info_body (raw_of_schema s) (fb, cl) = Ok st ->
    NoDup (map fst (fb ++ s)) ->
    Forall lower_case_entry s ->
    Forall (fun kv => is_dict (snd kv)) s ->
    fst st = (fb ++ s)%list.
Proof.
  induction s as [|[k v] s IH]; simpl; intros fb cl st E N F D.
  - injection E as <-. simpl. now rewrite app_nil_r.
  - apply bind_ok in E. destruct E as [[fb1 cl1] [B E]].
    inversion F; subst. inversion D; subst. simpl in *.
    assert (Hk : ~ In k (map fst fb)).
    { exact (NoDup_fresh_map _ _ _ _ N). }
    apply format_bits_info_body_entry in B; try assumption. subst fb1.
    replace (fb ++ (k, v) :: s)%list with ((fb ++ [(k, v)]) ++ s)%list
      by now rewrite <- app_assoc.
    apply (IH _ _ _ E); try assumption. now rewrite <- app_assoc.
Qed.

(** Normalization leaves such a schema as it is. *)
Lemma format_bits_info_fixed (s formatted : helpers.schema) :
  helpers.format_bits_info (raw_of_schema s) = Ok formatted ->
  is_dict s -> Forall lower_case_entry s -> Forall (fun kv => is_dict (snd kv)) s ->
  formatted = s.
Proof.
  unfold helpers.format_bits_info. intros E N F D.
  apply bind_ok in E. destruct E as [st [L E]]. injection E as <-.
  now apply (format_bits_info_loop_entries _ _ _ _ L).
Qed.

Lemma dict_mem_false_not_In {V} (k : Z) (d : list (Z * V)) :
  dict_mem k d = false -> ~ In k (map fst d).
Proof.
  intros M I. apply dict_mem_In in I. congruence.
Qed.

(** The validation loop of [BitGroup.__init__] on integer keys and string
    labels: when it ends normally it has kept every pair, the label in
    lower case. *)
Lemma init_body_loop (nv : Z) (items : list (Z * string)) :
  forall acc r,
    for_each (BitGroup.init_body nv)
             (map (fun kv => (PyInt (fst kv), PyStr (snd kv))) items) acc = Ok r ->
    r = (acc ++ map (fun kv => (fst kv, Str.lower (snd kv))) items)%list.
Proof.
  induction items as [|[k l] items IH]; simpl; intros acc r E.
  - injection E as <-. now rewrite app_nil_r.
  - apply bind_ok in E. destruct E as [acc1 [B E]].
    unfold BitGroup.init_body in B. simpl in B. inv_ok B.
    match goal with H : dict_mem _ _ = false |- _ =>
      apply dict_mem_false_not_In in H;
        rewrite (dict_set_fresh _ _ _ H) in B
    end.
    subst acc1. rewrite (IH _ _ E), <- app_assoc. reflexivity.
Qed.

(** The comprehension [{int(k): v for k, v in value.items()}] on printed
    keys and lower-case labels. *)
Lemma items_of_value (v : helpers.value_dict) :
  forall items,
    map_m (fun kv => let* k := py_int (PyStr (fst kv)) in Ok (k, snd kv)) v = Ok items ->
    Forall (fun pl => printed_int (fst pl) /\ Str.lower (snd pl) = snd pl) v ->
    map (fun it => (Str.of_int (fst it), Str.lower (snd it))) items = v.
Proof.
  induction v as [|[p l] v IH]; simpl; intros items M F.
  - now injection M as <-.
  - inversion F as [|? ? [(n & P & O) L] F']; subst. simpl in P, O, L.
    apply bind_ok in M. destruct M as [it [I M]].
    apply bind_ok in M. destruct M as [its [Ms M]]. injection M as <-.
    apply bind_ok in I. destruct I as [n' [P' I]]. injection I as <-.
    simpl in P'. rewrite P in P'. injection P' as <-.
    simpl. now rewrite O, L, (IH _ Ms F').
Qed.

Lemma NoDup_map_fst_inv {A B C} (f : A -> B) (g : C -> C)
      (items : list (A * C)) :
  NoDup (map fst (map (fun it => (f (fst it), g (snd it))) items)) ->
  NoDup (map fst items).
Proof.
  rewrite map_map. simpl. rewrite <- (map_map fst f). apply NoDup_map_inv.
Qed.

(** One entry through the loop of [from_dict]: the group that is built
    prints as the entry. *)
Lemma from_dict_body_to_dict gs k v gs' :
  BitMask.from_dict_body gs (k, v) = Ok gs' ->
  lower_case_entry (k, v) -> is_dict v ->
  exists g, gs' = (gs ++ [g])%list /\ BitGroup.to_dict g = [(k, v)].
Proof.
  intros E ((a & b & name & S & (s & Ps & Os) & (e & Pe & Oe) & Ln) & Fv) Dv.
  simpl in S, Fv. unfold BitMask.from_dict_body in E. rewrite S in E.
  rewrite Ps, Pe in E. simpl in E.
  apply bind_ok in E. destruct E as [items [M E]].
  apply bind_ok in E. destruct E as [g [G E]]. injection E as <-.
  exists g. split; [reflexivity|].
  pose proof (items_of_value _ _ M Fv) as V.
  assert (Ni : NoDup (map fst items)).
  { apply (NoDup_map_fst_inv Str.of_int Str.lower). now rewrite V. }
  rewrite (dict_of_items_nodup _ Ni) in G.
  destruct (BitGroup_init_facts _ _ _ _ _ G) as (Pmin & Pmax & _ & _ & D & L).
  injection Pmin as Pmin. injection Pmax as Pmax.
  apply init_body_loop in L. simpl in L.
  unfold BitGroup.to_dict. rewrite <- Pmin, <- Pmax, D, Ln, Os, Oe, L.
  rewrite map_map. simpl. rewrite V.
  rewrite (dict_of_items_nodup _ Dv).
  pose proof (split_three_join _ _ _ _ S) as K. simpl in K. now rewrite <- K.
Qed.

Lemma from_dict_loop (s : helpers.schema) :
  forall gs groups,
    for_each BitMask.from_dict_body s gs = Ok groups ->
    Forall lower_case_entry s ->
    Forall (fun kv => is_dict (snd kv)) s ->
    exists new, groups = (gs ++ new)%list
                /\ Forall2 (fun g kv => BitGroup.to_dict g = [kv]) new s.
Proof.
  induction s as [|[k v] s IH]; simpl; intros gs groups E F D.
  - injection E as <-. exists []. now rewrite app_nil_r.
  - apply bind_ok in E. destruct E as [gs1 [B E]].
    inversion F; subst. inversion D; subst. simpl in *.
    destruct (from_dict_body_to_dict _ _ _ _ B) as (g & -> & T); try assumption.
    destruct (IH _ _ E) as (new & -> & F2); try assumption.
    exists (g :: new). rewrite <- app_assoc. split; [reflexivity|].
    now constructor.
Qed.

(** [to_dict] gathers the entries of the groups. *)
Lemma to_dict_fold (groups : list BitGroup.t) :
  forall (s acc : helpers.schema),
    Forall2 (fun g kv => BitGroup.to_dict g = [kv]) groups s ->
    NoDup (map fst (acc ++ s)) ->
    fold_left (fun final group => dict_update final (BitGroup.to_dict group))
              groups acc = (acc ++ s)%list.
Proof.
  induction groups as [|g groups IH]; intros s acc F N;
    inversion F as [|? kv ? s' T F']; subst; cbn [fold_left].
  - now rewrite app_nil_r.
  - rewrite T.
    replace (acc ++ kv :: s')%list with ((acc ++ [kv]) ++ s')%list
      by now rewrite <- app_assoc.
    rewrite <- (IH s' (acc ++ [kv])%list F') by now rewrite <- app_assoc.
    f_equal. unfold dict_update. simpl. destruct kv as [k v]. simpl.
    apply dict_set_fresh. exact (NoDup_fresh_map fst _ _ (k, v) N).
Qed.

Lemma init_groups_bits (groups : list BitGroup.t) (total : option Z) (m : BitMask.t) :
  BitMask.init (map BitMask.a_group groups) total = Ok m ->
  BitMask.bits m = groups.
Proof.
  unfold BitMask.init. intros E.
  apply bind_ok in E. destruct E as [[gs ds] [C E]]. simpl in E.
  apply bind_ok in E. destruct E as [pos [_ E]].
  apply bind_ok in E. destruct E as [t [_ E]]. injection E as <-. simpl.
  destruct (collect_spec _ _ _ _ _ C) as [new [-> [F _]]]. simpl.
  clear C. revert new F. induction groups as [|g groups IH]; simpl; intros new F.
  - now inversion F.
  - inversion F as [|? g' ? new' P F']; subst. simpl in P. subst g'.
    f_equal. now apply IH.
Qed.

(** C2 (amended). For every canonical schema [s] whose start, end and
    value keys are printed integers and whose names and labels are in
    lower case, and which [BitMask.from_dict] accepts,
    [BitMask.from_dict(s).to_dict()] is [s] -- with its entries in the
    order of [s], which gives the equality of dicts. *)
Theorem C2_round_trip_of_lower_case_schemas :
  forall (s : helpers.schema) (m : BitMask.t),
    is_dict s ->
    Forall (fun kv => is_dict (snd kv)) s ->
    Forall lower_case_entry s ->
    BitMask.from_dict (raw_of_schema s) = Ok m ->
    BitMask.to_dict m = s.
Proof.
  intros s m N D F E. unfold BitMask.from_dict in E.
  apply bind_ok in E. destruct E as [formatted [Fm E]].
  apply format_bits_info_fixed in Fm; try assumption. subst formatted.
  apply bind_ok in E. destruct E as [groups [L E]].
  destruct (from_dict_loop _ _ _ L F D) as (new & -> & F2). simpl in E.
  unfold BitMask.to_dict. rewrite (init_groups_bits _ _ _ E).
  now apply (to_dict_fold new s []).
Qed.

Lemma C2_witness :
  exists m, BitMask.from_dict (raw_of_schema lower_case_schema) = Ok m
            /\ BitMask.to_dict m = lower_case_schema.
Proof.
  eexists. split; [reflexivity|].
  apply C2_round_trip_of_lower_case_schemas.
  - repeat constructor; simpl; intuition discriminate.
  - repeat constructor; simpl; intuition discriminate.
  - repeat constructor; simpl.
    + exists "3", "3", "cloud". repeat split. all: now eexists; split; reflexivity.
    + now eexists; split; reflexivity.
    + exists "8", "9", "cloud confidence". repeat split.
      all: now eexists; split; reflexivity.
    + now eexists; split; reflexivity.
    + now eexists; split; reflexivity.
    + now eexists; split; reflexivity.
  - reflexivity.
Defined.

(** C2 as stated fails: names and labels come back in lower case, and
    numerals come back as [str(int(...))] prints them. *)
Lemma C2_counterexample :
  (exists m, BitMask.from_dict (raw_of_schema mixed_case_schema) = Ok m
             /\ BitMask.to_dict m = [("3-3-cloud", [("1", "cloud")])]
             /\ BitMask.to_dict m <> mixed_case_schema)
  /\ (exists m, BitMask.from_dict (raw_of_schema padded_schema) = Ok m
                /\ BitMask.to_dict m = [("3-3-cloud", [("1", "cloud")])]
                /\ BitMask.to_dict m <> padded_schema).
Proof. split; eexists; repeat split; discriminate. Qed.

(* ================================================================= *)
(** * Further properties: strings, numerals and the integer guard *)

(** Facts on one character, by cases on its eight bits. *)
Ltac by_char c := destruct c as [[] [] [] [] [] [] [] []]; try reflexivity; try discriminate.

Lemma digit_not_space (c : ascii) (d : Z) :
  Str.digit_of c = Some d -> Str.is_space c = false.
Proof. by_char c. Qed.

Lemma digit_not_dash (c : ascii) (d : Z) :
  Str.digit_of c = Some d -> Ascii.eqb c "-" = false.
Proof. by_char c. Qed.

Lemma lower_char_is_space (c : ascii) :
  Str.is_space (Str.lower_char c) = Str.is_space c.
Proof. by_char c. Qed.

Lemma lower_char_digit_of (c : ascii) :
  Str.digit_of (Str.lower_char c) = Str.digit_of c.
Proof. by_char c. Qed.

Lemma lower_char_sign (c : ascii) :
  Ascii.eqb (Str.lower_char c) "-" = Ascii.eqb c "-"
  /\ Ascii.eqb (Str.lower_char c) "+" = Ascii.eqb c "+"
  /\ Ascii.eqb (Str.lower_char c) "_" = Ascii.eqb c "_".
Proof. by_char c; repeat split. Qed.

(** [lower] is idempotent. *)
Lemma lower_lower (s : string) : Str.lower (Str.lower s) = Str.lower s.
Proof.
  induction s as [|c s IH]; simpl; [reflexivity|].
  rewrite IH. f_equal. by_char c.
Qed.

Lemma lower_length (s : string) : String.length (Str.lower s) = String.length s.
Proof. induction s as [|c s IH]; simpl; congruence. Qed.

(** [int(s)] by cases on the first character after stripping. *)
Lemma to_int_eq (s : string) :
  Str.to_int s
  = match Str.strip s with
    | EmptyString => None
    | String c t =>
      if Ascii.eqb c "-" then option_map Z.opp (Str.parse_digits 0 false t)
      else if Ascii.eqb c "+" then Str.parse_digits 0 false t
      else Str.parse_digits 0 false (String c t)
    end.
Proof.
  unfold Str.to_int. destruct (Str.strip s) as [|c t]; [reflexivity|].
  by_char c.
Qed.

Lemma lstrip_lower (s : string) : Str.lstrip (Str.lower s) = Str.lower (Str.lstrip s).
Proof.
  induction s as [|c s IH]; simpl; [reflexivity|].
  rewrite lower_char_is_space. destruct (Str.is_space c); [exact IH | reflexivity].
Qed.

Lemma rstrip_lower (s : string) : Str.rstrip (Str.lower s) = Str.lower (Str.rstrip s).
Proof.
  induction s as [|c s IH]; simpl; [reflexivity|].
  rewrite IH, lower_char_is_space.
  destruct (Str.rstrip s); simpl; [destruct (Str.is_space c)|]; reflexivity.
Qed.

Lemma parse_digits_lower (s : string) :
  forall acc b, Str.parse_digits acc b (Str.lower s) = Str.parse_digits acc b s.
Proof.
  induction s as [|c s IH]; simpl; intros acc b; [reflexivity|].
  rewrite lower_char_digit_of. destruct (lower_char_sign c) as (_ & _ & ->).
  destruct (Str.digit_of c); [apply IH|].
  destruct (Ascii.eqb c "_" && b)%bool; [apply IH | reflexivity].
Qed.

(** Lower case does not change what [int()] reads. *)
Lemma to_int_lower (s : string) : Str.to_int (Str.lower s) = Str.to_int s.
Proof.
  rewrite !to_int_eq. unfold Str.strip.
  rewrite lstrip_lower, rstrip_lower.
  destruct (Str.rstrip (Str.lstrip s)) as [|c t]; [reflexivity|].
  change (Str.lower (String c t)) with (String (Str.lower_char c) (Str.lower t)).
  cbv iota. destruct (lower_char_sign c) as (-> & -> & _).
  change (String (Str.lower_char c) (Str.lower t)) with (Str.lower (String c t)).
  now rewrite !parse_digits_lower.
Qed.

(** A string of digits and at most a leading minus has nothing to strip. *)
Lemma lstrip_no_space (c : ascii) (s : string) :
  Str.is_space c = false -> Str.lstrip (String c s) = String c s.
Proof. intros E. simpl. now rewrite E. Qed.

Lemma rstrip_digits (d : Decimal.uint) :
  Str.rstrip (NilEmpty.string_of_uint d) = NilEmpty.string_of_uint d.
Proof.
  induction d as [|d IH|d IH|d IH|d IH|d IH|d IH|d IH|d IH|d IH|d IH];
    simpl; [reflexivity|..];
    rewrite IH; destruct (NilEmpty.string_of_uint d); reflexivity.
Qed.

Lemma parse_digits_positive (d : Decimal.uint) :
  forall p, Str.parse_digits (Zpos p) true (NilEmpty.string_of_uint d)
            = Some (Zpos (Pos.of_uint_acc d p)).
Proof.
  induction d as [|d IH|d IH|d IH|d IH|d IH|d IH|d IH|d IH|d IH|d IH];
    intros p; [reflexivity|..]; cbn [NilEmpty.string_of_uint Str.parse_digits];
    match goal with
    | |- context [Str.digit_of ?c] =>
      change (Str.digit_of c) with (Some (Z.of_nat (nat_of_ascii c - 48)))
    end;
    cbn [nat_of_ascii]; simpl Z.of_nat; cbn [Pos.of_uint_acc];
    rewrite <- IH; f_equal; lia.
Qed.

Lemma parse_digits_zero (d : Decimal.uint) :
  forall b, (d <> Decimal.Nil \/ b = true) ->
            Str.parse_digits 0 b (NilEmpty.string_of_uint d)
            = Some (Z.of_N (Pos.of_uint d)).
Proof.
  induction d as [|d IH|d IH|d IH|d IH|d IH|d IH|d IH|d IH|d IH|d IH];
    intros b H.
  - destruct H as [H| ->]; [contradiction | reflexivity].
  - cbn. apply IH. now right.
  - cbn. apply (parse_digits_positive d 1).
  - cbn. apply (parse_digits_positive d 2).
  - cbn. apply (parse_digits_positive d 3).
  - cbn. apply (parse_digits_positive d 4).
  - cbn. apply (parse_digits_positive d 5).
  - cbn. apply (parse_digits_positive d 6).
  - cbn. apply (parse_digits_positive d 7).
  - cbn. apply (parse_digits_positive d 8).
  - cbn. apply (parse_digits_positive d 9).
Qed.

Lemma to_int_digits (d : Decimal.uint) :
  d <> Decimal.Nil ->
  Str.to_int (NilEmpty.string_of_uint d) = Some (Z.of_N (Pos.of_uint d)).
Proof.
  intros N. rewrite to_int_eq. unfold Str.strip.
  assert (L : Str.lstrip (NilEmpty.string_of_uint d) = NilEmpty.string_of_uint d)
    by (destruct d; reflexivity).
  rewrite L, rstrip_digits.
  rewrite <- (parse_digits_zero d false (or_introl N)).
  destruct d; [contradiction | reflexivity..].
Qed.

Lemma to_int_minus_digits (d : Decimal.uint) :
  d <> Decimal.Nil ->
  Str.to_int (String "-" (NilEmpty.string_of_uint d))
  = Some (- Z.of_N (Pos.of_uint d)).
Proof.
  intros N. rewrite to_int_eq. unfold Str.strip.
  change (Str.lstrip (String "-" (NilEmpty.string_of_uint d)))
    with (String "-" (NilEmpty.string_of_uint d)).
  assert (R : Str.rstrip (String "-" (NilEmpty.string_of_uint d))
              = String "-" (NilEmpty.string_of_uint d)).
  { cbn [Str.rstrip]. rewrite rstrip_digits. destruct d; [contradiction | reflexivity..]. }
  rewrite R. cbn [Ascii.eqb Bool.eqb]. cbv iota.
  now rewrite (parse_digits_zero d false (or_introl N)).
Qed.

Lemma string_of_uint_nonnil (d : Decimal.uint) :
  d <> Decimal.Nil -> NilZero.string_of_uint d = NilEmpty.string_of_uint d.
Proof. destruct d; [contradiction | reflexivity..]. Qed.

(** [int(str(n)) == n] *)
Lemma to_int_of_int (n : Z) : Str.to_int (Str.of_int n) = Some n.
Proof.
  unfold Str.of_int. destruct n as [|p|p]; [reflexivity|..]; simpl.
  - rewrite (string_of_uint_nonnil _ (Unsigned.to_uint_nonnil p)).
    rewrite (to_int_digits _ (Unsigned.to_uint_nonnil p)).
    now rewrite Unsigned.of_to.
  - rewrite (string_of_uint_nonnil _ (Unsigned.to_uint_nonnil p)).
    rewrite (to_int_minus_digits _ (Unsigned.to_uint_nonnil p)).
    now rewrite Unsigned.of_to.
Qed.

Lemma py_int_of_int (n : Z) : py_int (PyStr (Str.of_int n)) = Ok n.
Proof. simpl. now rewrite to_int_of_int. Qed.

Lemma of_int_inj (n m : Z) : Str.of_int n = Str.of_int m -> n = m.
Proof.
  intros E. pose proof (to_int_of_int n) as P. rewrite E, to_int_of_int in P.
  now injection P.
Qed.

Lemma of_int_printed (n : Z) : printed_int (Str.of_int n).
Proof. exists n. split; [apply py_int_of_int | reflexivity]. Qed.

Lemma digits_no_dash (d : Decimal.uint) :
  Str.contains "-" (NilEmpty.string_of_uint d) = false.
Proof. induction d; simpl; auto. Qed.

(** A non-negative integer prints without a dash. *)
Lemma of_int_no_dash (n : Z) : 0 <= n -> Str.contains "-" (Str.of_int n) = false.
Proof.
  intros L. unfold Str.of_int. destruct n as [|p|p]; [reflexivity| |lia].
  simpl. rewrite (string_of_uint_nonnil _ (Unsigned.to_uint_nonnil p)).
  apply digits_no_dash.
Qed.

(* ----------------------------------------------------------------- *)
(** ** [split] on strings without the separator *)

Lemma split_no_sep (sep : ascii) (s : string) :
  Str.contains sep s = false -> forall m, Str.split sep m s = [s].
Proof.
  induction s as [|c s IH]; simpl; intros C [[|n]|]; try reflexivity;
    apply orb_false_iff in C; destruct C as [E C]; rewrite E;
    now rewrite (IH C).
Qed.

Lemma split_prefix (sep : ascii) (a rest : string) :
  Str.contains sep a = false ->
  forall n, Str.split sep (Some (S n)) (a ++ String sep rest)
            = a :: Str.split sep (Some n) rest.
Proof.
  induction a as [|c a IH]; simpl; intros C n.
  - now rewrite Ascii.eqb_refl.
  - apply orb_false_iff in C. destruct C as [E C]. rewrite E.
    now rewrite (IH C).
Qed.

Lemma split_prefix_unbounded (sep : ascii) (a rest : string) :
  Str.contains sep a = false ->
  Str.split sep None (a ++ String sep rest) = a :: Str.split sep None rest.
Proof.
  induction a as [|c a IH]; simpl; intros C.
  - now rewrite Ascii.eqb_refl.
  - apply orb_false_iff in C. destruct C as [E C]. rewrite E.
    now rewrite (IH C).
Qed.

Lemma split_zero (sep : ascii) (s : string) : Str.split sep (Some 0%nat) s = [s].
Proof. destruct s; reflexivity. Qed.

(** ["a-b-name"] splits into its three parts when [a] and [b] have no
    dash, whatever the name. *)
Lemma split_three (a b name : string) :
  Str.contains "-" a = false -> Str.contains "-" b = false ->
  Str.split "-" (Some 2%nat) (a ++ "-" ++ b ++ "-" ++ name) = [a; b; name].
Proof.
  intros Ca Cb. change ("-" ++ b ++ "-" ++ name)%string
    with (String "-" (b ++ String "-" name)).
  now rewrite (split_prefix "-" a _ Ca 1), (split_prefix "-" b _ Cb 0), split_zero.
Qed.

(** The parts that [split] cuts off before the last one hold no
    separator; neither does the last one unless [maxsplit] was used up. *)
Lemma split_parts_no_sep (sep : ascii) (s : string) :
  forall m, Forall (fun p => Str.contains sep p = false)
                   (removelast (Str.split sep m s))
            /\ (match m with
                | Some n => (List.length (Str.split sep m s) <= n)%nat
                | None => True
                end ->
                Forall (fun p => Str.contains sep p = false) (Str.split sep m s)).
Proof.
  induction s as [|c s IH]; intros m.
  - destruct m as [[|n]|]; simpl; split; intros; repeat constructor; lia.
  - destruct m as [[|n]|].
    + simpl. split; [constructor | intros; lia].
    + simpl. destruct (Ascii.eqb c sep) eqn:E.
      * destruct (IH (Some n)) as [R A]. simpl.
        pose proof (split_nonempty sep s (Some n)) as NE.
        destruct (Str.split sep (Some n) s) as [|p ps] eqn:S; [contradiction|].
        split.
        -- constructor; [reflexivity | exact R].
        -- intros L. constructor; [reflexivity|]. apply A. simpl in *. lia.
      * destruct (IH (Some (S n))) as [R A].
        pose proof (split_nonempty sep s (Some (S n))) as NE.
        destruct (Str.split sep (Some (S n)) s) as [|p ps] eqn:S; [contradiction|].
        split.
        -- destruct ps as [|q qs]; [constructor|].
           simpl in R |- *. inversion R; subst.
           constructor; [simpl; now rewrite E | assumption].
        -- intros L. specialize (A L). inversion A; subst.
           constructor; [simpl; now rewrite E | assumption].
    + simpl. destruct (Ascii.eqb c sep) eqn:E.
      * destruct (IH None) as [R A]. simpl.
        pose proof (split_nonempty sep s None) as NE.
        destruct (Str.split sep None s) as [|p ps] eqn:S; [contradiction|].
        split.
        -- constructor; [reflexivity | exact R].
        -- intros _. constructor; [reflexivity|]. now apply A.
      * destruct (IH None) as [R A].
        pose proof (split_nonempty sep s None) as NE.
        destruct (Str.split sep None s) as [|p ps] eqn:S; [contradiction|].
        split.
        -- destruct ps as [|q qs]; [constructor|].
           simpl in R |- *. inversion R; subst.
           constructor; [simpl; now rewrite E | assumption].
        -- intros _. specialize (A I). inversion A; subst.
           constructor; [simpl; now rewrite E | assumption].
Qed.

(* ----------------------------------------------------------------- *)
(** ** helpers.py: [format_bandname], [is_int], [is_str] *)

Lemma replace_absent (c : ascii) (new s : string) :
  Str.contains c s = false -> Str.replace c new s = s.
Proof.
  induction s as [|c' s IH]; simpl; intros C; [reflexivity|].
  apply orb_false_iff in C. destruct C as [E C]. rewrite E. now rewrite IH.
Qed.

(** X1. [format_bandname] replaces the dots of the name and nothing else:
    the result is [name.replace(".", replacement)], so a name without a
    dot comes back unchanged, whatever other banned characters it holds. *)
Theorem format_bandname_replaces_only_dots :
  forall name replacement,
    helpers.format_bandname name replacement
    = Ok (Str.replace "." replacement name)
    /\ (Str.contains "." name = false ->
        helpers.format_bandname name replacement = Ok name).
Proof.
  intros name replacement. split; [reflexivity|].
  intros C. unfold helpers.format_bandname. simpl. now rewrite replace_absent.
Qed.

Lemma format_bandname_witness :
  helpers.format_bandname "cloud*[1]+(x)" "_" = Ok "cloud*[1]+(x)".
Proof.
  exact (proj2 (format_bandname_replaces_only_dots "cloud*[1]+(x)" "_") eq_refl).
Defined.

Lemma is_int_true_py_int (v : pyval) :
  helpers.is_int v = Ok true -> exists n, py_int v = Ok n.
Proof.
  unfold helpers.is_int. destruct (py_int v) as [n|[]]; intros E;
    try discriminate; eauto.
Qed.

Lemma is_int_str (s : string) :
  helpers.is_int (PyStr s)
  = Ok (match Str.to_int s with Some _ => true | None => false end).
Proof. unfold helpers.is_int. simpl. now destruct (Str.to_int s). Qed.



Lemma is_str_true_iff :
  forall v : pyval,
    helpers.is_str v = Ok true
    <-> exists s, v = PyStr s /\ s <> EmptyString /\ Str.to_int s = None.
Proof.
  intros v. unfold helpers.is_str, py_and, py_not. split.
  - destruct v as [|b|z|f|s]; simpl; try discriminate.
    + unfold helpers.is_int. simpl. destruct f; simpl; discriminate.
    + rewrite is_int_str. destruct (Str.to_int s) eqn:T; simpl; [discriminate|].
      intros E. exists s. split; [reflexivity|]. split; [|exact T].
      intros ->. discriminate.
  - intros (s & -> & N & T). rewrite is_int_str, T. simpl.
    destruct s; [contradiction | reflexivity].
Qed.



(* ----------------------------------------------------------------- *)
(** ** helpers.py: [format_bit_key] *)

Lemma gtb_irrefl (a : string) : Str.gtb a a = false.
Proof.
  unfold Str.gtb, String.ltb.
  pose proof (String.compare_antisym a a) as C.
  destruct (String.compare a a); simpl in C; try discriminate; reflexivity.
Qed.

Lemma split_length_max (sep : ascii) (s : string) :
  forall n, (List.length (Str.split sep (Some n) s) <= S n)%nat.
Proof.
  induction s as [|c s IH]; intros [|n]; simpl; try lia.
  destruct (Ascii.eqb c sep); simpl.
  - specialize (IH n). lia.
  - specialize (IH (S n)).
    destruct (Str.split sep (Some (S n)) s); simpl in *; lia.
Qed.

(** What a key that [format_bit_key] returns looks like. *)
Lemma format_bit_key_ok (bit : atom) (key : string) :
  helpers.format_bit_key bit = Ok key ->
  exists a b name s e,
    key = (a ++ "-" ++ b ++ "-" ++ name)%string
    /\ Str.split "-" (Some 2%nat) key = [a; b; name]
    /\ py_int (PyStr a) = Ok s /\ py_int (PyStr b) = Ok e
    /\ Str.gtb a b = false.
Proof.
  unfold helpers.format_bit_key. intros E.
  pose proof (split_length_max "-" (py_str bit) 2) as Len.
  pose proof (split_parts_no_sep "-" (py_str bit) (Some 2%nat)) as [_ Free].
  pose proof (join_split "-" (py_str bit) (Some 2%nat)) as J.
  destruct (Str.split "-" (Some 2%nat) (py_str bit))
    as [|p0 [|p1 [|p2 [|p3 ps]]]] eqn:S; simpl in Len; try lia.
  - exfalso. exact (split_nonempty _ _ _ S).
  - simpl in E. discriminate.
  - (* "pos-name" *)
    assert (F : Forall (fun p => Str.contains "-" p = false) [p0; p1])
      by (apply Free; simpl; lia).
    inversion F as [|? ? C0 F']; subst. inversion F' as [|? ? C1 _]; subst.
    cbn [bind] in E. apply bind_ok in E. destruct E as [parts [P E]].
    apply bind_ok in P. destruct P as [c [C P]].
    destruct c; [|discriminate]. injection P as <-.
    unfold py_and in C. apply bind_ok in C. destruct C as [i0 [I0 C]].
    destruct i0; [|discriminate].
    destruct (is_int_true_py_int _ I0) as [s Ps].
    apply bind_ok in E. destruct E as [_ [_ E]]. injection E as <-.
    exists p0, p0, p1, s, s. repeat split; try assumption.
    + now apply split_three.
    + apply gtb_irrefl.
  - (* "start-end-name" *)
    cbn [bind] in E. apply bind_ok in E. destruct E as [[] [G E]].
    injection E as <-.
    apply bind_ok in G. destruct G as [c [C G]].
    apply raise_if_ok in G. destruct G as [-> G].
    apply bind_ok in G. destruct G as [c' [C' G]].
    apply raise_if_ok in G. destruct G as [-> _].
    rewrite !is_int_str in C, C'. simpl in C'.
    destruct (Str.to_int p0) as [s|] eqn:T0; [|discriminate].
    destruct (Str.to_int p1) as [e|] eqn:T1; [|discriminate].
    simpl in C. injection C as C.
    exists p0, p1, p2, s, e. simpl py_int. rewrite T0, T1.
    split; [reflexivity|].
    split; [etransitivity; [|exact S]; f_equal; exact J|].
    repeat split. exact C.
Qed.

(** X4. A key that [format_bit_key] returns has the form
    ["start-end-name"] with integers for start and end, start not the
    greater string; and [format_bit_key] returns it as it is
    (idempotence). *)
Theorem format_bit_key_canonical_and_idempotent :
  forall (bit : atom) (key : string),
    helpers.format_bit_key bit = Ok key ->
    (exists a b name s e,
        Str.split "-" (Some 2%nat) key = [a; b; name]
        /\ py_int (PyStr a) = Ok s /\ py_int (PyStr b) = Ok e
        /\ Str.gtb a b = false)
    /\ helpers.format_bit_key (AStr key) = Ok key.
Proof.
  intros bit key E.
  destruct (format_bit_key_ok _ _ E) as (a & b & name & s & e & K & S & Pa & Pb & G).
  split; [exists a, b, name, s, e; auto|].
  rewrite (format_bit_key_three_parts _ _ _ _ _ _ S Pa Pb), G. now rewrite K.
Qed.

Lemma format_bit_key_witness :
  helpers.format_bit_key (AStr "7-7-water") = Ok "7-7-water".
Proof.
  exact (proj2 (format_bit_key_canonical_and_idempotent
                  (AStr "7-water") "7-7-water" eq_refl)).
Defined.

(** X5. A key ["pos-name"], with [pos] an integer and [name] a non-empty
    string that is not an integer, both without a dash, is expanded to
    ["pos-pos-name"]; a key that prints without a dash -- a string or an
    integer, whatever it holds -- is always rejected as badly formed. *)
Theorem format_bit_key_expands_single_position :
  (forall (pos name : string) (n : Z),
     Str.contains "-" pos = false ->
     Str.contains "-" name = false ->
     Str.to_int pos = Some n ->
     Str.to_int name = None ->
     name <> EmptyString ->
     helpers.format_bit_key (AStr (pos ++ "-" ++ name))
     = Ok (pos ++ "-" ++ pos ++ "-" ++ name)%string)
  /\ (forall bit : atom,
        Str.contains "-" (py_str bit) = false ->
        helpers.format_bit_key bit = Raise helpers.bad_format).
Proof.
  split.
  - intros pos name n Cp Cn Tp Tn NE. unfold helpers.format_bit_key. simpl py_str.
    change ("-" ++ name)%string with (String "-" name).
    rewrite (split_prefix "-" pos name Cp 1), (split_no_sep "-" name Cn).
    cbn [bind]. rewrite is_int_str, Tp.
    assert (S : helpers.is_str (PyStr name) = Ok true).
    { apply is_str_true_iff. exists name. auto. }
    unfold py_and at 1. cbn [bind]. rewrite S. cbn [bind].
    rewrite is_int_str, Tp. simpl. now rewrite gtb_irrefl.
  - intros bit C. unfold helpers.format_bit_key.
    now rewrite (split_no_sep "-" (py_str bit) C).
Qed.

Lemma format_bit_key_expands_witness :
  helpers.format_bit_key (AStr "12-cloud shadow") = Ok "12-12-cloud shadow"
  /\ helpers.format_bit_key (AStr "cloud shadow") = Raise helpers.bad_format
  /\ helpers.format_bit_key (AInt 12) = Raise helpers.bad_format.
Proof.
  split; [|split].
  - exact (proj1 format_bit_key_expands_single_position
                 "12" "cloud shadow" 12 eq_refl eq_refl eq_refl eq_refl
                 ltac:(discriminate)).
  - exact (proj2 format_bit_key_expands_single_position (AStr "cloud shadow") eq_refl).
  - exact (proj2 format_bit_key_expands_single_position (AInt 12) eq_refl).
Defined.

(* ----------------------------------------------------------------- *)
(** ** Writing to a dictionary *)

Section DictSetFacts.
Context {K V : Type} `{KeyEqLaws K}.

Lemma dict_set_keys_cases (k : K) (v : V) (d : list (K * V)) :
  map fst (dict_set k v d)
  = if dict_mem k d then map fst d else (map fst d ++ [k])%list.
Proof.
  unfold dict_mem. induction d as [|[k' v'] d IH]; simpl; [reflexivity|].
  destruct (keqb k k') eqn:E; simpl; [reflexivity|].
  rewrite IH. now destruct (dict_get k d).
Qed.

Lemma dict_set_is_dict (k : K) (v : V) (d : list (K * V)) :
  NoDup (map fst d) -> NoDup (map fst (dict_set k v d)).
Proof.
  intros N. rewrite dict_set_keys_cases. destruct (dict_mem k d) eqn:M; [assumption|].
  apply NoDup_app; [assumption | repeat constructor; auto |].
  intros a Ia [<-|[]]. apply dict_mem_In in Ia. congruence.
Qed.

Lemma dict_set_Forall (P : K * V -> Prop) (k : K) (v : V) (d : list (K * V)) :
  Forall P d -> P (k, v) -> Forall P (dict_set k v d).
Proof.
  intros F Pk. induction d as [|[k' v'] d IH]; simpl.
  - now constructor.
  - inversion F; subst. destruct (keqb k k') eqn:E.
    + apply keqb_eq in E. subst. now constructor.
    + constructor; auto.
Qed.

Lemma dict_set_length (k : K) (v : V) (d : list (K * V)) :
  (List.length d <= List.length (dict_set k v d) <= S (List.length d))%nat.
Proof.
  induction d as [|[k' v'] d IH]; simpl; [lia|].
  destruct (keqb k k'); simpl; lia.
Qed.

Lemma dict_get_set_same (k : K) (v : V) (d : list (K * V)) :
  dict_get k (dict_set k v d) = Some v.
Proof.
  induction d as [|[k' v'] d IH]; simpl.
  - now rewrite keqb_refl.
  - destruct (keqb k k') eqn:E; simpl; now rewrite E.
Qed.

Lemma dict_get_set_other (k k' : K) (v : V) (d : list (K * V)) :
  k' <> k -> dict_get k' (dict_set k v d) = dict_get k' d.
Proof.
  intros N. induction d as [|[k0 v0] d IH]; simpl.
  - apply keqb_neq in N. now rewrite N.
  - destruct (keqb k k0) eqn:E; simpl.
    + apply keqb_eq in E. subst k0. apply keqb_neq in N. now rewrite N.
    + now rewrite IH.
Qed.

Lemma dict_mem_set (k k' : K) (v : V) (d : list (K * V)) :
  dict_mem k' (dict_set k v d) = (keqb k' k || dict_mem k' d)%bool.
Proof.
  unfold dict_mem. destruct (keqb k' k) eqn:E.
  - apply keqb_eq in E. subst. now rewrite dict_get_set_same.
  - apply keqb_neq in E. now rewrite dict_get_set_other.
Qed.

(** In a dict a pair is what [get] returns. *)
Lemma dict_get_In_pair (k : K) (v : V) (d : list (K * V)) :
  NoDup (map fst d) -> In (k, v) d -> dict_get k d = Some v.
Proof.
  induction d as [|[k' v'] d IH]; simpl; intros N I; [contradiction|].
  inversion N as [|? ? Nk N']; subst. destruct I as [I|I].
  - injection I as -> ->. now rewrite keqb_refl.
  - destruct (keqb k k') eqn:E.
    + apply keqb_eq in E. subst. exfalso. apply Nk.
      apply in_map_iff. now exists (k', v).
    + now apply IH.
Qed.

Lemma dict_get_Some_In (k : K) (v : V) (d : list (K * V)) :
  dict_get k d = Some v -> In (k, v) d.
Proof.
  induction d as [|[k' v'] d IH]; simpl; [discriminate|].
  destruct (keqb k k') eqn:E.
  - apply keqb_eq in E. subst. intros [= ->]. now left.
  - intros G. right. now apply IH.
Qed.

End DictSetFacts.

(* ----------------------------------------------------------------- *)
(** ** helpers.py: [format_bit_value] *)

Lemma is_str_atom (val : atom) :
  helpers.is_str (atom_val val) = Ok true ->
  helpers.is_str (PyStr (py_str val)) = Ok true.
Proof.
  destruct val as [s|z]; simpl; [auto|].
  intros E. apply is_str_true_iff in E. destruct E as (s & E & _). discriminate.
Qed.

Lemma format_bit_value_loop_facts (d : list (atom * atom)) :
  forall acc v,
    for_each helpers.format_bit_value_body d acc = Ok v ->
    is_dict acc ->
    Forall (fun pl => (exists n, fst pl = Str.of_int n)
                      /\ helpers.is_str (PyStr (snd pl)) = Ok true) acc ->
    is_dict v
    /\ (List.length v <= List.length acc + List.length d)%nat
    /\ Forall (fun pl => (exists n, fst pl = Str.of_int n)
                         /\ helpers.is_str (PyStr (snd pl)) = Ok true) v
    /\ (forall k, dict_mem k acc = true -> dict_mem k v = true)
    /\ (forall pos val, In (pos, val) d ->
                        exists n, py_int (atom_val pos) = Ok n
                                  /\ dict_mem (Str.of_int n) v = true).
Proof.
  induction d as [|[pos val] d IH]; simpl; intros acc v E D F.
  - injection E as <-. repeat split; auto; try lia; try (now intros ? ? []).
  - apply bind_ok in E. destruct E as [acc1 [B E]].
    unfold helpers.format_bit_value_body in B. inv_ok B. to_prop.
    match goal with H : helpers.is_str _ = Ok _ |- _ => rename H into S end.
    match goal with H : py_int _ = Ok ?z |- _ => rename H into P; rename z into n end.
    subst acc1.
    assert (S' : helpers.is_str (PyStr (py_str val)) = Ok true)
      by (apply is_str_atom; congruence).
    destruct (IH _ _ E) as (Dv & Lv & Fv & Mv & Iv).
    + now apply dict_set_is_dict.
    + apply dict_set_Forall; [assumption|]. simpl. split; [eauto | assumption].
    + repeat split; try assumption.
      * pose proof (dict_set_length (Str.of_int n) (py_str val) acc). lia.
      * intros k M. apply Mv. rewrite dict_mem_set, M. apply orb_true_r.
      * intros pos' val' [I|I].
        -- injection I as <- <-. exists n. split; [assumption|].
           apply Mv. rewrite dict_mem_set. simpl. now rewrite String.eqb_refl.
        -- now apply (Iv pos' val').
Qed.

(** X6. What [format_bit_value] makes of a dict: a dict with no more
    entries, whose keys are integers as [str] prints them and whose labels
    are non-empty strings that are not integers; every position of the
    input is a key of the output.  A string gives [{"1": value}],
    unchecked. *)
Theorem format_bit_value_normalizes :
  forall (d : list (atom * atom)) (v : helpers.value_dict),
    helpers.format_bit_value (helpers.info_dict d) = Ok v ->
    is_dict v
    /\ (List.length v <= List.length d)%nat
    /\ Forall (fun pl => exists n, fst pl = Str.of_int n) v
    /\ valid_labels v
    /\ (forall pos val, In (pos, val) d ->
                        exists n, py_int (atom_val pos) = Ok n
                                  /\ dict_mem (Str.of_int n) v = true)
    /\ (forall s, helpers.format_bit_value (helpers.info_str s) = Ok [("1", s)]).
Proof.
  intros d v E. simpl in E.
  destruct (format_bit_value_loop_facts d [] v E) as (D & L & F & _ & I);
    [constructor | constructor |].
  repeat split; try assumption.
  - eapply Forall_impl; [|exact F]. now intros pl [? _].
  - eapply Forall_impl; [|exact F]. now intros pl [_ ?].
Qed.

Lemma format_bit_value_witness :
  exists v, helpers.format_bit_value
              (helpers.info_dict [(AStr "01", AStr "low"); (AInt 1, AStr "high");
                                  (AStr " 2", AStr "top")]) = Ok v
            /\ (List.length v <= 3)%nat /\ is_dict v.
Proof.
  destruct (format_bit_value_normalizes
              [(AStr "01", AStr "low"); (AInt 1, AStr "high"); (AStr " 2", AStr "top")]
              _ eq_refl) as (D & L & _).
  eexists. split; [reflexivity|]. split; [exact L | exact D].
Defined.

(* ----------------------------------------------------------------- *)
(** ** helpers.py: what [format_bits_info] returns *)

Lemma format_bit_key_stable (bit : atom) (key : string) :
  helpers.format_bit_key bit = Ok key ->
  helpers.format_bit_key (AStr key) = Ok key.
Proof.
  intros E.
  destruct (format_bit_key_ok _ _ E) as (a & b & name & s & e & K & S & Pa & Pb & G).
  rewrite (format_bit_key_three_parts _ _ _ _ _ _ S Pa Pb), G. now rewrite K.
Qed.

Lemma positions_below (bound : Z) (v : helpers.value_dict) :
  forall ns,
    map_m (fun pos => py_int (PyStr pos)) (map fst v) = Ok ns ->
    existsb (fun pos => pos >=? bound) ns = false ->
    Forall (fun pl => exists n, fst pl = Str.of_int n) v ->
    Forall (fun pl => exists n, fst pl = Str.of_int n /\ n < bound) v.
Proof.
  induction v as [|[p l] v IH]; intros ns M X F; [constructor|].
  cbn [map map_m fst] in M.
  apply bind_ok in M. destruct M as [n [P M]].
  apply bind_ok in M. destruct M as [ns' [M' M]]. injection M as <-.
  simpl in X. apply orb_false_iff in X. destruct X as [B X].
  inversion F as [|? ? [n' N'] F']; subst. simpl in N'. subst p.
  rewrite py_int_of_int in P. injection P as <-.
  constructor; [|now apply (IH ns')].
  exists n'. split; [reflexivity|]. rewrite Z.geb_leb in B. apply Z.leb_gt in B. lia.
Qed.

Lemma format_bit_value_facts (i : helpers.info) (v : helpers.value_dict) :
  helpers.format_bit_value i = Ok v ->
  is_dict v /\ Forall (fun pl => exists n, fst pl = Str.of_int n) v.
Proof.
  destruct i as [s|d|]; simpl; intros E.
  - injection E as <-. split.
    + repeat constructor. intros [].
    + repeat constructor. now exists 1.
  - destruct (format_bit_value_loop_facts d [] v E) as (D & _ & F & _);
      [constructor | constructor |].
    split; [assumption|]. eapply Forall_impl; [|exact F]. now intros pl [? _].
  - discriminate.
Qed.

Lemma entry_name_split key a b name :
  Str.split "-" (Some 2%nat) key = [a; b; name] -> entry_name key = name.
Proof. intros S. unfold entry_name. now rewrite S. Qed.

(** One round of the loop: a new entry goes last, its name is new. *)
Lemma format_bits_info_body_step fb cl item fb' cl' :
  helpers.format_bits_info_body (fb, cl) item = Ok (fb', cl') ->
  cl = map entry_name (map fst fb) ->
  exists key v,
    fb' = (fb ++ [(key, v)])%list
    /\ cl' = (cl ++ [entry_name key])%list
    /\ ~ In (entry_name key) cl
    /\ normalized_entry (key, v)
    /\ helpers.format_bit_value (snd item) = Ok v.
Proof.
  destruct item as [bit i]. unfold helpers.format_bits_info_body.
  intros E C. apply bind_ok in E. destruct E as [bit1 [_ E]].
  apply bind_ok in E. destruct E as [key [K E]].
  apply format_bit_key_stable in K.
  destruct (Str.split "-" (Some 2%nat) key) as [|a [|b [|name [|? ?]]]] eqn:S;
    try discriminate.
  inv_ok E. subst fb' cl'.
  match goal with H : list_mem _ _ = false |- _ =>
    apply list_mem_not_In in H; rename H into Fresh end.
  match goal with H : helpers.format_bit_value _ = Ok ?x |- _ =>
    rename H into FV; rename x into v end.
  match goal with H : map_m _ _ = Ok ?x |- _ => rename H into M; rename x into ns end.
  match goal with H : existsb _ _ = false |- _ => rename H into X end.
  rewrite <- (entry_name_split _ _ _ _ S) in Fresh.
  destruct (format_bit_value_facts _ _ FV) as [Dv Pv].
  exists key, v. to_prop. repeat split.
  - apply dict_set_fresh. intros I. apply Fresh. rewrite C. now apply in_map.
  - now rewrite (entry_name_split _ _ _ _ S).
  - exact Fresh.
  - do 3 eexists. split; [|split].
    + exists a, b. repeat split; try eassumption. lia.
    + repeat split; [assumption | simpl; lia |].
      now apply (positions_below _ _ ns).
    + exact K.
  - exact FV.
Qed.

Lemma format_bits_info_loop_inv (l : list (atom * helpers.info)) :
  forall fb cl st,
    for_each helpers.format_bits_info_body l (fb, cl) = Ok st ->
    cl = map entry_name (map fst fb) -> NoDup cl -> Forall normalized_entry fb ->
    snd st = map entry_name (map fst (fst st))
    /\ NoDup (snd st)
    /\ Forall normalized_entry (fst st)
    /\ exists new, fst st = (fb ++ new)%list
                   /\ Forall2 (fun item kv => helpers.format_bit_value (snd item)
                                              = Ok (snd kv)) l new.
Proof.
  induction l as [|item l IH]; simpl; intros fb cl st E C N F.
  - injection E as <-. simpl. repeat split; try assumption.
    exists []. split; [now rewrite app_nil_r | constructor].
  - apply bind_ok in E. destruct E as [[fb1 cl1] [B E]].
    destruct (format_bits_info_body_step _ _ _ _ _ B C)
      as (key & v & -> & -> & Fresh & NE & FV).
    destruct (IH _ _ _ E) as (C' & N' & F' & new & Eq & F2).
    + rewrite !map_app, C. reflexivity.
    + apply NoDup_app; [assumption | repeat constructor; auto |].
      intros a Ia [<-|[]]. contradiction.
    + apply Forall_app. split; [assumption | now repeat constructor].
    + repeat split; try assumption.
      exists ((key, v) :: new). rewrite Eq, <- app_assoc. split; [reflexivity|].
      now constructor.
Qed.

(** X7. What [format_bits_info] returns: one entry for each entry of the
    input, in its order, holding what [format_bit_value] makes of the
    value; the names are pairwise distinct, and so are the keys; every key
    is ["start-end-name"] with integers [start <= end] and is left alone by
    [format_bit_key]; every value is a dict of at most [2^(end-start+1)]
    entries whose keys are printed integers below [2^(end-start+1)]. *)
Theorem format_bits_info_output :
  forall (raw : list (atom * helpers.info)) (out : helpers.schema),
    helpers.format_bits_info raw = Ok out ->
    Forall2 (fun item kv => helpers.format_bit_value (snd item) = Ok (snd kv)) raw out
    /\ NoDup (map entry_name (map fst out))
    /\ is_dict out
    /\ Forall normalized_entry out.
Proof.
  unfold helpers.format_bits_info. intros raw out E.
  apply bind_ok in E. destruct E as [st [L E]]. injection E as <-.
  destruct (format_bits_info_loop_inv _ _ _ _ L eq_refl (NoDup_nil _) (Forall_nil _))
    as (C & N & F & new & Eq & F2).
  simpl in Eq. rewrite C in N. rewrite Eq in *.
  repeat split; try assumption.
  exact (NoDup_map_inv _ _ N).
Qed.

Lemma format_bits_info_output_witness :
  exists out, helpers.format_bits_info l89_qa_bits = Ok out
              /\ is_dict out /\ Forall normalized_entry out.
Proof.
  destruct (format_bits_info_output l89_qa_bits _ eq_refl) as (_ & _ & D & F).
  eexists. split; [reflexivity|]. split; [exact D | exact F].
Defined.

(* ----------------------------------------------------------------- *)
(** ** helpers.py: normalizing what is normalized *)

Lemma format_bit_value_again (v : helpers.value_dict) :
  forall acc,
    is_dict (acc ++ v) ->
    Forall (fun pl => exists n, fst pl = Str.of_int n) v ->
    valid_labels v ->
    for_each helpers.format_bit_value_body (raw_of_value v) acc = Ok (acc ++ v)%list.
Proof.
  induction v as [|[p l] v IH]; intros acc D F L.
  - simpl. now rewrite app_nil_r.
  - inversion F as [|? ? [n N] F']; subst. inversion L as [|? ? S L']; subst.
    cbn [fst snd] in N, S. subst p.
    unfold raw_of_value. cbn [map for_each fst snd].
    unfold helpers.format_bit_value_body at 1. cbn [atom_val py_str].
    rewrite (is_int_of_py_int _ _ (py_int_of_int n)), S, py_int_of_int.
    cbn [bind negb raise_if].
    rewrite (dict_set_fresh _ _ _ (NoDup_fresh_map fst _ _ (Str.of_int n, l) D)).
    replace (acc ++ (Str.of_int n, l) :: v)%list
      with ((acc ++ [(Str.of_int n, l)]) ++ v)%list by now rewrite <- app_assoc.
    apply IH; try assumption. unfold is_dict. now rewrite <- app_assoc.
Qed.

Lemma positions_again (bound : Z) (v : helpers.value_dict) :
  Forall (fun pl => exists n, fst pl = Str.of_int n /\ n < bound) v ->
  exists ns, map_m (fun pos => py_int (PyStr pos)) (map fst v) = Ok ns
             /\ existsb (fun pos => pos >=? bound) ns = false.
Proof.
  induction 1 as [|[p l] v (n & N & B) _ (ns & M & X)]; cbn [map map_m fst].
  - exists []. split; reflexivity.
  - simpl in N. subst p. exists (n :: ns). rewrite py_int_of_int, M.
    split; [reflexivity|]. simpl. rewrite X, Z.geb_leb.
    apply orb_false_iff. split; [apply Z.leb_gt; lia | reflexivity].
Qed.

(** The loop of [format_bits_info] on entries that are already
    normalized, with valid labels: each entry is kept as it is. *)
Lemma format_bits_info_again (out : helpers.schema) :
  forall fb cl,
    NoDup (map fst (fb ++ out)) ->
    NoDup (cl ++ map entry_name (map fst out)) ->
    Forall normalized_entry out ->
    Forall (fun kv => valid_labels (snd kv)) out ->
    for_each helpers.format_bits_info_body (raw_of_schema out) (fb, cl)
    = Ok ((fb ++ out)%list, (cl ++ map entry_name (map fst out))%list).
Proof.
  induction out as [|[k v] out IH]; intros fb cl Nk Nn F L.
  - simpl. now rewrite !app_nil_r.
  - unfold raw_of_schema. cbn [map for_each fst snd].
    inversion F as [|? ? (s & e & name & (a & b & S & Pa & Pb & Le) & (D & Len & B) & K) F'];
      subst. inversion L as [|? ? Lv L']; subst. cbn [fst snd] in *.
    cbn [map fst] in Nn.
    assert (Body : helpers.format_bits_info_body
                     (fb, cl) (AStr k, helpers.info_dict (raw_of_value v))
                   = Ok ((fb ++ [(k, v)])%list, (cl ++ [name])%list)).
    { unfold helpers.format_bits_info_body.
      rewrite (expand_single_bit_three _ _ _ _ _ S). cbn [bind].
      rewrite K. cbn [bind]. rewrite S.
      rewrite Pa, Pb. cbn [bind].
      assert (N1 : (e - s + 1 <? 1) = false) by (apply Z.ltb_ge; lia).
      rewrite N1. cbn [raise_if].
      rewrite (entry_name_split _ _ _ _ S) in Nn.
      assert (Fresh : list_mem name cl = false)
        by (apply list_mem_not_In; exact (NoDup_fresh _ _ _ Nn)).
      rewrite Fresh. cbn [raise_if helpers.format_bit_value].
      rewrite (format_bit_value_again v [] D).
      2:{ eapply Forall_impl; [|exact B]. intros pl (n & N & _). eauto. }
      2:{ exact Lv. }
      cbn [bind app].
      assert (N2 : (dict_len v >? 2 ^ (e - s + 1)) = false)
        by (rewrite Z.gtb_ltb; apply Z.ltb_ge; exact Len).
      rewrite N2. cbn [raise_if].
      destruct (positions_again _ _ B) as (ns & M & X).
      rewrite M. cbn [bind]. rewrite X. cbn [raise_if].
      rewrite (dict_set_fresh _ _ _ (NoDup_fresh_map fst _ _ (k, v) Nk)).
      reflexivity. }
    rewrite Body. cbn [bind].
    rewrite (entry_name_split _ _ _ _ S) in *.
    replace (fb ++ (k, v) :: out)%list with ((fb ++ [(k, v)]) ++ out)%list
      by now rewrite <- app_assoc.
    replace (cl ++ name :: map entry_name (map fst out))%list
      with ((cl ++ [name]) ++ map entry_name (map fst out))%list
      by now rewrite <- app_assoc.
    apply IH; try assumption; now rewrite <- app_assoc.
Qed.

Lemma dict_values_valid_labels (raw : list (atom * helpers.info))
      (out : helpers.schema) :
  Forall2 (fun item kv => helpers.format_bit_value (snd item) = Ok (snd kv)) raw out ->
  Forall (fun item => exists d, snd item = helpers.info_dict d) raw ->
  Forall (fun kv => valid_labels (snd kv)) out.
Proof.
  induction 1 as [|item kv raw out FV _ IH]; intros D; constructor.
  - apply Forall_inv in D. destruct D as [d Ed]. rewrite Ed in FV. simpl in FV.
    destruct (format_bit_value_loop_facts d [] _ FV) as (_ & _ & F & _);
      [constructor | constructor |].
    eapply Forall_impl; [|exact F]. now intros pl [_ ?].
  - apply IH. now apply Forall_inv_tail in D.
Qed.

(** X8. Normalization is idempotent on what it returns, once the labels
    are valid: when [format_bits_info] returns [out] and every label of
    [out] is a non-empty string that is not an integer -- which holds
    whenever every value of the input was a dict -- then
    [format_bits_info(out)] is [out]. *)
Theorem format_bits_info_idempotent :
  forall (raw : list (atom * helpers.info)) (out : helpers.schema),
    helpers.format_bits_info raw = Ok out ->
    (Forall (fun kv => valid_labels (snd kv)) out ->
     helpers.format_bits_info (raw_of_schema out) = Ok out)
    /\ (Forall (fun item => exists d, snd item = helpers.info_dict d) raw ->
        helpers.format_bits_info (raw_of_schema out) = Ok out).
Proof.
  intros raw out E.
  assert (Again : Forall (fun kv => valid_labels (snd kv)) out ->
                  helpers.format_bits_info (raw_of_schema out) = Ok out).
  { intros L. unfold helpers.format_bits_info in E |- *.
    apply bind_ok in E. destruct E as [st [Lp E]]. injection E as <-.
    destruct (format_bits_info_loop_inv _ _ _ _ Lp eq_refl (NoDup_nil _) (Forall_nil _))
      as (C & N & F & new & Eq & F2).
    simpl in Eq. rewrite C in N.
    rewrite (format_bits_info_again (fst st) [] []); try assumption; try reflexivity.
    simpl. exact (NoDup_map_inv _ _ N). }
  split; [exact Again|].
  intros D. apply Again. unfold helpers.format_bits_info in E.
  apply bind_ok in E. destruct E as [st [Lp E]]. injection E as <-.
  destruct (format_bits_info_loop_inv _ _ _ _ Lp eq_refl (NoDup_nil _) (Forall_nil _))
    as (_ & _ & _ & new & Eq & F2).
  simpl in Eq. rewrite Eq. exact (dict_values_valid_labels _ _ F2 D).
Qed.

Lemma format_bits_info_idempotent_witness :
  exists out, helpers.format_bits_info cloud_schema = Ok out
              /\ helpers.format_bits_info (raw_of_schema out) = Ok out.
Proof.
  destruct (format_bits_info_idempotent cloud_schema _ eq_refl) as [_ A].
  eexists. split; [reflexivity|]. apply A.
  repeat constructor. eexists. reflexivity.
Defined.

(** X9. A bare position with a string for value names the entry after the
    value: for every [n >= 0] and every label, the raw schema [{n: label}]
    -- and [{"n": label}] as well -- is normalized to
    [{"n-n-label": {"1": label}}]. *)
Theorem format_bits_info_bare_position :
  forall (n : Z) (label : string),
    0 <= n ->
    helpers.format_bits_info [(AInt n, helpers.info_str label)]
    = Ok [((Str.of_int n ++ "-" ++ Str.of_int n ++ "-" ++ label)%string,
           [("1", label)])]
    /\ helpers.format_bits_info [(AStr (Str.of_int n), helpers.info_str label)]
       = Ok [((Str.of_int n ++ "-" ++ Str.of_int n ++ "-" ++ label)%string,
              [("1", label)])].
Proof.
  intros n label L.
  pose proof (of_int_no_dash n L) as C.
  pose proof (split_three _ _ label C C) as S.
  assert (Body : forall bit, py_str bit = Str.of_int n ->
    helpers.format_bits_info_body ([], []) (bit, helpers.info_str label)
    = Ok ([((Str.of_int n ++ "-" ++ Str.of_int n ++ "-" ++ label)%string,
            [("1", label)])], [label])).
  { intros bit B. unfold helpers.format_bits_info_body, helpers.expand_single_bit.
    rewrite B, (split_no_sep "-" _ C).
    rewrite (is_int_of_py_int _ _ (py_int_of_int n)). cbn [bind].
    rewrite (format_bit_key_three_parts _ _ _ _ _ _ S (py_int_of_int n) (py_int_of_int n)).
    rewrite gtb_irrefl. cbn [bind]. rewrite S, py_int_of_int. cbn [bind].
    replace (n - n + 1) with 1 by lia. reflexivity. }
  unfold helpers.format_bits_info. cbn [for_each].
  split; rewrite Body; reflexivity.
Qed.

Lemma format_bits_info_bare_position_witness :
  helpers.format_bits_info [(AInt 5, helpers.info_str "Snow")]
  = Ok [("5-5-Snow", [("1", "Snow")])].
Proof.
  exact (proj1 (format_bits_info_bare_position 5 "Snow" ltac:(lia))).
Defined.

(* ================================================================= *)
(** * Further properties: Bit *)

Lemma land_pow2_eqb (z p : Z) :
  0 <= p -> (Z.land z (2 ^ p) =? 0) = negb (Z.testbit z p).
Proof.
  intros L. destruct (Z.testbit z p) eqn:T; simpl.
  - apply Z.eqb_neq. intros E.
    assert (B : Z.testbit (Z.land z (2 ^ p)) p = true)
      by (rewrite Z.land_spec, T, Z.pow2_bits_true; auto).
    rewrite E, Z.bits_0 in B. discriminate.
  - apply Z.eqb_eq. apply Z.bits_inj'. intros n Hn.
    rewrite Z.land_spec, Z.bits_0, Z.pow2_bits_eqb by assumption.
    destruct (Z.eqb_spec p n) as [<-|N]; [now rewrite T | apply andb_false_r].
Qed.

Lemma min_value_pow2 (b : Bit.t) :
  0 <= Bit.position b -> Bit.min_value b = Ok (2 ^ Bit.position b).
Proof.
  intros L. unfold Bit.min_value, py_lshift.
  destruct (Z.ltb_spec (Bit.position b) 0); [lia|]. now rewrite Z.shiftl_1_l.
Qed.

(** X10. For a bit at a position [p >= 0] and a value that is an [int]
    (or a [bool]): [is_positive] reads bit [p] of the value and
    [is_negative] is its negation.  A value that is not an [int] raises
    the [TypeError] in both; a negative position, which the constructor
    lets in, makes both raise on the shift. *)
Theorem Bit_is_positive_reads_the_bit :
  forall (b : Bit.t) (value : pyval),
    (forall z, Bit.as_int value = Ok z -> 0 <= Bit.position b ->
               Bit.is_positive b value = Ok (Z.testbit z (Bit.position b))
               /\ Bit.is_negative b value = Ok (negb (Z.testbit z (Bit.position b))))
    /\ (forall e, Bit.as_int value = Raise e ->
                  e = Bit.value_not_int
                  /\ Bit.is_positive b value = Raise Bit.value_not_int
                  /\ Bit.is_negative b value = Raise Bit.value_not_int)
    /\ (forall z, Bit.as_int value = Ok z -> Bit.position b < 0 ->
                  Bit.is_positive b value = Raise (ValueError "negative shift count")
                  /\ Bit.is_negative b value = Raise (ValueError "negative shift count")).
Proof.
  intros b value. unfold Bit.is_positive, Bit.is_negative. split; [|split].
  - intros z A L. rewrite A, (min_value_pow2 b L). cbn [bind].
    rewrite (land_pow2_eqb z _ L). now rewrite negb_involutive.
  - intros e A. rewrite A. cbn [bind].
    destruct value; simpl in A; try discriminate; injection A as <-; auto.
  - intros z A L. rewrite A. unfold Bit.min_value, py_lshift.
    destruct (Z.ltb_spec (Bit.position b) 0); [split; reflexivity | lia].
Qed.

Lemma Bit_is_positive_witness :
  Bit.is_positive bit_snow (PyInt 78) = Ok true
  /\ Bit.is_negative bit_snow (PyInt 82) = Ok true
  /\ Bit.is_positive bit_snow (PyStr "4") = Raise Bit.value_not_int.
Proof.
  split; [|split].
  - exact (proj1 (proj1 (Bit_is_positive_reads_the_bit bit_snow (PyInt 78))
                        78 eq_refl ltac:(simpl; lia))).
  - exact (proj2 (proj1 (Bit_is_positive_reads_the_bit bit_snow (PyInt 82))
                        82 eq_refl ltac:(simpl; lia))).
  - exact (proj1 (proj2 (proj1 (proj2 (Bit_is_positive_reads_the_bit
                                          bit_snow (PyStr "4"))) _ eq_refl))).
Defined.

Lemma filter_m_pure {A} (f : A -> bool) (test : A -> result bool) (l : list A) :
  (forall x, In x l -> test x = Ok (f x)) ->
  filter_m test l = Ok (filter f l).
Proof.
  induction l as [|x l IH]; simpl; intros T; [reflexivity|].
  rewrite (T x (or_introl eq_refl)), IH by (intros; apply T; now right).
  simpl. now destruct (f x).
Qed.

Lemma filter_all {A} (f : A -> bool) (l : list A) :
  (forall x, In x l -> f x = true) -> filter f l = l.
Proof.
  induction l as [|x l IH]; simpl; intros T; [reflexivity|].
  rewrite (T x (or_introl eq_refl)), IH; auto.
Qed.

Lemma filter_none {A} (f : A -> bool) (l : list A) :
  (forall x, In x l -> f x = false) -> filter f l = [].
Proof.
  induction l as [|x l IH]; simpl; intros T; [reflexivity|].
  rewrite (T x (or_introl eq_refl)), IH; auto.
Qed.

Lemma map_seq_shift (a : Z) (m : nat) :
  forall n k,
    map (fun i => a + Z.of_nat i) (seq (k + m) n)
    = map (fun i => a + Z.of_nat m + Z.of_nat i) (seq k n).
Proof.
  induction n as [|n IH]; intros k; simpl; [reflexivity|].
  f_equal; [lia|]. exact (IH (S k)).
Qed.

Lemma py_range_app (a b c : Z) :
  a <= b <= c -> py_range a c = (py_range a b ++ py_range b c)%list.
Proof.
  intros R. unfold py_range.
  replace (Z.to_nat (c - a)) with (Z.to_nat (b - a) + Z.to_nat (c - b))%nat by lia.
  rewrite seq_app, map_app. f_equal.
  rewrite (map_seq_shift a (Z.to_nat (b - a)) (Z.to_nat (c - b)) 0).
  apply map_ext. intros i. lia.
Qed.

Lemma testbit_high (n p : Z) :
  0 <= p -> 2 ^ p <= n < 2 ^ (p + 1) -> Z.testbit n p = true.
Proof.
  intros L R. assert (P : 0 < 2 ^ p) by (apply Z.pow_pos_nonneg; lia).
  assert (E : Z.log2 n = p)
    by (apply Z.log2_unique; [exact L | rewrite <- Z.add_1_r; exact R]).
  rewrite <- E. apply Z.bit_log2. lia.
Qed.

Lemma testbit_low (n p : Z) :
  0 <= p -> 0 <= n < 2 ^ p -> Z.testbit n p = false.
Proof.
  intros L R. destruct (Z.eq_dec n 0) as [->|N]; [apply Z.bits_0|].
  apply Z.bits_above_log2; [lia|]. apply Z.log2_lt_pow2; lia.
Qed.

Lemma Bit_is_positive_int (b : Bit.t) (n : Z) :
  0 <= Bit.position b ->
  Bit.is_positive b (PyInt n) = Ok (Z.testbit n (Bit.position b))
  /\ Bit.is_negative b (PyInt n) = Ok (negb (Z.testbit n (Bit.position b))).
Proof.
  intros L. unfold Bit.is_positive, Bit.is_negative. simpl.
  rewrite (min_value_pow2 b L). cbn [bind].
  rewrite (land_pow2_eqb n _ L). now rewrite negb_involutive.
Qed.

Lemma py_lshift_pow2 (k : Z) : 0 <= k -> py_lshift 1 k = Ok (2 ^ k).
Proof.
  intros L. unfold py_lshift. destruct (Z.ltb_spec k 0); [lia|].
  now rewrite Z.shiftl_1_l.
Qed.

(** X11. For a bit at a position [p >= 0] and [k >= -1]:
    [positive_values(k)] lists, in order, the integers of
    [[2^p, 2^(k+1))] that have bit [p], and [negative_values(k)] those of
    [[0, 2^(k+1))] that do not; by default ([k = p]) they are the two
    halves of [[0, 2^(p+1))]: [negative_values()] is [0 .. 2^p - 1] and
    [positive_values()] is [2^p .. 2^(p+1) - 1].  For [k <= -2] both
    raise the [ValueError] of the negative shift count. *)
Theorem Bit_values_enumerate_the_range :
  forall b : Bit.t,
    0 <= Bit.position b ->
    (forall k, -1 <= k ->
       Bit.positive_values b (Some k)
       = Ok (filter (fun n => Z.testbit n (Bit.position b))
                    (py_range (2 ^ Bit.position b) (2 ^ (k + 1))))
       /\ Bit.negative_values b (Some k)
          = Ok (filter (fun n => negb (Z.testbit n (Bit.position b)))
                       (py_range 0 (2 ^ (k + 1)))))
    /\ Bit.positive_values b None
       = Ok (py_range (2 ^ Bit.position b) (2 ^ (Bit.position b + 1)))
    /\ Bit.negative_values b None = Ok (py_range 0 (2 ^ Bit.position b))
    /\ (forall k, k < -1 ->
          Bit.positive_values b (Some k) = Raise (ValueError "negative shift count")
          /\ Bit.negative_values b (Some k) = Raise (ValueError "negative shift count")).
Proof.
  intros b L.
  assert (G : forall k, -1 <= k ->
       Bit.positive_values b (Some k)
       = Ok (filter (fun n => Z.testbit n (Bit.position b))
                    (py_range (2 ^ Bit.position b) (2 ^ (k + 1))))
       /\ Bit.negative_values b (Some k)
          = Ok (filter (fun n => negb (Z.testbit n (Bit.position b)))
                       (py_range 0 (2 ^ (k + 1))))).
  { intros k K. unfold Bit.positive_values, Bit.negative_values.
    rewrite (min_value_pow2 b L), py_lshift_pow2 by lia. cbn [bind].
    split; apply filter_m_pure; intros x _; apply (Bit_is_positive_int b x L). }
  split; [exact G|].
  assert (P : 0 < 2 ^ Bit.position b) by (apply Z.pow_pos_nonneg; lia).
  assert (D : 2 ^ (Bit.position b + 1) = 2 * 2 ^ Bit.position b)
    by (rewrite Z.pow_add_r by lia; lia).
  split; [|split].
  - change (Bit.positive_values b None)
      with (Bit.positive_values b (Some (Bit.position b))).
    rewrite (proj1 (G (Bit.position b) ltac:(lia))). f_equal. apply filter_all.
    intros n I. apply In_py_range in I. now apply testbit_high.
  - change (Bit.negative_values b None)
      with (Bit.negative_values b (Some (Bit.position b))).
    rewrite (proj2 (G (Bit.position b) ltac:(lia))). f_equal.
    rewrite (py_range_app 0 (2 ^ Bit.position b)) by lia.
    rewrite filter_app, filter_all, filter_none; [apply app_nil_r | |].
    + intros n I. apply In_py_range in I. now rewrite testbit_high.
    + intros n I. apply In_py_range in I. now rewrite testbit_low.
  - intros k K. unfold Bit.positive_values, Bit.negative_values.
    rewrite (min_value_pow2 b L). cbn [bind]. unfold py_lshift.
    replace (k + 1 <? 0) with true by lia. split; reflexivity.
Qed.

Lemma Bit_values_witness :
  Bit.positive_values bit_snow None = Ok [4; 5; 6; 7]
  /\ Bit.negative_values bit_snow None = Ok [0; 1; 2; 3]
  /\ Bit.positive_values bit_snow (Some (-2)) = Raise (ValueError "negative shift count").
Proof.
  destruct (Bit_values_enumerate_the_range bit_snow ltac:(simpl; lia))
    as (_ & P & N & R).
  split; [exact P|]. split; [exact N|]. exact (proj1 (R (-2) ltac:(lia))).
Defined.

(** X12. A bit and the group it is promoted to agree: [to_bit_group]
    gives a group of the bit's position alone, with the two labels in
    lower case under the keys 0 and 1, and [decode_value] of the group
    returns the positive label, in lower case, where [is_positive] of
    the bit holds and the negative label where it does not.  So, when
    the two labels differ in lower case, [decode_value] returns the
    positive label exactly when [is_positive] holds; when they are the
    same in lower case, it returns that label for every value. *)
Theorem to_bit_group_agrees_with_the_bit :
  forall (b : Bit.t) (description : string) (g : BitGroup.t),
    Bit.to_bit_group b description = Ok g ->
    BitGroup.min_position g = Bit.position b
    /\ BitGroup.max_position g = Bit.position b
    /\ BitGroup.description g = Str.lower description
    /\ BitGroup.value_map g
       = [(0, Str.lower (Bit.negative b)); (1, Str.lower (Bit.positive b))]
    /\ (forall v,
         exists r, Bit.is_positive b (PyInt v) = Ok r
                   /\ BitGroup.decode_value g v
                      = Some (Str.lower (if r then Bit.positive b else Bit.negative b)))
    /\ (Str.lower (Bit.positive b) <> Str.lower (Bit.negative b) ->
        forall v, BitGroup.decode_value g v = Some (Str.lower (Bit.positive b))
                  <-> Bit.is_positive b (PyInt v) = Ok true)
    /\ (Str.lower (Bit.positive b) = Str.lower (Bit.negative b) ->
        forall v, BitGroup.decode_value g v = Some (Str.lower (Bit.positive b))).
Proof.
  intros b description g E. unfold Bit.to_bit_group in E.
  destruct (BitGroup_init_facts _ _ _ _ _ E) as (Pmin & Pmax & R & _ & D & Lp).
  injection Pmin as Pmin. injection Pmax as Pmax.
  apply (init_body_loop _ [(0, Bit.negative b); (1, Bit.positive b)] []) in Lp.
  simpl in Lp.
  assert (A : forall v,
         exists r, Bit.is_positive b (PyInt v) = Ok r
                   /\ BitGroup.decode_value g v
                      = Some (Str.lower (if r then Bit.positive b else Bit.negative b))).
  { intros v. assert (L : 0 <= Bit.position b) by lia.
    exists (Z.testbit v (Bit.position b)).
    split; [apply (Bit_is_positive_int b v L)|].
    unfold BitGroup.decode_value. rewrite group_mask_ones, Lp, <- Pmin, <- Pmax.
    replace (Bit.position b - Bit.position b + 1) with 1 by lia.
    rewrite Z.land_ones by lia. change (2 ^ 1) with 2.
    rewrite <- Z.bit0_mod, Z.shiftr_spec by lia. simpl.
    now destruct (Z.testbit v (Bit.position b)). }
  split; [congruence|]. split; [congruence|]. split; [assumption|].
  split; [assumption|]. split; [exact A|]. split.
  - intros Ne v. destruct (A v) as (r & P & Dv). rewrite P, Dv.
    destruct r; split; try reflexivity; try discriminate.
    intros [= Q]. symmetry in Q. contradiction.
  - intros Q v. destruct (A v) as (r & _ & Dv). rewrite Dv.
    destruct r; [reflexivity | now rewrite Q].
Qed.

Lemma to_bit_group_witness :
  exists g, Bit.to_bit_group bit_snow "Snow" = Ok g
            /\ BitGroup.decode_value g 78 = Some "snow"
            /\ BitGroup.decode_value g 82 = Some "no snow"
            /\ (BitGroup.decode_value g 78 = Some "snow"
                <-> Bit.is_positive bit_snow (PyInt 78) = Ok true).
Proof.
  destruct (to_bit_group_agrees_with_the_bit bit_snow "Snow" _ eq_refl)
    as (_ & _ & _ & _ & A & I & _).
  eexists. split; [reflexivity|]. split; [|split].
  - destruct (A 78) as (r & P & ->). injection P as <-. reflexivity.
  - destruct (A 82) as (r & P & ->). injection P as <-. reflexivity.
  - exact (I ltac:(discriminate) 78).
Defined.

(* ================================================================= *)
(** * Further properties: BitGroup *)

Lemma is_str_lower (s : string) :
  helpers.is_str (PyStr s) = Ok true ->
  helpers.is_str (PyStr (Str.lower s)) = Ok true.
Proof.
  intros E. apply is_str_true_iff in E. destruct E as (s' & [= <-] & N & T).
  apply is_str_true_iff. exists (Str.lower s). repeat split.
  - destruct s; [contradiction | discriminate].
  - now rewrite to_int_lower.
Qed.

(** One round of the validation loop of the constructor. *)
Lemma init_body_step (nv : Z) (acc : list (Z * string)) (item : pyval * pyval)
      (r : list (Z * string)) :
  BitGroup.init_body nv acc item = Ok r ->
  exists k s,
    py_int (fst item) = Ok k /\ snd item = PyStr s
    /\ helpers.is_str (PyStr s) = Ok true
    /\ ~ In k (map fst acc) /\ 0 <= k < nv
    /\ r = (acc ++ [(k, Str.lower s)])%list.
Proof.
  destruct item as [key v]. unfold BitGroup.init_body. intros E. inv_ok E. to_prop.
  match goal with H : py_lower _ = Ok ?l |- _ => rename H into Lw; rename l into low end.
  match goal with H : py_int _ = Ok ?z |- _ => rename H into P; rename z into k end.
  match goal with H : dict_mem _ _ = false |- _ =>
    apply dict_mem_false_not_In in H; rename H into Fresh end.
  match goal with H : helpers.is_str _ = Ok _ |- _ => rename H into S end.
  destruct v as [| | | |s]; simpl in Lw; try discriminate. injection Lw as <-.
  exists k, s. simpl. repeat split; try assumption; try lia.
  - congruence.
  - subst r. now apply dict_set_fresh.
Qed.

Lemma init_body_loop_inv (nv : Z) (vm : list (pyval * pyval)) :
  forall acc r,
    for_each (BitGroup.init_body nv) vm acc = Ok r ->
    NoDup (map fst acc) ->
    Forall (fun kv => 0 <= fst kv < nv /\ kept_label (snd kv)) acc ->
    NoDup (map fst r)
    /\ Forall (fun kv => 0 <= fst kv < nv /\ kept_label (snd kv)) r
    /\ exists new,
         r = (acc ++ new)%list
         /\ Forall2 (fun item kv => py_int (fst item) = Ok (fst kv)
                                    /\ exists s, snd item = PyStr s
                                                 /\ snd kv = Str.lower s) vm new.
Proof.
  induction vm as [|item vm IH]; simpl; intros acc r E N F.
  - injection E as <-. repeat split; try assumption.
    exists []. split; [now rewrite app_nil_r | constructor].
  - apply bind_ok in E. destruct E as [acc1 [B E]].
    destruct (init_body_step _ _ _ _ B) as (k & s & P & V & S & Fresh & R & ->).
    destruct (IH _ _ E) as (N' & F' & new & -> & F2).
    + rewrite map_app. simpl. apply NoDup_app; [assumption | repeat constructor; auto |].
      intros a Ia [<-|[]]. contradiction.
    + apply Forall_app. split; [assumption|]. repeat constructor; simpl; try lia.
      * now apply is_str_lower.
      * apply lower_lower.
    + repeat split; try assumption.
      exists ((k, Str.lower s) :: new). rewrite <- app_assoc. split; [reflexivity|].
      constructor; [|assumption]. simpl. eauto.
Qed.

(** What [__init__] has checked when it returns. *)
Lemma BitGroup_init_checked d mn mx vm g :
  BitGroup.init d mn mx vm = Ok g ->
  BitGroup.value_map g <> []
  /\ (BitGroup.min_position g = BitGroup.max_position g ->
      List.length (BitGroup.value_map g) = 1%nat ->
      dict_mem 1 (BitGroup.value_map g) = true)
  /\ BitGroup._reverse_value_map g
     = dict_of_items (map (fun kv => (snd kv, fst kv)) (BitGroup.value_map g)).
Proof.
  unfold BitGroup.init. intros E. inv_ok E. subst g. simpl.
  match goal with H : (dict_len ?m =? 0) = false |- _ => rename H into NE end.
  match goal with H : (_ && _ && _)%bool = false |- _ => rename H into SB end.
  repeat split.
  - intros ->. discriminate.
  - intros Eq Len. unfold dict_len in SB. rewrite Len in SB.
    apply Z.eqb_eq in Eq. rewrite Eq in SB. simpl in SB.
    now apply negb_false_iff in SB.
Qed.

Lemma keys_in_range_length (nv : Z) (keys : list Z) :
  NoDup keys -> Forall (fun k => 0 <= k < nv) keys ->
  Z.of_nat (List.length keys) <= Z.max 0 nv.
Proof.
  intros N F.
  assert (I : incl keys (py_range 0 nv)).
  { intros k Ik. apply In_py_range. exact (proj1 (Forall_forall _ _) F k Ik). }
  pose proof (NoDup_incl_length N I) as L.
  unfold py_range in L. rewrite length_map, length_seq in L. lia.
Qed.

(** X13. What the constructor of BitGroup guarantees: positions
    [0 <= min <= max], [n_values = 2^(max-min+1)] and
    [group_mask = n_values - 1]; the description in lower case; a value
    map that is not empty, has one entry for each entry given, no key
    twice, at most [n_values] entries, every key in [[0, n_values)] and
    every label a non-empty non-numeric string in lower case; and, for a
    group of one bit with one entry, the key 1. *)
Theorem BitGroup_constructor_invariants :
  forall d mn mx vm g,
    BitGroup.init d mn mx vm = Ok g ->
    0 <= BitGroup.min_position g <= BitGroup.max_position g
    /\ BitGroup.n_values g = 2 ^ (BitGroup.max_position g - BitGroup.min_position g + 1)
    /\ BitGroup.group_mask g = BitGroup.n_values g - 1
    /\ BitGroup.description g = Str.lower d
    /\ BitGroup.value_map g <> []
    /\ List.length (BitGroup.value_map g) = List.length vm
    /\ NoDup (map fst (BitGroup.value_map g))
    /\ dict_len (BitGroup.value_map g) <= BitGroup.n_values g
    /\ Forall (fun kv => 0 <= fst kv < BitGroup.n_values g /\ kept_label (snd kv))
              (BitGroup.value_map g)
    /\ (BitGroup.min_position g = BitGroup.max_position g ->
        List.length (BitGroup.value_map g) = 1%nat ->
        dict_mem 1 (BitGroup.value_map g) = true).
Proof.
  intros d mn mx vm g E.
  destruct (BitGroup_init_facts _ _ _ _ _ E) as (_ & _ & R & Nv & D & Lp).
  destruct (BitGroup_init_checked _ _ _ _ _ E) as (NE & SB & _).
  destruct (init_body_loop_inv _ _ _ _ Lp (NoDup_nil _) (Forall_nil _))
    as (N & F & new & Eq & F2).
  simpl in Eq.
  repeat split; try assumption; try lia.
  - rewrite group_mask_ones, Z.ones_equiv, Nv. lia.
  - rewrite Eq. symmetry. exact (Forall2_length F2).
  - unfold dict_len. rewrite <- (length_map fst).
    assert (P : 0 < BitGroup.n_values g)
      by (rewrite Nv; apply Z.pow_pos_nonneg; lia).
    pose proof (keys_in_range_length (BitGroup.n_values g) _ N) as L.
    rewrite Z.max_r in L by lia. apply L.
    apply Forall_map. eapply Forall_impl; [|exact F]. now intros kv [? _].
Qed.

Lemma BitGroup_constructor_witness :
  NoDup (map fst (BitGroup.value_map cloud_levels_group))
  /\ dict_len (BitGroup.value_map cloud_levels_group) <= 4.
Proof.
  destruct (BitGroup_constructor_invariants _ _ _ _ _ cloud_levels_init)
    as (_ & _ & _ & _ & _ & _ & N & L & _).
  split; [exact N | exact L].
Defined.

(* ----------------------------------------------------------------- *)
(** ** The reverse map and the lookups by label *)

Section DictOfItems.
Context {K V : Type} `{KeyEqLaws K}.

Lemma dict_get_app (k : K) (d1 d2 : list (K * V)) :
  dict_get k (d1 ++ d2)%list
  = match dict_get k d1 with Some v => Some v | None => dict_get k d2 end.
Proof.
  induction d1 as [|[k' v'] d1 IH]; simpl; [reflexivity|].
  now destruct (keqb k k').
Qed.

(** In a comprehension the last pair of a key is the one that stays. *)
Lemma dict_get_update (k : K) (items : list (K * V)) :
  forall d,
    dict_get k (dict_update d items)
    = match dict_get k (List.rev items) with
      | Some v => Some v
      | None => dict_get k d
      end.
Proof.
  unfold dict_update. induction items as [|[k0 v0] items IH]; simpl; intros d.
  - reflexivity.
  - rewrite IH, dict_get_app. destruct (dict_get k (List.rev items)); [reflexivity|].
    simpl. destruct (keqb k k0) eqn:E.
    + apply keqb_eq in E. subst. apply dict_get_set_same.
    + apply keqb_neq in E. now apply dict_get_set_other.
Qed.

Lemma dict_get_of_items (k : K) (items : list (K * V)) :
  dict_get k (dict_of_items items) = dict_get k (List.rev items).
Proof.
  unfold dict_of_items. rewrite dict_get_update.
  now destruct (dict_get k (List.rev items)).
Qed.

End DictOfItems.

Lemma reverse_map_get (g : BitGroup.t) d mn mx vm (l : string) :
  BitGroup.init d mn mx vm = Ok g ->
  dict_get l (BitGroup._reverse_value_map g)
  = dict_get l (List.rev (map (fun kv => (snd kv, fst kv)) (BitGroup.value_map g))).
Proof.
  intros E. destruct (BitGroup_init_checked _ _ _ _ _ E) as (_ & _ & ->).
  apply dict_get_of_items.
Qed.

Lemma reverse_keys (m : list (Z * string)) :
  map fst (List.rev (map (fun kv => (snd kv, fst kv)) m)) = List.rev (map snd m).
Proof. now rewrite map_rev, map_map. Qed.

Lemma BitGroup_keys_NoDup d mn mx vm g :
  BitGroup.init d mn mx vm = Ok g ->
  NoDup (map fst (BitGroup.value_map g))
  /\ Forall (fun kv => 0 <= fst kv < BitGroup.n_values g /\ kept_label (snd kv))
            (BitGroup.value_map g).
Proof.
  intros E. destruct (BitGroup_init_facts _ _ _ _ _ E) as (_ & _ & _ & _ & _ & Lp).
  destruct (init_body_loop_inv _ _ _ _ Lp (NoDup_nil _) (Forall_nil _)) as (N & F & _).
  now split.
Qed.

(** What the reverse map answers for a label. *)
Lemma reverse_map_facts d mn mx vm g (l : string) :
  BitGroup.init d mn mx vm = Ok g ->
  (forall k, dict_get l (BitGroup._reverse_value_map g) = Some k ->
             dict_get k (BitGroup.value_map g) = Some l)
  /\ (dict_get l (BitGroup._reverse_value_map g) = None
      <-> ~ In l (map snd (BitGroup.value_map g)))
  /\ (forall pre k post,
        BitGroup.value_map g = (pre ++ (k, l) :: post)%list ->
        ~ In l (map snd post) ->
        dict_get l (BitGroup._reverse_value_map g) = Some k)
  /\ (NoDup (map snd (BitGroup.value_map g)) ->
      forall k, dict_get k (BitGroup.value_map g) = Some l ->
                dict_get l (BitGroup._reverse_value_map g) = Some k).
Proof.
  intros E. destruct (BitGroup_keys_NoDup _ _ _ _ _ E) as (N & _).
  rewrite (reverse_map_get _ _ _ _ _ l E).
  split; [|split; [|split]].
  - intros k G. apply dict_get_Some_In in G. apply in_rev in G.
    apply in_map_iff in G. destruct G as ([k' l'] & [= <- <-] & I).
    now apply dict_get_In_pair.
  - rewrite dict_get_In, reverse_keys. now rewrite <- in_rev.
  - intros pre k post -> Np.
    rewrite map_app, rev_app_distr. simpl. rewrite <- app_assoc, dict_get_app.
    assert (G : dict_get l (List.rev (map (fun kv : Z * string => (snd kv, fst kv)) post))
                = None).
    { apply dict_get_In. rewrite reverse_keys. now rewrite <- in_rev. }
    rewrite G. simpl. now rewrite String.eqb_refl.
  - intros Nl k G. apply dict_get_Some_In in G.
    apply dict_get_In_pair.
    + rewrite reverse_keys. now apply NoDup_rev.
    + apply -> in_rev. apply in_map_iff. now exists (k, l).
Qed.

(** X14. The two lookups of a BitGroup are inverse to each other as far
    as the labels allow: the key found for a label carries that label;
    a label is refused with [ValueError] exactly when no entry has it and
    a key exactly when the value map lacks it; for a label that several
    keys share, the key of the last such entry is returned; and when the
    labels are pairwise distinct, the label found for a key leads back to
    that key. *)
Theorem BitGroup_lookups_are_inverse :
  forall d mn mx vm g,
    BitGroup.init d mn mx vm = Ok g ->
    forall l : string,
      (forall k, BitGroup._get_key_for_bit_value g l = Ok k ->
                 BitGroup._get_value_for_bit_key g k = Ok l)
      /\ (BitGroup._get_key_for_bit_value g l = Raise BitGroup.value_not_found
          <-> ~ In l (map snd (BitGroup.value_map g)))
      /\ (forall k, BitGroup._get_value_for_bit_key g k = Raise BitGroup.key_not_found
                    <-> ~ In k (map fst (BitGroup.value_map g)))
      /\ (forall pre k post,
            BitGroup.value_map g = (pre ++ (k, l) :: post)%list ->
            ~ In l (map snd post) ->
            BitGroup._get_key_for_bit_value g l = Ok k)
      /\ (NoDup (map snd (BitGroup.value_map g)) ->
          forall k, BitGroup._get_value_for_bit_key g k = Ok l ->
                    BitGroup._get_key_for_bit_value g l = Ok k).
Proof.
  intros d mn mx vm g E l.
  destruct (reverse_map_facts _ _ _ _ _ l E) as (S & A & L & I).
  unfold BitGroup._get_key_for_bit_value, BitGroup._get_value_for_bit_key.
  split; [|split; [|split; [|split]]].
  - intros k G. destruct (dict_get l _) as [k'|] eqn:R; [|discriminate].
    injection G as ->. now rewrite (S _ eq_refl).
  - rewrite <- A. destruct (dict_get l _); split; congruence.
  - intros k. rewrite <- dict_get_In.
    destruct (dict_get k _); split; congruence.
  - intros pre k post V Np. now rewrite (L _ _ _ V Np).
  - intros Nl k G. destruct (dict_get k _) as [l'|] eqn:R; [|discriminate].
    injection G as ->. now rewrite (I Nl _ R).
Qed.

Lemma BitGroup_lookups_witness :
  BitGroup._get_value_for_bit_key cloud_levels_group 2 = Ok "medium clouds"
  /\ BitGroup._get_key_for_bit_value cloud_levels_group "medium clouds" = Ok 2.
Proof.
  split; [reflexivity|].
  refine (proj2 (proj2 (proj2 (proj2
    (BitGroup_lookups_are_inverse _ _ _ _ _ cloud_levels_init "medium clouds")))) _ 2 eq_refl).
  repeat constructor; simpl; intuition discriminate.
Defined.

Lemma is_positive_by_key_int (g : BitGroup.t) (v k : Z) :
  dict_mem k (BitGroup.value_map g) = true ->
  BitGroup.is_positive_by_key g v (PyInt k)
  = Ok (Z.land (Z.shiftr v (BitGroup.min_position g)) (BitGroup.group_mask g) =? k).
Proof. unfold BitGroup.is_positive_by_key. simpl. now intros ->. Qed.

Lemma dict_get_mem {V} (k : Z) (v : V) (d : list (Z * V)) :
  dict_get k d = Some v -> dict_mem k d = true.
Proof. unfold dict_mem. now intros ->. Qed.

(** [is_positive_by_description] once the label is resolved. *)
Lemma is_positive_by_description_resolved d mn mx vm g (v : Z) (l : string) (k : Z) :
  BitGroup.init d mn mx vm = Ok g ->
  dict_get l (BitGroup._reverse_value_map g) = Some k ->
  BitGroup.is_positive_by_description g v l
  = Ok (Z.land (Z.shiftr v (BitGroup.min_position g)) (BitGroup.group_mask g) =? k).
Proof.
  intros E R. unfold BitGroup.is_positive_by_description, BitGroup._get_key_for_bit_value.
  rewrite R. cbn [bind]. apply is_positive_by_key_int.
  destruct (reverse_map_facts _ _ _ _ _ l E) as (S & _).
  exact (dict_get_mem _ _ _ (S _ R)).
Qed.

(** X15. [is_positive_by_description] against [decode_value], for a
    BitGroup built by the constructor: a label that no entry has is
    refused with [ValueError], any other label gets an answer; a positive
    answer for a label means [decode_value] gives that label; when the
    labels are pairwise distinct the converse holds too; and when two
    keys share a label, some value decodes to that label and is still
    answered negatively. *)
Theorem is_positive_by_description_against_decode_value :
  forall d mn mx vm g,
    BitGroup.init d mn mx vm = Ok g ->
    forall (v : Z) (l : string),
      (~ In l (map snd (BitGroup.value_map g)) ->
       BitGroup.is_positive_by_description g v l = Raise BitGroup.value_not_found)
      /\ (In l (map snd (BitGroup.value_map g)) ->
          exists b, BitGroup.is_positive_by_description g v l = Ok b)
      /\ (BitGroup.is_positive_by_description g v l = Ok true ->
          BitGroup.decode_value g v = Some l)
      /\ (NoDup (map snd (BitGroup.value_map g)) ->
          BitGroup.decode_value g v = Some l ->
          BitGroup.is_positive_by_description g v l = Ok true)
      /\ (forall k1 k2, k1 <> k2 ->
            In (k1, l) (BitGroup.value_map g) -> In (k2, l) (BitGroup.value_map g) ->
            exists v', BitGroup.decode_value g v' = Some l
                       /\ BitGroup.is_positive_by_description g v' l = Ok false).
Proof.
  intros d mn mx vm g E v l.
  destruct (reverse_map_facts _ _ _ _ _ l E) as (S & A & _ & I).
  destruct (BitGroup_keys_NoDup _ _ _ _ _ E) as (N & F).
  split; [|split; [|split; [|split]]].
  - intros Nl. apply A in Nl.
    unfold BitGroup.is_positive_by_description, BitGroup._get_key_for_bit_value.
    now rewrite Nl.
  - intros Il. case_eq (dict_get l (BitGroup._reverse_value_map g)); [intros k R | intros R].
    + eexists. exact (is_positive_by_description_resolved _ _ _ _ _ v l k E R).
    + apply A in R. contradiction.
  - intros P. case_eq (dict_get l (BitGroup._reverse_value_map g)); [intros k R | intros R].
    + rewrite (is_positive_by_description_resolved _ _ _ _ _ v l k E R) in P.
      injection P as P. apply Z.eqb_eq in P.
      unfold BitGroup.decode_value. rewrite P. now apply S.
    + unfold BitGroup.is_positive_by_description, BitGroup._get_key_for_bit_value in P.
      rewrite R in P. discriminate.
  - intros Nl D. unfold BitGroup.decode_value in D.
    rewrite (is_positive_by_description_resolved _ _ _ _ _ v l _ E (I Nl _ D)).
    now rewrite Z.eqb_refl.
  - intros k1 k2 Ne I1 I2.
    case_eq (dict_get l (BitGroup._reverse_value_map g)); [intros k R | intros R].
    + assert (C : exists k', k' <> k /\ In (k', l) (BitGroup.value_map g)).
      { destruct (Z.eq_dec k1 k) as [->|N1]; [exists k2 | exists k1]; split; auto. }
      destruct C as (k' & Nk & Ik).
      assert (Rg : 0 <= k' < BitGroup.n_values g).
      { exact (proj1 (proj1 (Forall_forall _ _) F _ Ik)). }
      exists (Z.shiftl k' (BitGroup.min_position g)). split.
      * unfold BitGroup.decode_value.
        rewrite (group_value_shiftl _ _ _ _ _ k' E Rg).
        now apply dict_get_In_pair.
      * rewrite (is_positive_by_description_resolved _ _ _ _ _ _ l k E R).
        rewrite (group_value_shiftl _ _ _ _ _ k' E Rg).
        apply Z.eqb_neq in Nk. now rewrite Nk.
    + apply A in R. exfalso. apply R. apply in_map_iff. now exists (k1, l).
Qed.

Lemma is_positive_by_description_witness :
  BitGroup.decode_value cloud_levels_group 221 = Some "medium clouds"
  /\ BitGroup.is_positive_by_description cloud_levels_group 221 "medium clouds" = Ok true.
Proof.
  split; [reflexivity|].
  refine (proj1 (proj2 (proj2 (proj2
    (is_positive_by_description_against_decode_value
       _ _ _ _ _ cloud_levels_init 221 "medium clouds")))) _ eq_refl).
  repeat constructor; simpl; intuition discriminate.
Defined.

(* ----------------------------------------------------------------- *)
(** ** The names of a group *)

(** X16. [bit_values] of a BitGroup built by the constructor: the
    subscripts [value_map[1]] and [value_map[0]] never fail, and there is
    one name for each entry of the value map.  In a group of one bit the
    description is one of the names and any other name is the label of
    key 0; in a wider group the names are ["<description> - <label>"] in
    the order of the value map. *)
Theorem BitGroup_bit_values_never_fail :
  forall d mn mx vm g,
    BitGroup.init d mn mx vm = Ok g ->
    exists names,
      BitGroup.bit_values g = Some names
      /\ List.length names = List.length (BitGroup.value_map g)
      /\ (BitGroup.min_position g = BitGroup.max_position g ->
          In (BitGroup.description g) names
          /\ forall n, In n names ->
                       n = BitGroup.description g
                       \/ dict_get 0 (BitGroup.value_map g) = Some n)
      /\ (BitGroup.min_position g < BitGroup.max_position g ->
          names = map (fun kv => BitGroup.BAND_NAME_PATTERN (BitGroup.description g) (snd kv))
                      (BitGroup.value_map g)).
Proof.
  intros d mn mx vm g E.
  destruct (BitGroup_init_facts _ _ _ _ _ E) as (_ & _ & R & Nv & _).
  destruct (BitGroup_init_checked _ _ _ _ _ E) as (NE & _ & _).
  destruct (BitGroup_keys_NoDup _ _ _ _ _ E) as (N & F).
  unfold BitGroup.bit_values.
  destruct (BitGroup.min_position g =? BitGroup.max_position g) eqn:Q.
  - apply Z.eqb_eq in Q.
    assert (Nv2 : BitGroup.n_values g = 2).
    { rewrite Nv, Q. now replace (_ - _ + 1) with 1 by lia. }
    rewrite Nv2 in F.
    destruct (BitGroup.value_map g) as [|[a la] [|[b lb] [|c rest]]] eqn:V.
    + contradiction.
    + exists [BitGroup.description g]. simpl. repeat split; auto; try lia.
      intros n [<-|[]]. now left.
    + inversion F as [|? ? [Ha _] F']; subst. inversion F' as [|? ? [Hb _] _]; subst.
      simpl in Ha, Hb. inversion N as [|? ? Nab _]; subst. simpl in Nab.
      assert (C : (a = 0 /\ b = 1) \/ (a = 1 /\ b = 0)) by lia.
      destruct C as [[-> ->]|[-> ->]]; simpl;
        destruct (String.eqb (BitGroup.description g) _);
        eexists; (split; [reflexivity|]); simpl;
        (repeat split; auto; try lia);
        intros n [<-|[<-|[]]]; auto.
    + exfalso.
      pose proof (keys_in_range_length 2 _ N) as L.
      simpl in L. rewrite Z.max_r in L by lia.
      assert (Fk : Forall (fun k => 0 <= k < 2)
                          (a :: b :: fst c :: map fst rest)).
      { change (a :: b :: fst c :: map fst rest)
          with (map fst ((a, la) :: (b, lb) :: c :: rest)).
        apply Forall_map. eapply Forall_impl; [|exact F]. now intros kv [? _]. }
      specialize (L Fk). lia.
  - apply Z.eqb_neq in Q. eexists. split; [reflexivity|].
    rewrite length_map. repeat split; auto; lia.
Qed.

Lemma BitGroup_bit_values_witness :
  exists names,
    BitGroup.bit_values cloud_levels_group = Some names
    /\ List.length names = 4%nat.
Proof.
  destruct (BitGroup_bit_values_never_fail _ _ _ _ _ cloud_levels_init)
    as (names & B & L & _).
  exists names. split; [exact B | exact L].
Defined.

(* ----------------------------------------------------------------- *)
(** ** A group and its dict *)

Lemma init_body_accepts (nv : Z) (acc : list (Z * string)) (k : Z) (l : string) :
  helpers.is_str (PyStr l) = Ok true -> ~ In k (map fst acc) -> 0 <= k < nv ->
  BitGroup.init_body nv acc (PyInt k, PyStr l) = Ok (acc ++ [(k, Str.lower l)])%list.
Proof.
  intros S Fresh R. unfold BitGroup.init_body.
  change (helpers.is_int (PyInt k)) with (@Ok bool true). cbn [bind raise_if negb].
  rewrite S. cbn [bind raise_if negb py_int].
  assert (M : dict_mem k acc = false).
  { destruct (dict_mem k acc) eqn:M; [|reflexivity].
    apply dict_mem_In in M. contradiction. }
  rewrite M. cbn [raise_if].
  replace ((k <? 0) || (k >=? nv))%bool with false by lia.
  cbn [raise_if py_lower bind]. now rewrite (dict_set_fresh _ _ _ Fresh).
Qed.

(** The validation loop accepts a value map it has produced. *)
Lemma init_body_loop_accepts (nv : Z) (items : list (Z * string)) :
  forall acc,
    NoDup (map fst (acc ++ items)) ->
    Forall (fun kv => 0 <= fst kv < nv /\ kept_label (snd kv)) items ->
    for_each (BitGroup.init_body nv)
             (map (fun kv => (PyInt (fst kv), PyStr (snd kv))) items) acc
    = Ok (acc ++ items)%list.
Proof.
  induction items as [|[k l] items IH]; intros acc N F; cbn [map for_each fst snd].
  - now rewrite app_nil_r.
  - inversion F as [|? ? [Rk [S Lw]] F']; subst. simpl in Rk, S, Lw.
    rewrite init_body_accepts; try assumption.
    + cbn [bind]. rewrite Lw, IH; try assumption.
      * now rewrite <- app_assoc.
      * now rewrite <- app_assoc.
    + exact (NoDup_fresh_map fst _ _ (k, l) N).
Qed.

(** The constructor accepts the fields of a group it has built, and
    builds the same group. *)
Lemma init_again d mn mx vm g :
  BitGroup.init d mn mx vm = Ok g ->
  BitGroup.init (BitGroup.description g)
                (PyInt (BitGroup.min_position g)) (PyInt (BitGroup.max_position g))
                (map (fun kv => (PyInt (fst kv), PyStr (snd kv))) (BitGroup.value_map g))
  = Ok g.
Proof.
  intros E.
  destruct (BitGroup_init_facts _ _ _ _ _ E) as (_ & _ & R & Nv & D & _).
  destruct (BitGroup_init_checked _ _ _ _ _ E) as (NE & SB & Rv).
  destruct (BitGroup_keys_NoDup _ _ _ _ _ E) as (N & F).
  unfold BitGroup.init.
  change (helpers.is_int (PyInt (BitGroup.min_position g))) with (@Ok bool true).
  change (helpers.is_int (PyInt (BitGroup.max_position g))) with (@Ok bool true).
  cbn [py_or py_not bind raise_if negb py_int orb].
  replace ((BitGroup.min_position g <? 0) || (BitGroup.max_position g <? 0))%bool
    with false by lia.
  replace (BitGroup.min_position g >? BitGroup.max_position g) with false by lia.
  cbn [raise_if]. rewrite <- Nv.
  rewrite (init_body_loop_accepts _ _ [] N F). cbn [bind app].
  assert (L0 : (dict_len (BitGroup.value_map g) =? 0) = false).
  { apply Z.eqb_neq. unfold dict_len.
    destruct (BitGroup.value_map g); [contradiction | simpl; lia]. }
  rewrite L0. cbn [raise_if].
  assert (S1 : ((BitGroup.min_position g =? BitGroup.max_position g)
                && (dict_len (BitGroup.value_map g) =? 1)
                && negb (dict_mem 1 (BitGroup.value_map g)))%bool = false).
  { destruct (BitGroup.min_position g =? BitGroup.max_position g) eqn:Q; [|reflexivity].
    destruct (dict_len (BitGroup.value_map g) =? 1) eqn:L1; [|reflexivity].
    apply Z.eqb_eq in Q, L1. unfold dict_len in L1. rewrite SB; [reflexivity|assumption|lia]. }
  rewrite S1. cbn [raise_if].
  rewrite D, lower_lower, <- D, <- Rv. now destruct g.
Qed.

Lemma map_m_printed_keys (m : list (Z * string)) :
  map_m (fun kv : string * string =>
           let* k := py_int (PyStr (fst kv)) in Ok (k, snd kv))
        (map (fun kv => (Str.of_int (fst kv), snd kv)) m)
  = Ok m.
Proof.
  induction m as [|[k l] m IH]; simpl; [reflexivity|].
  rewrite to_int_of_int. simpl in *. now rewrite IH.
Qed.

Lemma printed_keys_NoDup (m : list (Z * string)) :
  NoDup (map fst m) ->
  NoDup (map fst (map (fun kv : Z * string => (Str.of_int (fst kv), snd kv)) m)).
Proof.
  intros N. rewrite map_map. simpl. rewrite <- (map_map fst Str.of_int).
  apply NoDup_map_NoDup_ForallPairs; [|assumption].
  intros a b _ _. apply of_int_inj.
Qed.

(** X17. A BitGroup built by the constructor comes back from its own
    dict: [to_dict] gives one entry, whose key is
    ["<min>-<max>-<description>"], and [BitGroup.from_dict] builds the
    same group again from it, whatever dashes the description holds. *)
Theorem BitGroup_from_dict_of_to_dict :
  forall d mn mx vm g,
    BitGroup.init d mn mx vm = Ok g ->
    BitGroup.from_dict (BitGroup.to_dict g) = Ok g.
Proof.
  intros d mn mx vm g E.
  destruct (BitGroup_init_facts _ _ _ _ _ E) as (_ & _ & R & _).
  destruct (BitGroup_keys_NoDup _ _ _ _ _ E) as (N & _).
  unfold BitGroup.to_dict, BitGroup.from_dict.
  rewrite split_three by (apply of_int_no_dash; lia).
  rewrite !py_int_of_int. cbn [bind].
  rewrite (dict_of_items_nodup _ (printed_keys_NoDup _ N)).
  rewrite map_m_printed_keys. cbn [bind].
  rewrite (dict_of_items_nodup _ N).
  exact (init_again _ _ _ _ _ E).
Qed.

Lemma BitGroup_from_dict_of_to_dict_witness :
  BitGroup.from_dict (BitGroup.to_dict cloud_levels_group) = Ok cloud_levels_group.
Proof.
  exact (BitGroup_from_dict_of_to_dict _ _ _ _ _ cloud_levels_init).
Defined.

(* ----------------------------------------------------------------- *)
(** ** The masks of a group *)

Lemma group_field_pixel (g : BitGroup.t) (image : ee.Image) (x v : Z) :
  ee.pixel image x = Some v ->
  ee.pixel (BitGroup.group_field g image) x
  = Some (Z.land (Z.shiftr v (BitGroup.min_position g)) (BitGroup.group_mask g)).
Proof. intros P. unfold BitGroup.group_field. simpl. now rewrite P. Qed.

Lemma mask_pixel (g : BitGroup.t) (image : ee.Image) (x v k : Z) (name : string) :
  ee.pixel image x = Some v ->
  ee.pixel (ee.rename (ee.eq (BitGroup.group_field g image) (ee.constant k)) name) x
  = Some (if Z.land (Z.shiftr v (BitGroup.min_position g)) (BitGroup.group_mask g) =? k
          then 1 else 0).
Proof.
  intros P. cbn [ee.pixel]. now rewrite (group_field_pixel g image x v P).
Qed.

(** X18. The mask images of a BitGroup built by the constructor compute,
    pixel by pixel, what the client-side tests answer on the pixel's
    value: [get_mask_by_bit_value] is 1 exactly where
    [is_positive_by_description] is true and [get_mask_by_position]
    exactly where [is_positive_by_key] is true.  A label that no entry
    has and a key that the value map lacks are refused with
    [ValueError], a position that is not an integer with [TypeError]. *)
Theorem BitGroup_masks_compute_is_positive :
  forall d mn mx vm g,
    BitGroup.init d mn mx vm = Ok g ->
    forall (image : ee.Image) (x v : Z),
      ee.pixel image x = Some v ->
      (forall l, In l (map snd (BitGroup.value_map g)) ->
         exists m b,
           BitGroup.get_mask_by_bit_value g image l = Ok m
           /\ BitGroup.is_positive_by_description g v l = Ok b
           /\ ee.pixel m x = Some (if b then 1 else 0))
      /\ (forall l, ~ In l (map snd (BitGroup.value_map g)) ->
            BitGroup.get_mask_by_bit_value g image l = Raise BitGroup.value_not_found)
      /\ (forall p k, py_int p = Ok k -> In k (map fst (BitGroup.value_map g)) ->
            exists m b,
              BitGroup.get_mask_by_position g image p = Ok m
              /\ BitGroup.is_positive_by_key g v p = Ok b
              /\ ee.pixel m x = Some (if b then 1 else 0))
      /\ (forall p k, py_int p = Ok k -> ~ In k (map fst (BitGroup.value_map g)) ->
            BitGroup.get_mask_by_position g image p = Raise BitGroup.key_not_found)
      /\ (forall p, helpers.is_int p = Ok false ->
            BitGroup.get_mask_by_position g image p = Raise BitGroup.position_not_int).
Proof.
  intros d mn mx vm g E image x v P.
  split; [|split; [|split; [|split]]].
  - intros l Il.
    destruct (reverse_map_facts _ _ _ _ _ l E) as (_ & A & _).
    case_eq (dict_get l (BitGroup._reverse_value_map g)); [intros k R | intros R].
    + eexists. eexists. split; [|split].
      * unfold BitGroup.get_mask_by_bit_value, BitGroup._get_key_for_bit_value.
        rewrite R. reflexivity.
      * exact (is_positive_by_description_resolved _ _ _ _ _ v l k E R).
      * apply mask_pixel. exact P.
    + apply A in R. contradiction.
  - intros l Nl. destruct (reverse_map_facts _ _ _ _ _ l E) as (_ & A & _).
    apply A in Nl. unfold BitGroup.get_mask_by_bit_value, BitGroup._get_key_for_bit_value.
    now rewrite Nl.
  - intros p k Pk Ik.
    assert (M : dict_mem k (BitGroup.value_map g) = true) by now apply dict_mem_In.
    unfold BitGroup.get_mask_by_position, BitGroup.is_positive_by_key,
      BitGroup._get_value_for_bit_key.
    rewrite (is_int_of_py_int _ _ Pk), Pk. cbn [bind raise_if negb]. rewrite M.
    unfold dict_mem in M.
    destruct (dict_get k (BitGroup.value_map g)) as [l|]; [|discriminate].
    cbn [bind raise_if negb].
    eexists. eexists. split; [reflexivity|]. split; [reflexivity|].
    apply mask_pixel. exact P.
  - intros p k Pk Nk. apply dict_get_In in Nk.
    unfold BitGroup.get_mask_by_position, BitGroup._get_value_for_bit_key.
    rewrite (is_int_of_py_int _ _ Pk), Pk. cbn [bind raise_if negb]. now rewrite Nk.
  - intros p I. unfold BitGroup.get_mask_by_position. now rewrite I.
Qed.

Lemma BitGroup_masks_witness :
  exists m b,
    BitGroup.get_mask_by_bit_value cloud_levels_group (ee.source "QA_PIXEL")
                                   "medium clouds" = Ok m
    /\ BitGroup.is_positive_by_description cloud_levels_group 221 "medium clouds" = Ok b
    /\ ee.pixel m 221 = Some (if b then 1 else 0).
Proof.
  refine (proj1 (BitGroup_masks_compute_is_positive
                   _ _ _ _ _ cloud_levels_init (ee.source "QA_PIXEL") 221 221 eq_refl)
                "medium clouds" _).
  simpl. auto.
Defined.

Lemma get_masks_loop (g : BitGroup.t) (image : ee.Image) (items : list (Z * string)) :
  forall acc,
    Forall (fun kv => exists k, dict_get (snd kv) (BitGroup._reverse_value_map g) = Some k)
           items ->
    exists new,
      for_each (fun masks kv =>
                  let* mask := BitGroup.get_mask_by_bit_value g image (snd kv) in
                  Ok (masks ++ [mask])%list) items acc
      = Ok (acc ++ new)%list
      /\ Forall2 (fun kv m => BitGroup.get_mask_by_bit_value g image (snd kv) = Ok m)
                 items new.
Proof.
  induction items as [|[k l] items IH]; intros acc F; cbn [for_each].
  - exists []. split; [now rewrite app_nil_r | constructor].
  - inversion F as [|? ? [k' R] F']; subst. simpl in R.
    assert (G : exists m, BitGroup.get_mask_by_bit_value g image l = Ok m).
    { unfold BitGroup.get_mask_by_bit_value, BitGroup._get_key_for_bit_value.
      rewrite R. eexists. reflexivity. }
    destruct G as [m G]. cbn [snd]. rewrite G. cbn [bind].
    destruct (IH (acc ++ [m])%list F') as (new & -> & F2).
    exists (m :: new). split; [now rewrite <- app_assoc|]. now constructor.
Qed.

Lemma labels_have_keys d mn mx vm g :
  BitGroup.init d mn mx vm = Ok g ->
  Forall (fun kv => exists k, dict_get (snd kv) (BitGroup._reverse_value_map g) = Some k)
         (BitGroup.value_map g).
Proof.
  intros E. apply Forall_forall. intros [k l] I. simpl.
  destruct (reverse_map_facts _ _ _ _ _ l E) as (_ & A & _).
  case_eq (dict_get l (BitGroup._reverse_value_map g)); [intros k' R; now exists k'|].
  intros R. apply A in R. exfalso. apply R. apply in_map_iff. now exists (k, l).
Qed.

Lemma same_label_same_key {A B} (m : list (A * B)) (a b : A) (l : B) :
  NoDup (map snd m) -> In (a, l) m -> In (b, l) m -> a = b.
Proof.
  induction m as [|[a0 l0] m IH]; simpl; intros N Ia Ib; [contradiction|].
  inversion N as [|? ? Nl N']; subst.
  destruct Ia as [Ia|Ia], Ib as [Ib|Ib].
  - congruence.
  - injection Ia as -> ->. exfalso. apply Nl. apply in_map_iff. now exists (b, l).
  - injection Ib as -> ->. exfalso. apply Nl. apply in_map_iff. now exists (a, l).
  - now apply IH.
Qed.

Lemma mask_pixels d mn mx vm g (image : ee.Image) (x v : Z) :
  BitGroup.init d mn mx vm = Ok g ->
  ee.pixel image x = Some v ->
  NoDup (map snd (BitGroup.value_map g)) ->
  forall items masks,
    incl items (BitGroup.value_map g) ->
    Forall2 (fun kv m => BitGroup.get_mask_by_bit_value g image (snd kv) = Ok m)
            items masks ->
    Forall2 (fun kv m =>
               exists b : bool, ee.pixel m x = Some (if b then 1 else 0)
                                /\ (b = true
                                    <-> BitGroup.decode_value g v = Some (snd kv)))
            items masks.
Proof.
  intros E P Nl items masks Sub F2.
  destruct (BitGroup_keys_NoDup _ _ _ _ _ E) as (N & _).
  induction F2 as [|[k l] m items masks G F2 IH]; constructor.
  - assert (Ik : In (k, l) (BitGroup.value_map g)) by (apply Sub; now left).
    destruct (reverse_map_facts _ _ _ _ _ l E) as (_ & _ & _ & I).
    pose proof (I Nl k (dict_get_In_pair _ _ _ N Ik)) as R.
    unfold BitGroup.get_mask_by_bit_value, BitGroup._get_key_for_bit_value in G.
    cbn [snd] in G. rewrite R in G. cbn [bind] in G. injection G as <-.
    eexists. split; [apply mask_pixel; exact P|].
    cbn [snd]. unfold BitGroup.decode_value. rewrite Z.eqb_eq. split.
    + intros ->. now apply dict_get_In_pair.
    + intros D. apply dict_get_Some_In in D.
      exact (same_label_same_key _ _ _ _ Nl D Ik).
  - apply IH. intros kv I. apply Sub. now right.
Qed.

(** X19. [get_masks] of a BitGroup built by the constructor does not
    fail; it stacks one mask for each entry of the value map, in order,
    each the mask that [get_mask_by_bit_value] gives for the entry's
    label.  When the labels are pairwise distinct, the mask of an entry
    is 1 at a pixel exactly when [decode_value] of the pixel's value is
    the entry's label. *)
Theorem BitGroup_get_masks_bands :
  forall d mn mx vm g,
    BitGroup.init d mn mx vm = Ok g ->
    forall image : ee.Image,
    exists masks,
      BitGroup.get_masks g image = Ok (ee.fromList masks)
      /\ Forall2 (fun kv m => BitGroup.get_mask_by_bit_value g image (snd kv) = Ok m)
                 (BitGroup.value_map g) masks
      /\ (NoDup (map snd (BitGroup.value_map g)) ->
          forall x v, ee.pixel image x = Some v ->
            Forall2 (fun kv m =>
                       exists b : bool, ee.pixel m x = Some (if b then 1 else 0)
                                 /\ (b = true
                                     <-> BitGroup.decode_value g v = Some (snd kv)))
                    (BitGroup.value_map g) masks).
Proof.
  intros d mn mx vm g E image.
  destruct (get_masks_loop g image _ [] (labels_have_keys _ _ _ _ _ E))
    as (masks & L & F2).
  destruct (BitGroup_keys_NoDup _ _ _ _ _ E) as (N & _).
  exists masks. split; [|split].
  - unfold BitGroup.get_masks. now rewrite L.
  - exact F2.
  - intros Nl x v P. exact (mask_pixels _ _ _ _ _ image x v E P Nl _ _ (incl_refl _) F2).
Qed.

Lemma BitGroup_get_masks_witness :
  exists masks,
    BitGroup.get_masks cloud_levels_group (ee.source "QA_PIXEL") = Ok (ee.fromList masks)
    /\ List.length masks = 4%nat.
Proof.
  destruct (BitGroup_get_masks_bands _ _ _ _ _ cloud_levels_init (ee.source "QA_PIXEL"))
    as (masks & G & F & _).
  exists masks. split; [exact G|].
  rewrite <- (Forall2_length F). reflexivity.
Defined.

(* ----------------------------------------------------------------- *)
(** ** The tests on the engine's numbers *)

(** X20. The engine-side tests mirror the client-side ones.  For every
    BitGroup, key, label and number expression whose value is [v]:
    [is_positive_by_key_gee] raises exactly the error that
    [is_positive_by_key] raises on [v], and otherwise builds an
    expression whose value is 1 when [is_positive_by_key] answers true
    and 0 when it answers false; the same holds for
    [is_positive_by_description_gee] and [is_positive_by_description]. *)
Theorem gee_tests_mirror_the_client_tests :
  forall (g : BitGroup.t) (value : ee.Number) (x : Z),
    (forall key : pyval,
       match BitGroup.is_positive_by_key_gee g value key,
             BitGroup.is_positive_by_key g (ee.number_value value x) key with
       | Ok n, Ok b => ee.number_value n x = if b then 1 else 0
       | Raise e, Raise e' => e = e'
       | _, _ => False
       end)
    /\ (forall description : string,
          match BitGroup.is_positive_by_description_gee g value description,
                BitGroup.is_positive_by_description g (ee.number_value value x)
                                                    description with
          | Ok n, Ok b => ee.number_value n x = if b then 1 else 0
          | Raise e, Raise e' => e = e'
          | _, _ => False
          end).
Proof.
  intros g value x.
  assert (K : forall key : pyval,
       match BitGroup.is_positive_by_key_gee g value key,
             BitGroup.is_positive_by_key g (ee.number_value value x) key with
       | Ok n, Ok b => ee.number_value n x = if b then 1 else 0
       | Raise e, Raise e' => e = e'
       | _, _ => False
       end).
  { intros key. unfold BitGroup.is_positive_by_key_gee, BitGroup.is_positive_by_key.
    destruct (helpers.is_int key) as [[|]|e]; cbn [bind raise_if negb]; try reflexivity.
    destruct (py_int key) as [k|e]; cbn [bind]; try reflexivity.
    destruct (dict_mem k (BitGroup.value_map g)); cbn [raise_if negb]; reflexivity. }
  split; [exact K|].
  intros description.
  unfold BitGroup.is_positive_by_description_gee, BitGroup.is_positive_by_description.
  destruct (BitGroup._get_key_for_bit_value g description) as [k|e]; cbn [bind].
  - apply K.
  - reflexivity.
Qed.

(* ================================================================= *)
(** * Further properties: BitMask *)

(** The first loop keeps the descriptions it has met pairwise distinct. *)
Lemma collect_descriptions_NoDup (l : list BitMask.element) :
  forall gs ds gs' ds',
    for_each BitMask.collect_body l (gs, ds) = Ok (gs', ds') ->
    NoDup ds -> NoDup ds'.
Proof.
  induction l as [|x l IH]; simpl; intros gs ds gs' ds' E N.
  - now injection E as <- <-.
  - apply bind_ok in E. destruct E as [[gs1 ds1] [B E]].
    unfold BitMask.collect_body in B. apply bind_ok in B.
    destruct B as [g [P B]]. apply raise_if_ok in B. destruct B as [M B].
    injection B as <- <-. apply (IH _ _ _ _ E).
    apply list_mem_not_In in M.
    apply NoDup_app; [assumption | repeat constructor; auto |].
    intros a Ia [<-|[]]. contradiction.
Qed.

(** What [BitMask.__init__] has checked when it returns. *)
Lemma BitMask_init_facts (bits : list BitMask.element) (total : option Z) (m : BitMask.t) :
  BitMask.init bits total = Ok m ->
  Forall2 promotes bits (BitMask.bits m)
  /\ NoDup (map BitGroup.description (BitMask.bits m))
  /\ NoDup (flat_map claimed (BitMask.bits m)).
Proof.
  unfold BitMask.init. intros E.
  apply bind_ok in E. destruct E as [[gs ds] [C E]]. simpl in E.
  apply bind_ok in E. destruct E as [pos [Cl E]].
  apply bind_ok in E. destruct E as [t [_ E]]. injection E as <-. simpl.
  destruct (collect_spec _ _ _ _ _ C) as [new [-> [F D]]]. simpl in *.
  split; [exact F|]. split.
  - subst ds. exact (collect_descriptions_NoDup _ _ _ _ _ C (NoDup_nil _)).
  - rewrite claim_groups_flat in Cl.
    exact (proj2 (append_loop_result _ _ claim_position_eq _ [] pos (NoDup_nil _) Cl)).
Qed.

(** Groups with distinct descriptions and disjoint positions pass both
    loops. *)
Lemma BitMask_init_groups (gs : list BitGroup.t) (total : option Z) :
  NoDup (map BitGroup.description gs) ->
  NoDup (flat_map claimed gs) ->
  BitMask.init (map BitMask.a_group gs) total
  = let* t := match total with
              | Some n => if n =? 0
                          then let* g := py_last gs in Ok (BitGroup.max_position g + 1)
                          else Ok n
              | None => let* g := py_last gs in Ok (BitGroup.max_position g + 1)
              end in
    Ok {| BitMask.bits := gs; BitMask.total := t |}.
Proof.
  intros D P. unfold BitMask.init.
  rewrite (collect_groups_ok gs [] [] eq_refl D). cbn [bind fst app].
  rewrite claim_groups_flat.
  rewrite (append_loop_ok _ _ claim_position_eq (flat_map claimed gs) [] P).
  reflexivity.
Qed.

(** X21. What the constructor of BitMask accepts.  When it returns, the
    mask holds the group of each element of the list, in order, no two
    groups have the same description and no position is claimed twice;
    an explicit non-zero [total] is kept as given.  Conversely, BitGroups
    with pairwise distinct descriptions and no position claimed twice
    are accepted with any non-zero [total] -- the empty list too -- and,
    when the list is not empty, without a [total]. *)
Theorem BitMask_constructor_accepts :
  (forall (bits : list BitMask.element) (total : option Z) (m : BitMask.t),
     BitMask.init bits total = Ok m ->
     Forall2 promotes bits (BitMask.bits m)
     /\ NoDup (map BitGroup.description (BitMask.bits m))
     /\ NoDup (flat_map claimed (BitMask.bits m))
     /\ (forall n, total = Some n -> n <> 0 -> BitMask.total m = n))
  /\ (forall (gs : list BitGroup.t),
        NoDup (map BitGroup.description gs) ->
        NoDup (flat_map claimed gs) ->
        (forall n, n <> 0 ->
           BitMask.init (map BitMask.a_group gs) (Some n)
           = Ok {| BitMask.bits := gs; BitMask.total := n |})
        /\ (gs <> [] ->
            exists m, BitMask.init (map BitMask.a_group gs) None = Ok m
                      /\ BitMask.bits m = gs)).
Proof.
  split.
  - intros bits total m E.
    destruct (BitMask_init_facts _ _ _ E) as (F & D & P).
    repeat split; try assumption.
    intros n -> Nz. unfold BitMask.init in E.
    apply bind_ok in E. destruct E as [st [_ E]].
    apply bind_ok in E. destruct E as [pos [_ E]].
    apply Z.eqb_neq in Nz. rewrite Nz in E. cbn [bind] in E. now injection E as <-.
  - intros gs D P. split.
    + intros n Nz. rewrite (BitMask_init_groups gs (Some n) D P).
      apply Z.eqb_neq in Nz. now rewrite Nz.
    + intros NE. rewrite (BitMask_init_groups gs None D P).
      destruct (exists_last NE) as (gs' & g & ->).
      rewrite py_last_snoc. cbn [bind]. eexists. split; reflexivity.
Qed.

Lemma BitMask_constructor_witness :
  BitMask.init [BitMask.a_group cloud_levels_group] (Some 16)
  = Ok {| BitMask.bits := [cloud_levels_group]; BitMask.total := 16 |}.
Proof.
  refine (proj1 (proj2 BitMask_constructor_accepts [cloud_levels_group] _ _) 16 _).
  - repeat constructor; simpl; auto.
  - repeat constructor; simpl; intuition discriminate.
  - discriminate.
Defined.

(* ----------------------------------------------------------------- *)
(** ** Looking a group up *)

Lemma filter_description_unique (gs : list BitGroup.t) (g : BitGroup.t) :
  NoDup (map BitGroup.description gs) -> In g gs ->
  filter (fun bit => String.eqb (BitGroup.description bit) (BitGroup.description g)) gs
  = [g].
Proof.
  induction gs as [|g0 gs IH]; simpl; intros N I; [contradiction|].
  inversion N as [|? ? N0 N']; subst.
  destruct (String.eqb_spec (BitGroup.description g0) (BitGroup.description g)) as [Q|Q].
  - destruct I as [->|I].
    + f_equal. clear IH N. induction gs as [|g1 gs IH]; simpl; [reflexivity|].
      destruct (String.eqb_spec (BitGroup.description g1) (BitGroup.description g)) as [Q1|Q1].
      * exfalso. apply N0. simpl. now left.
      * apply IH.
        -- intros I1. apply N0. now right.
        -- now inversion N'.
    + exfalso. apply N0. rewrite Q. apply in_map_iff. now exists g.
  - destruct I as [->|I]; [contradiction | now apply IH].
Qed.

Lemma filter_description_empty (gs : list BitGroup.t) (d : string) :
  filter (fun bit => String.eqb (BitGroup.description bit) d) gs = []
  <-> ~ In d (map BitGroup.description gs).
Proof.
  induction gs as [|g gs IH]; simpl; [tauto|].
  destruct (String.eqb_spec (BitGroup.description g) d) as [Q|Q].
  - split; [discriminate | intros N; exfalso; apply N; now left].
  - rewrite IH. tauto.
Qed.

(** The groups that [from_dict] builds come from the constructor. *)
Lemma from_dict_groups_constructed (s : helpers.schema) :
  forall gs groups,
    for_each BitMask.from_dict_body s gs = Ok groups ->
    Forall constructed gs -> Forall constructed groups.
Proof.
  induction s as [|[k v] s IH]; simpl; intros gs groups E F.
  - now injection E as <-.
  - apply bind_ok in E. destruct E as [gs1 [B E]]. apply (IH _ _ E).
    unfold BitMask.from_dict_body in B.
    destruct (Str.split "-" (Some 2%nat) k) as [|a [|b [|name [|? ?]]]]; try discriminate.
    apply bind_ok in B. destruct B as [start [_ B]].
    apply bind_ok in B. destruct B as [end_ [_ B]].
    apply bind_ok in B. destruct B as [items [_ B]].
    apply bind_ok in B. destruct B as [g [G B]]. injection B as <-.
    apply Forall_app. split; [assumption|]. constructor; [|constructor].
    do 4 eexists. exact G.
Qed.

Lemma from_dict_bits_constructed (s : list (atom * helpers.info)) (m : BitMask.t) :
  BitMask.from_dict s = Ok m -> Forall constructed (BitMask.bits m).
Proof.
  unfold BitMask.from_dict. intros E.
  apply bind_ok in E. destruct E as [formatted [_ E]].
  apply bind_ok in E. destruct E as [groups [L E]].
  rewrite (init_groups_bits _ _ _ E).
  exact (from_dict_groups_constructed _ _ _ L (Forall_nil _)).
Qed.

Lemma constructed_description_lower (g : BitGroup.t) :
  constructed g -> Str.lower (BitGroup.description g) = BitGroup.description g.
Proof.
  intros (d & mn & mx & vm & E).
  destruct (BitGroup_init_facts _ _ _ _ _ E) as (_ & _ & _ & _ & -> & _).
  apply lower_lower.
Qed.

(** X22. [get_group_by_description] on a BitMask built by the
    constructor: every group of the mask is found by its own
    description; a group that is found is a group of the mask with the
    description asked for; and the [ValueError] is raised exactly for a
    description that no group has. *)
Theorem get_group_by_description_finds_the_group :
  forall (bits : list BitMask.element) (total : option Z) (m : BitMask.t),
    BitMask.init bits total = Ok m ->
    (forall g, In g (BitMask.bits m) ->
               BitMask.get_group_by_description m (BitGroup.description g) = Ok g)
    /\ (forall d g, BitMask.get_group_by_description m d = Ok g ->
                    In g (BitMask.bits m) /\ BitGroup.description g = d)
    /\ (forall d, BitMask.get_group_by_description m d
                  = Raise BitMask.description_not_found
                  <-> ~ In d (map BitGroup.description (BitMask.bits m))).
Proof.
  intros bits total m E.
  destruct (BitMask_init_facts _ _ _ E) as (_ & D & _).
  unfold BitMask.get_group_by_description. split; [|split].
  - intros g I. now rewrite (filter_description_unique _ _ D I).
  - intros d g G.
    destruct (filter _ (BitMask.bits m)) as [|g0 rest] eqn:Fl; [discriminate|].
    injection G as ->.
    assert (I : In g (filter (fun bit => String.eqb (BitGroup.description bit) d)
                             (BitMask.bits m))) by (rewrite Fl; now left).
    apply filter_In in I. destruct I as [I Q]. apply String.eqb_eq in Q. now split.
  - intros d. rewrite <- filter_description_empty.
    destruct (filter _ (BitMask.bits m)); split; congruence.
Qed.

Lemma get_group_by_description_witness :
  BitMask.get_group_by_description
    {| BitMask.bits := [cloud_levels_group]; BitMask.total := 16 |} "cloud levels"
  = Ok cloud_levels_group.
Proof.
  refine (proj1 (get_group_by_description_finds_the_group
                   [BitMask.a_group cloud_levels_group] (Some 16) _ eq_refl)
                cloud_levels_group _).
  simpl. auto.
Defined.

(** The groups that [from_dict] builds are named after the keys. *)
Lemma from_dict_groups_names (s : helpers.schema) :
  forall gs groups,
    for_each BitMask.from_dict_body s gs = Ok groups ->
    exists new, groups = (gs ++ new)%list
                /\ Forall2 (fun kv g => BitGroup.description g
                                        = Str.lower (entry_name (fst kv))) s new.
Proof.
  induction s as [|[k v] s IH]; simpl; intros gs groups E.
  - injection E as <-. exists []. split; [now rewrite app_nil_r | constructor].
  - apply bind_ok in E. destruct E as [gs1 [B E]].
    destruct (IH _ _ E) as (new & -> & F2).
    unfold BitMask.from_dict_body in B.
    destruct (Str.split "-" (Some 2%nat) k) as [|a [|b [|name [|? ?]]]] eqn:S;
      try discriminate.
    apply bind_ok in B. destruct B as [start [_ B]].
    apply bind_ok in B. destruct B as [end_ [_ B]].
    apply bind_ok in B. destruct B as [items [_ B]].
    apply bind_ok in B. destruct B as [g [G B]]. injection B as <-.
    exists (g :: new). rewrite <- app_assoc. split; [reflexivity|].
    constructor; [|assumption].
    unfold entry_name. cbn [fst]. rewrite S.
    now destruct (BitGroup_init_facts _ _ _ _ _ G) as (_ & _ & _ & _ & -> & _).
Qed.

Lemma Forall2_In_l {A B} (R : A -> B -> Prop) (l : list A) (l' : list B) (a : A) :
  Forall2 R l l' -> In a l -> exists b, In b l' /\ R a b.
Proof.
  induction 1 as [|x y l l' Rxy F IH]; simpl; [contradiction|].
  intros [->|I].
  - exists y. auto.
  - destruct (IH I) as (b & Ib & Rb). exists b. auto.
Qed.

(** X23. A BitMask read from a schema knows its groups by their
    lower-case names only: [get_group_by_description] raises the
    [ValueError] for every description that is not in lower case, and
    finds a group under the name of each key of the normalized schema
    once that name is put in lower case. *)
Theorem from_dict_groups_are_found_in_lower_case :
  forall (s : list (atom * helpers.info)) (m : BitMask.t),
    BitMask.from_dict s = Ok m ->
    (forall d, Str.lower d <> d ->
               BitMask.get_group_by_description m d = Raise BitMask.description_not_found)
    /\ (forall formatted key,
          helpers.format_bits_info s = Ok formatted ->
          In key (map fst formatted) ->
          exists g, BitMask.get_group_by_description m (Str.lower (entry_name key)) = Ok g
                    /\ In g (BitMask.bits m)).
Proof.
  intros s m E. pose proof (from_dict_bits_constructed _ _ E) as C.
  unfold BitMask.from_dict in E.
  apply bind_ok in E. destruct E as [formatted [Fm E]].
  apply bind_ok in E. destruct E as [groups [L E]].
  destruct (BitMask_init_facts _ _ _ E) as (_ & D & _).
  pose proof (init_groups_bits _ _ _ E) as B.
  split.
  - intros d Nd. unfold BitMask.get_group_by_description.
    assert (Fl : filter (fun bit => String.eqb (BitGroup.description bit) d)
                        (BitMask.bits m) = []).
    { apply filter_description_empty. intros I. apply in_map_iff in I.
      destruct I as (g & <- & I). apply Nd. apply constructed_description_lower.
      exact (proj1 (Forall_forall _ _) C g I). }
    now rewrite Fl.
  - intros formatted' key Fm' Ik. rewrite Fm in Fm'. injection Fm' as <-.
    destruct (from_dict_groups_names _ _ _ L) as (new & -> & F2). simpl in B.
    apply in_map_iff in Ik. destruct Ik as (kv & <- & Ikv).
    destruct (Forall2_In_l _ _ _ _ F2 Ikv) as (g & Ig & Dg).
    rewrite <- B in Ig. exists g. split; [|assumption].
    rewrite <- Dg. unfold BitMask.get_group_by_description.
    now rewrite (filter_description_unique _ _ D Ig).
Qed.

Lemma from_dict_lower_case_witness :
  exists m, BitMask.from_dict (raw_of_schema mixed_case_schema) = Ok m
            /\ BitMask.get_group_by_description m "Cloud"
               = Raise BitMask.description_not_found.
Proof.
  eexists. split; [reflexivity|].
  refine (proj1 (from_dict_groups_are_found_in_lower_case
                   (raw_of_schema mixed_case_schema) _ eq_refl) "Cloud" _).
  discriminate.
Defined.

(* ----------------------------------------------------------------- *)
(** ** Decoding with all the groups *)

Lemma decode_value_fold (v : Z) (gs : list BitGroup.t) :
  forall acc : list (string * option string),
    NoDup (map fst acc ++ map BitGroup.description gs) ->
    fold_left (fun decoded group =>
                 dict_set (BitGroup.description group)
                          (BitGroup.decode_value group v) decoded) gs acc
    = (acc ++ map (fun g => (BitGroup.description g, BitGroup.decode_value g v)) gs)%list.
Proof.
  induction gs as [|g gs IH]; intros acc N; cbn [fold_left map].
  - now rewrite app_nil_r.
  - rewrite dict_set_fresh by exact (NoDup_fresh _ _ _ N).
    rewrite IH.
    + now rewrite <- app_assoc.
    + rewrite map_app. simpl. now rewrite <- app_assoc.
Qed.

(** X24. [decode_value] of a BitMask built by the constructor gives one
    entry for each group, in the order of the groups: under the
    description of a group stands what [decode_value] of that group
    returns, a label or [None]. *)
Theorem BitMask_decode_value_by_group :
  forall (bits : list BitMask.element) (total : option Z) (m : BitMask.t),
    BitMask.init bits total = Ok m ->
    forall v : Z,
      BitMask.decode_value m v
      = map (fun g => (BitGroup.description g, BitGroup.decode_value g v)) (BitMask.bits m)
      /\ (forall g, In g (BitMask.bits m) ->
                    dict_get (BitGroup.description g) (BitMask.decode_value m v)
                    = Some (BitGroup.decode_value g v))
      /\ (forall d, ~ In d (map BitGroup.description (BitMask.bits m)) ->
                    dict_get d (BitMask.decode_value m v) = None).
Proof.
  intros bits total m E v.
  destruct (BitMask_init_facts _ _ _ E) as (_ & D & _).
  assert (Q : BitMask.decode_value m v
              = map (fun g => (BitGroup.description g, BitGroup.decode_value g v))
                    (BitMask.bits m)).
  { unfold BitMask.decode_value. now rewrite (decode_value_fold v _ []). }
  assert (K : map fst (BitMask.decode_value m v)
              = map BitGroup.description (BitMask.bits m)).
  { rewrite Q, map_map. reflexivity. }
  split; [exact Q|]. split.
  - intros g I. apply dict_get_In_pair.
    + now rewrite K.
    + rewrite Q. apply in_map_iff. now exists g.
  - intros d N. apply dict_get_In. now rewrite K.
Qed.

Lemma BitMask_decode_value_witness :
  dict_get "cloud levels"
           (BitMask.decode_value
              {| BitMask.bits := [cloud_levels_group]; BitMask.total := 16 |} 221)
  = Some (Some "medium clouds").
Proof.
  exact (proj1 (proj2 (BitMask_decode_value_by_group
                         [BitMask.a_group cloud_levels_group] (Some 16) _ eq_refl 221))
               cloud_levels_group (or_introl eq_refl)).
Defined.

(* ----------------------------------------------------------------- *)
(** ** The names and the masks of all the groups *)

Lemma constructed_bit_values (g : BitGroup.t) :
  constructed g ->
  exists names, BitGroup.bit_values g = Some names
                /\ List.length names = List.length (BitGroup.value_map g).
Proof.
  intros (d & mn & mx & vm & E).
  destruct (BitGroup_init_facts _ _ _ _ _ E) as (_ & _ & R & Nv & _).
  destruct (BitGroup_init_checked _ _ _ _ _ E) as (NE & _ & _).
  destruct (BitGroup_keys_NoDup _ _ _ _ _ E) as (N & F).
  unfold BitGroup.bit_values.
  destruct (BitGroup.min_position g =? BitGroup.max_position g) eqn:Q.
  - apply Z.eqb_eq in Q.
    assert (Nv2 : BitGroup.n_values g = 2).
    { rewrite Nv, Q. now replace (_ - _ + 1) with 1 by lia. }
    rewrite Nv2 in F.
    destruct (BitGroup.value_map g) as [|[a la] [|[b lb] [|c rest]]] eqn:V.
    + contradiction.
    + eexists. split; reflexivity.
    + inversion F as [|? ? [Ha _] F']; subst. inversion F' as [|? ? [Hb _] _]; subst.
      simpl in Ha, Hb. inversion N as [|? ? Nab _]; subst. simpl in Nab.
      assert (C : (a = 0 /\ b = 1) \/ (a = 1 /\ b = 0)) by lia.
      destruct C as [[-> ->]|[-> ->]]; simpl;
        destruct (String.eqb (BitGroup.description g) _);
        eexists; split; reflexivity.
    + exfalso.
      pose proof (keys_in_range_length 2 _ N) as L.
      simpl in L. rewrite Z.max_r in L by lia.
      assert (Fk : Forall (fun k => 0 <= k < 2)
                          (a :: b :: fst c :: map fst rest)).
      { change (a :: b :: fst c :: map fst rest)
          with (map fst ((a, la) :: (b, lb) :: c :: rest)).
        apply Forall_map. eapply Forall_impl; [|exact F]. now intros kv [? _]. }
      specialize (L Fk). lia.
  - eexists. split; [reflexivity|]. now rewrite length_map.
Qed.

Lemma bit_values_fold (gs : list BitGroup.t) :
  Forall constructed gs ->
  forall acc : list string,
  exists ls,
    fold_left (fun values group =>
                 match values, BitGroup.bit_values group with
                 | Some vs, Some l => Some (vs ++ l)%list
                 | _, _ => None
                 end) gs (Some acc)
    = Some (acc ++ List.concat ls)%list
    /\ Forall2 (fun g l => BitGroup.bit_values g = Some l
                           /\ List.length l = List.length (BitGroup.value_map g)) gs ls.
Proof.
  induction 1 as [|g gs C F IH]; intros acc; cbn [fold_left].
  - exists []. split; [simpl; now rewrite app_nil_r | constructor].
  - destruct (constructed_bit_values g C) as (l & B & Ll). rewrite B.
    destruct (IH (acc ++ l)%list) as (ls & -> & F2).
    exists (l :: ls). split; [simpl; now rewrite <- app_assoc|].
    constructor; auto.
Qed.

Lemma BitMask_get_masks_fold (image : ee.Image) (gs : list BitGroup.t) :
  Forall constructed gs ->
  forall acc : list ee.Image,
  exists imgs,
    for_each (fun masks group =>
                let* group_masks := BitGroup.get_masks group image in
                Ok (masks ++ [group_masks])%list) gs acc
    = Ok (acc ++ imgs)%list
    /\ Forall2 (fun g img => BitGroup.get_masks g image = Ok img) gs imgs.
Proof.
  induction 1 as [|g gs C F IH]; intros acc; cbn [for_each].
  - exists []. split; [now rewrite app_nil_r | constructor].
  - destruct C as (d & mn & mx & vm & E).
    destruct (get_masks_loop g image _ [] (labels_have_keys _ _ _ _ _ E))
      as (masks & L & _).
    assert (G : BitGroup.get_masks g image = Ok (ee.fromList masks)).
    { unfold BitGroup.get_masks. now rewrite L. }
    rewrite G. cbn [bind].
    destruct (IH (acc ++ [ee.fromList masks])%list) as (imgs & -> & F2).
    exists (ee.fromList masks :: imgs). split; [now rewrite <- app_assoc|].
    now constructor.
Qed.

(** X25. The groups of a BitMask read from a schema are built by the
    constructor of BitGroup, and on a BitMask of such groups neither
    [bit_values] nor [get_masks] fails: [bit_values] chains the names of
    the groups in order, one name for each entry of each value map, and
    [get_masks] stacks the image that [get_masks] of each group gives. *)
Theorem BitMask_names_and_masks_never_fail :
  (forall (s : list (atom * helpers.info)) (m : BitMask.t),
     BitMask.from_dict s = Ok m -> Forall constructed (BitMask.bits m))
  /\ (forall m : BitMask.t,
        Forall constructed (BitMask.bits m) ->
        (exists ls,
           BitMask.bit_values m = Some (List.concat ls)
           /\ Forall2 (fun g l => BitGroup.bit_values g = Some l
                                  /\ List.length l = List.length (BitGroup.value_map g))
                      (BitMask.bits m) ls)
        /\ (forall image,
              exists imgs,
                BitMask.get_masks m image = Ok (ee.fromList imgs)
                /\ Forall2 (fun g img => BitGroup.get_masks g image = Ok img)
                           (BitMask.bits m) imgs)).
Proof.
  split; [exact from_dict_bits_constructed|].
  intros m C. split.
  - destruct (bit_values_fold _ C []) as (ls & B & F2). exists ls. now split.
  - intros image. destruct (BitMask_get_masks_fold image _ C []) as (imgs & G & F2).
    exists imgs. split; [|assumption].
    unfold BitMask.get_masks. now rewrite G.
Qed.

Lemma BitMask_names_and_masks_witness :
  exists ls,
    BitMask.bit_values {| BitMask.bits := [cloud_levels_group]; BitMask.total := 16 |}
    = Some (List.concat ls).
Proof.
  destruct (proj1 (proj2 BitMask_names_and_masks_never_fail
                     {| BitMask.bits := [cloud_levels_group]; BitMask.total := 16 |}
                     (Forall_cons _ (ex_intro _ _ (ex_intro _ _ (ex_intro _ _
                        (ex_intro _ _ cloud_levels_init)))) (Forall_nil _))))
    as (ls & B & _).
  exists ls. exact B.
Defined.

(* ----------------------------------------------------------------- *)
(** ** A mask and its dict *)

Lemma to_dict_group_entry d mn mx vm g :
  BitGroup.init d mn mx vm = Ok g -> BitGroup.to_dict g = [group_entry g].
Proof.
  intros E. destruct (BitGroup_keys_NoDup _ _ _ _ _ E) as (N & _).
  unfold BitGroup.to_dict, group_entry.
  now rewrite (dict_of_items_nodup _ (printed_keys_NoDup _ N)).
Qed.

Lemma group_entry_split d mn mx vm g :
  BitGroup.init d mn mx vm = Ok g ->
  Str.split "-" (Some 2%nat) (fst (group_entry g))
  = [Str.of_int (BitGroup.min_position g); Str.of_int (BitGroup.max_position g);
     BitGroup.description g].
Proof.
  intros E. destruct (BitGroup_init_facts _ _ _ _ _ E) as (_ & _ & R & _).
  unfold group_entry. cbn [fst]. apply split_three; apply of_int_no_dash; lia.
Qed.

Lemma group_entry_name (g : BitGroup.t) :
  constructed g -> entry_name (fst (group_entry g)) = BitGroup.description g.
Proof.
  intros (d & mn & mx & vm & E).
  exact (entry_name_split _ _ _ _ (group_entry_split _ _ _ _ _ E)).
Qed.

Lemma group_entry_normalized (g : BitGroup.t) :
  constructed g -> positions_in_string_order g ->
  normalized_entry (group_entry g) /\ valid_labels (snd (group_entry g)).
Proof.
  intros (d & mn & mx & vm & E) O.
  destruct (BitGroup_init_facts _ _ _ _ _ E) as (_ & _ & R & Nv & _).
  destruct (BitGroup_keys_NoDup _ _ _ _ _ E) as (N & F).
  pose proof (group_entry_split _ _ _ _ _ E) as S.
  split.
  - exists (BitGroup.min_position g), (BitGroup.max_position g), (BitGroup.description g).
    split; [|split].
    + do 2 eexists. split; [exact S|].
      split; [apply py_int_of_int|]. split; [apply py_int_of_int | lia].
    + unfold normalized_value, group_entry. cbn [snd]. rewrite <- Nv.
      split; [exact (printed_keys_NoDup _ N)|]. split.
      * unfold dict_len. rewrite length_map, <- (length_map fst).
        assert (P : 0 < BitGroup.n_values g)
          by (rewrite Nv; apply Z.pow_pos_nonneg; lia).
        pose proof (keys_in_range_length (BitGroup.n_values g) _ N) as L.
        rewrite Z.max_r in L by lia. apply L.
        apply Forall_map. eapply Forall_impl; [|exact F]. now intros kv [? _].
      * apply Forall_map. eapply Forall_impl; [|exact F].
        intros kv [Rk _]. exists (fst kv). split; [reflexivity | lia].
    + rewrite (format_bit_key_three_parts _ _ _ _ _ _ S (py_int_of_int _) (py_int_of_int _)).
      unfold positions_in_string_order in O. rewrite O. reflexivity.
  - unfold valid_labels, group_entry. cbn [snd].
    apply Forall_map. eapply Forall_impl; [|exact F]. now intros kv [_ [? _]].
Qed.

(** [to_dict] of a mask whose groups have distinct descriptions chains
    the entries of the groups. *)
Lemma to_dict_entries (gs : list BitGroup.t) :
  Forall constructed gs ->
  NoDup (map BitGroup.description gs) ->
  fold_left (fun final group => dict_update final (BitGroup.to_dict group)) gs []
  = map group_entry gs
  /\ NoDup (map fst (map group_entry gs)).
Proof.
  intros C D.
  assert (Names : map entry_name (map fst (map group_entry gs))
                  = map BitGroup.description gs).
  { rewrite !map_map. apply map_ext_in. intros g I.
    exact (group_entry_name g (proj1 (Forall_forall _ _) C g I)). }
  assert (N : NoDup (map fst (map group_entry gs))).
  { apply (NoDup_map_inv entry_name). now rewrite Names. }
  split; [|exact N].
  apply (to_dict_fold gs (map group_entry gs) []); [|exact N].
  clear D Names N. induction C as [|g gs (d & mn & mx & vm & E) C IH]; constructor.
  - exact (to_dict_group_entry _ _ _ _ _ E).
  - exact IH.
Qed.

(** The loop of [from_dict] rebuilds each group from its entry. *)
Lemma from_dict_loop_entries (gs : list BitGroup.t) :
  Forall constructed gs ->
  forall acc,
    for_each BitMask.from_dict_body (map group_entry gs) acc = Ok (acc ++ gs)%list.
Proof.
  induction 1 as [|g gs (d & mn & mx & vm & E) C IH]; intros acc; cbn [map for_each].
  - now rewrite app_nil_r.
  - assert (B : BitMask.from_dict_body acc (group_entry g) = Ok (acc ++ [g])%list).
    { destruct (BitGroup_keys_NoDup _ _ _ _ _ E) as (N & _).
      pose proof (group_entry_split _ _ _ _ _ E) as S.
      unfold BitMask.from_dict_body.
      destruct (group_entry g) as [key value] eqn:Ge. cbn [fst] in S. rewrite S.
      rewrite !py_int_of_int. cbn [bind].
      unfold group_entry in Ge. injection Ge as _ <-.
      rewrite map_m_printed_keys. cbn [bind].
      rewrite (dict_of_items_nodup _ N), (init_again _ _ _ _ _ E). reflexivity. }
    rewrite B. cbn [bind]. rewrite IH. now rewrite <- app_assoc.
Qed.

(** X26. A BitMask comes back from its own dict, as far as the string
    comparison of [format_bit_key] lets it: for a non-empty mask built
    by the constructor from groups that the constructor of BitGroup has
    built, and whose printed positions pass that comparison,
    [to_dict] lists the entry of each group in order and
    [BitMask.from_dict] rebuilds the same groups from it, with the
    default [total] of the last group. *)
Theorem BitMask_from_dict_of_to_dict :
  forall (bits : list BitMask.element) (total : option Z) (m : BitMask.t),
    BitMask.init bits total = Ok m ->
    Forall constructed (BitMask.bits m) ->
    Forall positions_in_string_order (BitMask.bits m) ->
    BitMask.to_dict m = map group_entry (BitMask.bits m)
    /\ forall last,
         py_last (BitMask.bits m) = Ok last ->
         BitMask.from_dict (raw_of_schema (BitMask.to_dict m))
         = Ok {| BitMask.bits := BitMask.bits m;
                 BitMask.total := BitGroup.max_position last + 1 |}.
Proof.
  intros bits total m E C O.
  destruct (BitMask_init_facts _ _ _ E) as (_ & D & P).
  destruct (to_dict_entries _ C D) as (T & N).
  unfold BitMask.to_dict at 1. split; [exact T|].
  intros last L. unfold BitMask.to_dict, BitMask.from_dict. rewrite T.
  assert (Fm : helpers.format_bits_info (raw_of_schema (map group_entry (BitMask.bits m)))
               = Ok (map group_entry (BitMask.bits m))).
  { unfold helpers.format_bits_info.
    rewrite (format_bits_info_again (map group_entry (BitMask.bits m)) [] []).
    - reflexivity.
    - exact N.
    - cbn [app]. rewrite !map_map.
      rewrite (map_ext_in _ BitGroup.description); [exact D|].
      intros g I. exact (group_entry_name g (proj1 (Forall_forall _ _) C g I)).
    - apply Forall_map. apply Forall_forall. intros g I.
      exact (proj1 (group_entry_normalized g (proj1 (Forall_forall _ _) C g I)
                                            (proj1 (Forall_forall _ _) O g I))).
    - apply Forall_map. apply Forall_forall. intros g I.
      exact (proj2 (group_entry_normalized g (proj1 (Forall_forall _ _) C g I)
                                            (proj1 (Forall_forall _ _) O g I))). }
  rewrite Fm. cbn [bind].
  rewrite (from_dict_loop_entries _ C []). cbn [bind app].
  rewrite (BitMask_init_groups _ None D P), L. reflexivity.
Qed.

Lemma BitMask_from_dict_of_to_dict_witness :
  BitMask.from_dict
    (raw_of_schema
       (BitMask.to_dict {| BitMask.bits := [cloud_levels_group]; BitMask.total := 16 |}))
  = Ok {| BitMask.bits := [cloud_levels_group]; BitMask.total := 3 |}.
Proof.
  refine (proj2 (BitMask_from_dict_of_to_dict
                   [BitMask.a_group cloud_levels_group] (Some 16) _ eq_refl _ _)
                cloud_levels_group eq_refl).
  - constructor; [|constructor]. do 4 eexists. exact cloud_levels_init.
  - constructor; [reflexivity | constructor].
Defined.

Lemma haze_levels_init :
  BitGroup.init "Haze" (PyInt 9) (PyInt 10)
                [(PyInt 0, PyStr "None"); (PyInt 1, PyStr "Thin"); (PyInt 2, PyStr "Thick")]
  = Ok haze_levels_group.
Proof. reflexivity. Qed.

(** The first group whose printed positions fail the comparison. *)
Lemma first_out_of_order (gs : list BitGroup.t) :
  (exists g, In g gs
             /\ Str.gtb (Str.of_int (BitGroup.min_position g))
                        (Str.of_int (BitGroup.max_position g)) = true) ->
  exists pre g post,
    gs = (pre ++ g :: post)%list
    /\ Forall positions_in_string_order pre
    /\ Str.gtb (Str.of_int (BitGroup.min_position g))
               (Str.of_int (BitGroup.max_position g)) = true.
Proof.
  induction gs as [|g0 gs IH]; intros (g & I & G); [contradiction|].
  destruct (Str.gtb (Str.of_int (BitGroup.min_position g0))
                    (Str.of_int (BitGroup.max_position g0))) eqn:G0.
  - exists [], g0, gs. repeat split; [constructor | assumption].
  - destruct I as [->|I]; [congruence|].
    destruct (IH (ex_intro _ g (conj I G))) as (pre & g1 & post & -> & F & G1).
    exists (g0 :: pre), g1, post. repeat split; [constructor; assumption | assumption].
Qed.

(** X27. A BitMask with a group whose printed positions fail the string
    comparison of [format_bit_key] -- positions 9 and 10, say -- cannot
    be read back from its own dict: for a mask built by the constructor
    from groups that the constructor of BitGroup has built,
    [BitMask.from_dict(m.to_dict())] raises the [ValueError] of a start
    bit after the end bit, although every group has
    [min_position <= max_position]. *)
Theorem BitMask_dict_rejected_by_string_comparison :
  forall (bits : list BitMask.element) (total : option Z) (m : BitMask.t),
    BitMask.init bits total = Ok m ->
    Forall constructed (BitMask.bits m) ->
    (exists g, In g (BitMask.bits m)
               /\ Str.gtb (Str.of_int (BitGroup.min_position g))
                          (Str.of_int (BitGroup.max_position g)) = true) ->
    BitMask.from_dict (raw_of_schema (BitMask.to_dict m))
    = Raise helpers.start_after_end
    /\ Forall (fun g => BitGroup.min_position g <= BitGroup.max_position g)
              (BitMask.bits m).
Proof.
  intros bits total m E C X.
  destruct (BitMask_init_facts _ _ _ E) as (_ & D & _).
  destruct (to_dict_entries _ C D) as (T & N).
  split.
  - unfold BitMask.to_dict, BitMask.from_dict, helpers.format_bits_info. rewrite T.
    destruct (first_out_of_order _ X) as (pre & g & post & Eq & O & G).
    rewrite Eq in *. clear Eq.
    apply Forall_app in C. destruct C as [Cpre Cg].
    inversion Cg as [|? ? Cg0 Cpost]; subst.
    unfold raw_of_schema. rewrite !map_app. cbn [map].
    rewrite for_each_app.
    assert (Npre : NoDup (map fst (map group_entry pre))).
    { rewrite !map_app in N. exact (NoDup_app_remove_r _ _ N). }
    assert (Dpre : NoDup (map entry_name (map fst (map group_entry pre)))).
    { rewrite !map_map. rewrite (map_ext_in _ BitGroup.description).
      - rewrite map_app in D. exact (NoDup_app_remove_r _ _ D).
      - intros g0 I. exact (group_entry_name g0 (proj1 (Forall_forall _ _) Cpre g0 I)). }
    pose proof (format_bits_info_again (map group_entry pre) [] [] Npre Dpre) as Again.
    unfold raw_of_schema in Again. rewrite Again.
    + cbn [bind for_each app].
      destruct Cg0 as (d & mn & mx & vm & Eg).
      pose proof (group_entry_split _ _ _ _ _ Eg) as S.
      unfold helpers.format_bits_info_body at 1.
      rewrite (expand_single_bit_three _ _ _ _ _ S). cbn [bind].
      rewrite (format_bit_key_three_parts _ _ _ _ _ _ S (py_int_of_int _) (py_int_of_int _)).
      rewrite G. reflexivity.
    + apply Forall_map. apply Forall_forall. intros g0 I.
      exact (proj1 (group_entry_normalized g0 (proj1 (Forall_forall _ _) Cpre g0 I)
                                             (proj1 (Forall_forall _ _) O g0 I))).
    + apply Forall_map. apply Forall_forall. intros g0 I.
      exact (proj2 (group_entry_normalized g0 (proj1 (Forall_forall _ _) Cpre g0 I)
                                             (proj1 (Forall_forall _ _) O g0 I))).
  - eapply Forall_impl; [|exact C].
    intros g (d & mn & mx & vm & Eg).
    destruct (BitGroup_init_facts _ _ _ _ _ Eg) as (_ & _ & R & _). lia.
Qed.

Lemma BitMask_dict_rejected_witness :
  BitMask.from_dict
    (raw_of_schema
       (BitMask.to_dict {| BitMask.bits := [haze_levels_group]; BitMask.total := 11 |}))
  = Raise helpers.start_after_end.
Proof.
  refine (proj1 (BitMask_dict_rejected_by_string_comparison
                   [BitMask.a_group haze_levels_group] None _ eq_refl _ _)).
  - constructor; [|constructor]. do 4 eexists. exact haze_levels_init.
  - exists haze_levels_group. split; [now left | reflexivity].
Defined.

(* ----------------------------------------------------------------- *)
(** ** What the constructor of BitGroup accepts *)

Lemma init_body_accepts_item (nv : Z) (acc : list (Z * string))
      (key : pyval) (k : Z) (l : string) :
  py_int key = Ok k ->
  helpers.is_str (PyStr l) = Ok true -> ~ In k (map fst acc) -> 0 <= k < nv ->
  BitGroup.init_body nv acc (key, PyStr l) = Ok (acc ++ [(k, Str.lower l)])%list.
Proof.
  intros P S Fresh R. unfold BitGroup.init_body.
  rewrite (is_int_of_py_int _ _ P). cbn [bind raise_if negb].
  rewrite S, P. cbn [bind raise_if negb].
  assert (M : dict_mem k acc = false).
  { destruct (dict_mem k acc) eqn:M; [|reflexivity].
    apply dict_mem_In in M. contradiction. }
  rewrite M. cbn [raise_if].
  replace ((k <? 0) || (k >=? nv))%bool with false by lia.
  cbn [raise_if py_lower bind]. now rewrite (dict_set_fresh _ _ _ Fresh).
Qed.

Lemma init_body_loop_accepts_items (nv : Z) (vm : list (pyval * pyval))
      (items : list (Z * string)) :
  Forall2 (fun item kl => py_int (fst item) = Ok (fst kl)
                          /\ snd item = PyStr (snd kl)
                          /\ helpers.is_str (PyStr (snd kl)) = Ok true
                          /\ 0 <= fst kl < nv) vm items ->
  forall acc,
    NoDup (map fst acc ++ map fst items) ->
    for_each (BitGroup.init_body nv) vm acc
    = Ok (acc ++ map (fun kl => (fst kl, Str.lower (snd kl))) items)%list.
Proof.
  induction 1 as [|[key v] [k l] vm items (P & V & S & R) F IH];
    intros acc N; cbn [map for_each fst snd] in *.
  - now rewrite app_nil_r.
  - subst v. rewrite (init_body_accepts_item nv acc key k l P S); try assumption.
    + cbn [bind]. rewrite IH.
      * now rewrite <- app_assoc.
      * rewrite map_app. cbn [map fst]. now rewrite <- app_assoc.
    + exact (NoDup_fresh _ _ _ N).
Qed.

(** X28. The constructor of BitGroup accepts every well-formed input,
    whatever the types [int()] reads the positions and keys from: when
    [int(min_position) = lo] and [int(max_position) = hi] with
    [0 <= lo <= hi], the value map is not empty, its keys are read by
    [int()] as pairwise distinct integers of [[0, 2^(hi-lo+1))], its
    labels are non-empty strings that are not integers and, for one bit
    and one entry, the key is 1, then the group is built, with the
    description and the labels in lower case and the keys as
    integers. *)
Theorem BitGroup_constructor_accepts :
  forall (d : string) (mn mx : pyval) (vm : list (pyval * pyval))
         (lo hi : Z) (items : list (Z * string)),
    py_int mn = Ok lo -> py_int mx = Ok hi -> 0 <= lo <= hi ->
    Forall2 (fun item kl => py_int (fst item) = Ok (fst kl)
                            /\ snd item = PyStr (snd kl)
                            /\ helpers.is_str (PyStr (snd kl)) = Ok true
                            /\ 0 <= fst kl < 2 ^ (hi - lo + 1)) vm items ->
    NoDup (map fst items) ->
    items <> [] ->
    (lo = hi -> List.length items = 1%nat -> In 1 (map fst items)) ->
    exists g,
      BitGroup.init d mn mx vm = Ok g
      /\ BitGroup.description g = Str.lower d
      /\ BitGroup.min_position g = lo /\ BitGroup.max_position g = hi
      /\ BitGroup.n_values g = 2 ^ (hi - lo + 1)
      /\ BitGroup.value_map g = map (fun kl => (fst kl, Str.lower (snd kl))) items.
Proof.
  intros d mn mx vm lo hi items Pmn Pmx R F N NE SB.
  unfold BitGroup.init.
  rewrite (is_int_of_py_int _ _ Pmn), (is_int_of_py_int _ _ Pmx), Pmn, Pmx.
  cbn [py_or py_not bind raise_if negb orb].
  replace ((lo <? 0) || (hi <? 0))%bool with false by lia.
  replace (lo >? hi) with false by lia.
  cbn [raise_if].
  rewrite (init_body_loop_accepts_items _ _ _ F [] N). cbn [bind app].
  assert (L0 : (dict_len (map (fun kl : Z * string => (fst kl, Str.lower (snd kl))) items)
                =? 0) = false).
  { apply Z.eqb_neq. unfold dict_len. rewrite length_map.
    destruct items; [contradiction | simpl; lia]. }
  rewrite L0. cbn [raise_if].
  assert (S1 : ((lo =? hi)
                && (dict_len (map (fun kl : Z * string => (fst kl, Str.lower (snd kl)))
                                  items) =? 1)
                && negb (dict_mem 1 (map (fun kl : Z * string =>
                                            (fst kl, Str.lower (snd kl))) items)))%bool
               = false).
  { destruct (lo =? hi) eqn:Q; [|reflexivity].
    destruct (dict_len _ =? 1) eqn:L1; [|reflexivity].
    apply Z.eqb_eq in Q, L1. unfold dict_len in L1. rewrite length_map in L1.
    assert (M : dict_mem 1 (map (fun kl : Z * string => (fst kl, Str.lower (snd kl)))
                                items) = true).
    { apply dict_mem_In. rewrite map_map. cbn [fst]. apply SB; [assumption | lia]. }
    now rewrite M. }
  rewrite S1. cbn [raise_if].
  eexists. split; [reflexivity|]. cbn. repeat split.
Qed.

Lemma BitGroup_constructor_accepts_witness :
  exists g,
    BitGroup.init "Cloud" (PyStr "3") (PyInt 3)
                  [(PyStr " 1 ", PyStr "Cloud")] = Ok g
    /\ BitGroup.value_map g = [(1, "cloud")].
Proof.
  destruct (BitGroup_constructor_accepts
              "Cloud" (PyStr "3") (PyInt 3) [(PyStr " 1 ", PyStr "Cloud")]
              3 3 [(1, "Cloud")] eq_refl eq_refl ltac:(lia))
    as (g & E & _ & _ & _ & _ & V).
  - repeat constructor; simpl; lia.
  - repeat constructor. intros [].
  - discriminate.
  - intros _ _. now left.
  - exists g. split; [exact E | exact V].
Defined.

(* ================================================================= *)
(** * Further properties: the constructor of Bit *)

Lemma rstrip_cons_nonspace (c : ascii) (s : string) :
  Str.is_space c = false -> exists r, Str.rstrip (String c s) = String c r.
Proof.
  intros N. cbn [Str.rstrip]. rewrite N. destruct (Str.rstrip s); eauto.
Qed.

Lemma to_int_no_prefix (s : string) : Str.to_int ("no " ++ s) = None.
Proof.
  unfold Str.to_int, Str.strip.
  change ("no " ++ s)%string with (String "n" (String "o" (String " " s))).
  cbn [Str.lstrip]. change (Str.is_space "n") with false. cbv iota.
  destruct (rstrip_cons_nonspace "n" (String "o" (String " " s)) eq_refl) as [r ->].
  reflexivity.
Qed.

Lemma is_str_no_prefix (s : string) : helpers.is_str (PyStr ("no " ++ s)) = Ok true.
Proof.
  apply is_str_true_iff. exists ("no " ++ s)%string.
  split; [reflexivity|]. split; [discriminate | apply to_int_no_prefix].
Qed.

Lemma is_str_of_str (s : string) :
  helpers.is_str (PyStr s) = Ok true \/ helpers.is_str (PyStr s) = Ok false.
Proof.
  unfold helpers.is_str, py_and, py_not. rewrite is_int_str.
  destruct (Str.to_int s); simpl; [now right|].
  destruct s; simpl; auto.
Qed.

(** X29. The constructor of Bit and the promotion to a group.  The
    constructor keeps [int(position)] for whatever [int()] reads and
    raises [TypeError] when [is_int] is false; it does not look at the
    sign or at the labels, and a missing or empty negative label becomes
    ["no <positive>"], which is always a valid label.  [to_bit_group]
    then succeeds exactly when the position is not negative and both
    labels are non-empty strings that are not integers; it raises the
    [ValueError] of the negative positions in the first case and the one
    of the bad label otherwise. *)
Theorem Bit_constructor_and_promotion :
  (forall (p : pyval) (positive : string) (negative : option string),
     (helpers.is_int p = Ok false ->
      Bit.init p positive negative = Raise Bit.position_not_int)
     /\ (forall n, py_int p = Ok n ->
           exists b, Bit.init p positive negative = Ok b
                     /\ Bit.position b = n /\ Bit.positive b = positive
                     /\ (negative = None \/ negative = Some EmptyString ->
                         Bit.negative b = ("no " ++ positive)%string
                         /\ helpers.is_str (PyStr (Bit.negative b)) = Ok true)))
  /\ (forall (b : Bit.t) (d : string),
        (Bit.position b < 0 ->
         Bit.to_bit_group b d = Raise BitGroup.positions_negative)
        /\ (0 <= Bit.position b ->
            helpers.is_str (PyStr (Bit.negative b)) = Ok true ->
            helpers.is_str (PyStr (Bit.positive b)) = Ok true ->
            exists g, Bit.to_bit_group b d = Ok g)
        /\ (0 <= Bit.position b ->
            helpers.is_str (PyStr (Bit.negative b)) = Ok false
            \/ helpers.is_str (PyStr (Bit.positive b)) = Ok false ->
            Bit.to_bit_group b d = Raise helpers.value_not_str)).
Proof.
  split.
  - intros p positive negative. unfold Bit.init. split.
    + now intros ->.
    + intros n P. rewrite (is_int_of_py_int _ _ P), P. cbn [bind].
      eexists. split; [reflexivity|]. cbn. repeat split.
      * now destruct H as [->| ->].
      * destruct H as [->| ->]; apply is_str_no_prefix.
  - intros b d. unfold Bit.to_bit_group, BitGroup.init.
    change (helpers.is_int (PyInt (Bit.position b))) with (@Ok bool true).
    cbn [py_or py_not bind raise_if negb py_int orb].
    rewrite Bool.orb_diag. split; [|split].
    + intros L. replace (Bit.position b <? 0) with true by lia. reflexivity.
    + intros L Sn Sp. replace (Bit.position b <? 0) with false by lia.
      replace (Bit.position b >? Bit.position b) with false by lia.
      cbn [raise_if]. replace (Bit.position b - Bit.position b + 1) with 1 by lia.
      rewrite (init_body_loop_accepts_items
                 (2 ^ 1) _ [(0, Bit.negative b); (1, Bit.positive b)]).
      * cbn. rewrite Z.eqb_refl. cbn. eexists. reflexivity.
      * repeat constructor; cbn; try assumption; lia.
      * cbn. repeat constructor; cbn; intuition discriminate.
    + intros L S. replace (Bit.position b <? 0) with false by lia.
      replace (Bit.position b >? Bit.position b) with false by lia.
      cbn [raise_if]. replace (Bit.position b - Bit.position b + 1) with 1 by lia.
      cbn [for_each]. unfold BitGroup.init_body at 1.
      change (helpers.is_int (PyInt 0)) with (@Ok bool true).
      cbn [bind raise_if negb].
      destruct (is_str_of_str (Bit.negative b)) as [Sn|Sn]; rewrite Sn;
        cbn [bind raise_if negb]; [|reflexivity].
      destruct S as [S|S]; [congruence|].
      cbn [py_int dict_mem dict_get raise_if]. cbn [bind py_lower dict_set].
      change ((0 <? 0) || (0 >=? 2 ^ 1))%bool with false. cbn [raise_if bind].
      unfold BitGroup.init_body.
      change (helpers.is_int (PyInt 1)) with (@Ok bool true).
      cbn [bind raise_if negb]. rewrite S. reflexivity.
Qed.

Lemma Bit_constructor_and_promotion_witness :
  (exists b, Bit.init (PyStr "3") "Cloud" None = Ok b
             /\ Bit.position b = 3 /\ Bit.negative b = "no Cloud")
  /\ Bit.to_bit_group {| Bit.position := 3; Bit.positive := "1"; Bit.negative := "no 1" |}
                      "one"
     = Raise helpers.value_not_str.
Proof.
  split.
  - destruct (proj2 (proj1 Bit_constructor_and_promotion (PyStr "3") "Cloud" None)
                    3 eq_refl) as (b & E & P & _ & N).
    exists b. split; [exact E|]. split; [exact P|].
    exact (proj1 (N (or_introl eq_refl))).
  - refine (proj2 (proj2 (proj2 Bit_constructor_and_promotion
                            {| Bit.position := 3; Bit.positive := "1";
                               Bit.negative := "no 1" |} "one")) _ _).
    + simpl. lia.
    + right. reflexivity.
Defined.

(* ================================================================= *)
(** * The integer guard in the constructors and the lookup *)

(** The constructor of BitGroup on an input that is well formed once
    [int()] has read the positions and the keys. *)
Lemma init_accepts :
  forall (d : string) (mn mx : pyval) (vm : list (pyval * pyval))
         (lo hi : Z) (items : list (Z * string)),
    py_int mn = Ok lo -> py_int mx = Ok hi -> 0 <= lo <= hi ->
    Forall2 (fun item kl => py_int (fst item) = Ok (fst kl)
                            /\ snd item = PyStr (snd kl)
                            /\ helpers.is_str (PyStr (snd kl)) = Ok true
                            /\ 0 <= fst kl < 2 ^ (hi - lo + 1)) vm items ->
    NoDup (map fst items) ->
    items <> [] ->
    (lo = hi -> List.length items = 1%nat -> In 1 (map fst items)) ->
    exists g,
      BitGroup.init d mn mx vm = Ok g
      /\ BitGroup.description g = Str.lower d
      /\ BitGroup.min_position g = lo /\ BitGroup.max_position g = hi
      /\ BitGroup.n_values g = 2 ^ (hi - lo + 1)
      /\ BitGroup.value_map g = map (fun kl => (fst kl, Str.lower (snd kl))) items.
Proof.
  intros d mn mx vm lo hi items Pmn Pmx R F N NE SB.
  unfold BitGroup.init.
  rewrite (is_int_of_py_int _ _ Pmn), (is_int_of_py_int _ _ Pmx), Pmn, Pmx.
  cbn [py_or py_not bind raise_if negb orb].
  replace ((lo <? 0) || (hi <? 0))%bool with false by lia.
  replace (lo >? hi) with false by lia.
  cbn [raise_if].
  rewrite (init_body_loop_accepts_items _ _ _ F [] N). cbn [bind app].
  assert (L0 : (dict_len (map (fun kl : Z * string => (fst kl, Str.lower (snd kl))) items)
                =? 0) = false).
  { apply Z.eqb_neq. unfold dict_len. rewrite length_map.
    destruct items; [contradiction | simpl; lia]. }
  rewrite L0. cbn [raise_if].
  assert (S1 : ((lo =? hi)
                && (dict_len (map (fun kl : Z * string => (fst kl, Str.lower (snd kl)))
                                  items) =? 1)
                && negb (dict_mem 1 (map (fun kl : Z * string =>
                                            (fst kl, Str.lower (snd kl))) items)))%bool
               = false).
  { destruct (lo =? hi) eqn:Q; [|reflexivity].
    destruct (dict_len _ =? 1) eqn:L1; [|reflexivity].
    apply Z.eqb_eq in Q, L1. unfold dict_len in L1. rewrite length_map in L1.
    assert (M : dict_mem 1 (map (fun kl : Z * string => (fst kl, Str.lower (snd kl)))
                                items) = true).
    { apply dict_mem_In. rewrite map_map. cbn [fst]. apply SB; [assumption | lia]. }
    now rewrite M. }
  rewrite S1. cbn [raise_if].
  eexists. split; [reflexivity|]. cbn. repeat split.
Qed.

(** C9. Whenever [int(v)] succeeds with [n] -- for a float, a bool or a
    numeric string as well as for an int -- [is_int] accepts [v], and the
    constructors of [Bit] and [BitGroup] and the lookup of
    [is_positive_by_key] go on with [n] as if [n] had been passed: the
    Bit is built at position [n]; [is_positive_by_key] compares the field
    with [n] when [n] is a key of the value map and raises the error of
    the unknown key otherwise, not the [TypeError]; and the BitGroup is
    built with [min_position = n], and with the integers that [int()]
    reads from the keys of the value map, on every input that is well
    formed for these integers. *)
Theorem C9_is_int_accepts_what_int_converts :
  forall (v : pyval) (n : Z),
    py_int v = Ok n ->
    helpers.is_int v = Ok true
    /\ (forall positive negative,
           exists b, Bit.init v positive negative = Ok b /\ Bit.position b = n)
    /\ (forall g value,
           BitGroup.is_positive_by_key g value v
           = BitGroup.is_positive_by_key g value (PyInt n))
    /\ (forall d v2 n2 vm,
           py_int v2 = Ok n2 ->
           BitGroup.init d v v2 vm = BitGroup.init d (PyInt n) (PyInt n2) vm)
    /\ (forall g value,
           BitGroup.is_positive_by_key g value v
           = if dict_mem n (BitGroup.value_map g)
             then Ok (Z.land (Z.shiftr value (BitGroup.min_position g))
                             (BitGroup.group_mask g) =? n)
             else Raise BitGroup.key_not_in_map)
    /\ (forall (d : string) (v2 : pyval) (hi : Z) (vm : list (pyval * pyval))
               (items : list (Z * string)),
           py_int v2 = Ok hi -> 0 <= n <= hi ->
           Forall2 (fun item kl => py_int (fst item) = Ok (fst kl)
                                   /\ snd item = PyStr (snd kl)
                                   /\ helpers.is_str (PyStr (snd kl)) = Ok true
                                   /\ 0 <= fst kl < 2 ^ (hi - n + 1)) vm items ->
           NoDup (map fst items) ->
           items <> [] ->
           (n = hi -> List.length items = 1%nat -> In 1 (map fst items)) ->
           exists g,
             BitGroup.init d v v2 vm = Ok g
             /\ BitGroup.min_position g = n /\ BitGroup.max_position g = hi
             /\ BitGroup.value_map g
                = map (fun kl => (fst kl, Str.lower (snd kl))) items).
Proof.
  intros v n P. pose proof (is_int_of_py_int _ _ P) as I.
  split; [assumption|]. split; [|split; [|split; [|split]]].
  - intros positive negative. unfold Bit.init. rewrite I, P. simpl.
    eexists. split; reflexivity.
  - intros g value. unfold BitGroup.is_positive_by_key. now rewrite I, P.
  - intros d v2 n2 vm P2. unfold BitGroup.init.
    now rewrite I, P, (is_int_of_py_int _ _ P2), P2.
  - intros g value. unfold BitGroup.is_positive_by_key. rewrite I, P.
    cbn [bind raise_if negb].
    now destruct (dict_mem n (BitGroup.value_map g)).
  - intros d v2 hi vm items P2 R F N NE SB.
    destruct (init_accepts d v v2 vm n hi items P P2 R F N NE SB)
      as (g & E & _ & Lo & Hi & _ & V).
    exists g. auto.
Qed.

(** [Bit(position=2.9)] has [position == 2]; so has [Bit(position=True)]
    position 1; and [BitGroup("Cloud", 2.9, "3", {True: "Cloud"})] is the
    group of the positions 2 and 3 with the key 1. *)
Lemma C9_witness :
  (exists b, Bit.init (PyFloat float_2_9) "water" None = Ok b /\ Bit.position b = 2)
  /\ (exists b, Bit.init (PyBool true) "water" None = Ok b /\ Bit.position b = 1)
  /\ BitGroup.is_positive_by_key cloud_levels_group 221 (PyFloat float_2_9) = Ok true
  /\ (exists g, BitGroup.init "Cloud" (PyFloat float_2_9) (PyStr "3")
                              [(PyBool true, PyStr "Cloud")] = Ok g
                /\ BitGroup.min_position g = 2 /\ BitGroup.max_position g = 3
                /\ BitGroup.value_map g = [(1, "cloud")]).
Proof.
  split; [|split; [|split]].
  - exact (proj1 (proj2 (C9_is_int_accepts_what_int_converts
                           (PyFloat float_2_9) 2 eq_refl)) "water" None).
  - exact (proj1 (proj2 (C9_is_int_accepts_what_int_converts
                           (PyBool true) 1 eq_refl)) "water" None).
  - rewrite (proj1 (proj2 (proj2 (C9_is_int_accepts_what_int_converts
                                    (PyFloat float_2_9) 2 eq_refl)))).
    reflexivity.
  - refine (proj2 (proj2 (proj2 (proj2 (proj2
              (C9_is_int_accepts_what_int_converts (PyFloat float_2_9) 2 eq_refl)))))
              "Cloud" (PyStr "3") 3 [(PyBool true, PyStr "Cloud")] [(1, "Cloud")]
              eq_refl ltac:(lia) _ _ _ _).
    + repeat constructor; simpl; lia.
    + repeat constructor. intros [].
    + discriminate.
    + intros _ _. now left.
Defined.
